(** * dtb2csv: the DTB reader and the CSV converter

    A shallow embedding of [dtb2csv.pyw] (version 0.2.0): the entities
    [Group], [Team] and [Player] with their row projection [to_list], the six
    regular expressions of [DtbReader], the stateful [DtbReader.read] and the
    driver [ConverterCsv.convert].

    Characters are code points below 256 ([ascii]); on that range the
    category [\d] of Python's [re] is exactly ['0'..'9'].  A Python value
    that is a [str] or [None] is an [option string].  Lines with characters
    beyond that range, where [\d] accepts the digits of other scripts, are
    the subject of [Unicode], the same reader over code points. *)

From Stdlib Require Import String Ascii List Bool Arith NArith Lia.
Import ListNotations.
Open Scope string_scope.

(** ** Strings *)

Definition tab : ascii := "009"%char.
Definition newline : ascii := "010"%char.

(** [s[:n]] *)
Definition take (n : nat) (s : string) : string := substring 0 n s.

(** ** The fragment of [re] the reader uses

    The matcher is the backtracking matcher of [re]: alternatives are tried
    in priority order (a greedy repeat tries the longest run first, an
    optional part is tried before it is skipped), marks set on a path that
    fails are dropped with the path, and [fullmatch] accepts a path only when
    it ends at the end of the string. *)

Module Re.

(** An item of a character set [[...]]. *)
Inductive set_item : Type :=
| Item (c : ascii)            (* a literal character *)
| Category_digit.             (* \d *)

(** Patterns that match exactly one character. *)
Inductive char_pattern : Type :=
| Literal (c : ascii)         (* c *)
| Any                         (* .       every character but the newline *)
| In (items : list set_item)  (* [...] *)
| Not_in (items : list set_item). (* [^...] *)

Inductive pattern : Type :=
| At_beginning                              (* ^ *)
| At_end                                    (* $ *)
| One (p : char_pattern)
| Star (p : char_pattern)                   (* p*  greedy *)
| Plus (p : char_pattern)                   (* p+  greedy *)
| Opt (r : pattern)                         (* r?  greedy *)
| Seq (r1 r2 : pattern)
| Named (name : string) (r : pattern)       (* (?P<name>r) *)
| Paren (r : pattern).                      (* (r), a group nobody reads *)

Definition is_digit (a : ascii) : bool :=
  ((48 <=? nat_of_ascii a) && (nat_of_ascii a <=? 57))%nat.

Definition item_match (it : set_item) (a : ascii) : bool :=
  match it with
  | Item c => Ascii.eqb a c
  | Category_digit => is_digit a
  end.

Definition char_match (p : char_pattern) (a : ascii) : bool :=
  match p with
  | Literal c => Ascii.eqb a c
  | Any => negb (Ascii.eqb a newline)
  | In items => existsb (fun it => item_match it a) items
  | Not_in items => negb (existsb (fun it => item_match it a) items)
  end.

(** The marks of a match: the text of each named group that took part in
    the match, most recent first. *)
Definition marks : Type := list (string * string).

(** [m.group(name)]: the text of the group, [None] when the group did not
    take part in the match. *)
Fixpoint group (mk : marks) (name : string) : option string :=
  match mk with
  | [] => None
  | (n, v) :: rest => if String.eqb n name then Some v else group rest name
  end.

(** A greedy repeat of a one-character pattern: as many characters as
    match, then one fewer each time the rest of the pattern fails. *)
Fixpoint repeat_one (p : char_pattern) (i : nat) (w : string)
    (k : nat -> string -> option marks) {struct w} : option marks :=
  match w with
  | String a t =>
      if char_match p a
      then match repeat_one p (S i) t k with
           | Some res => Some res
           | None => k i w
           end
      else k i w
  | EmptyString => k i w
  end.

(** [run r i w mk k]: match [r] at position [i], where [w] is the text from
    [i] on and [mk] the marks so far; [k] is the rest of the pattern. *)
Fixpoint run (r : pattern) (i : nat) (w : string) (mk : marks)
    (k : nat -> string -> marks -> option marks) {struct r} : option marks :=
  match r with
  | At_beginning => if Nat.eqb i 0 then k i w mk else None
  | At_end =>
      (* at the end of the string, or before a newline that ends it *)
      if String.eqb w "" || String.eqb w (String newline "")
      then k i w mk else None
  | One p =>
      match w with
      | String a t => if char_match p a then k (S i) t mk else None
      | EmptyString => None
      end
  | Star p => repeat_one p i w (fun i' w' => k i' w' mk)
  | Plus p =>
      match w with
      | String a t =>
          if char_match p a
          then repeat_one p (S i) t (fun i' w' => k i' w' mk)
          else None
      | EmptyString => None
      end
  | Opt r' =>
      match run r' i w mk k with
      | Some res => Some res
      | None => k i w mk
      end
  | Seq r1 r2 => run r1 i w mk (fun i' w' mk' => run r2 i' w' mk' k)
  | Named n r' =>
      run r' i w mk (fun i' w' mk' => k i' w' ((n, take (i' - i) w) :: mk'))
  | Paren r' => run r' i w mk k
  end.

(** [pattern.fullmatch(line)] *)
Definition fullmatch (r : pattern) (line : string) : option marks :=
  run r 0 line [] (fun _ w mk => if String.eqb w "" then Some mk else None).

(** *** What a pattern can match

    [matches r i u w mk mk']: started at position [i] with marks [mk], the
    pattern [r] can consume exactly [u], leaving [w], and end with marks
    [mk'].  This is the set of paths the backtracking matcher searches,
    without their order. *)

Fixpoint all_match (p : char_pattern) (u : string) : bool :=
  match u with
  | String a t => char_match p a && all_match p t
  | EmptyString => true
  end.

(** [stops p w]: a run of [p] cannot go on into [w]. *)
Definition stops (p : char_pattern) (w : string) : bool :=
  match w with
  | String a _ => negb (char_match p a)
  | EmptyString => true
  end.

Fixpoint matches (r : pattern) (i : nat) (u w : string) (mk mk' : marks)
  : Prop :=
  match r with
  | At_beginning => u = "" /\ i = 0 /\ mk' = mk
  | At_end => u = "" /\ (w = "" \/ w = String newline "") /\ mk' = mk
  | One p => exists a, u = String a "" /\ char_match p a = true /\ mk' = mk
  | Star p => all_match p u = true /\ mk' = mk
  | Plus p => u <> "" /\ all_match p u = true /\ mk' = mk
  | Opt r' => (u = "" /\ mk' = mk) \/ matches r' i u w mk mk'
  | Seq r1 r2 =>
      exists u1 u2 mk1,
        u = u1 ++ u2 /\
        matches r1 i u1 (u2 ++ w) mk mk1 /\
        matches r2 (i + String.length u1) u2 w mk1 mk'
  | Named n r' => exists mk1, matches r' i u w mk mk1 /\ mk' = (n, u) :: mk1
  | Paren r' => matches r' i u w mk mk'
  end.

(** [looser r r']: [r'] is [r] with some of its parts made optional. *)
Inductive looser : pattern -> pattern -> Prop :=
| looser_same r : looser r r
| looser_opt r : looser r (Opt r)
| looser_seq r1 r1' r2 r2' :
    looser r1 r1' -> looser r2 r2' -> looser (Seq r1 r2) (Seq r1' r2').

(** Literals and sequences, for writing the patterns down as the source
    has them. *)
Definition lit (c : ascii) : pattern := One (Literal c).
Arguments lit c%_char.
Arguments Item c%_char.
Arguments Literal c%_char.

Declare Scope re_scope.
Delimit Scope re_scope with re.
Bind Scope re_scope with pattern.
Notation "r1 ;; r2" := (Seq r1 r2)
  (at level 61, right associativity) : re_scope.

End Re.

(** ** The entities and their rows *)

(** A cell of a row before it is written: a [str] or [None]. *)
Definition row : Type := list (option string).

Module Group.
Record t : Type := Build { name : option string; note : option string }.

Definition to_list (self : t) : row := [name self; note self].

Definition header : list string := ["Název, Oddíl"; "Poznámka, Oddíl"].
End Group.

Module Team.
Record t : Type :=
  Build { name : option string; note : option string; group : Group.t }.

Definition to_list (self : t) : row :=
  (Group.to_list (group self) ++ [name self; note self])%list.

Definition header : list string :=
  ["Název, Družstvo"; "Poznámka, Družstvo"].
End Team.

Module Player.
Record t : Type :=
  Build { registration_number : option string;
          name : option string;
          surname : option string;
          date_of_birth : option string;
          note : option string;
          team : Team.t }.

Definition to_list (self : t) : row :=
  (Team.to_list (team self) ++
   [registration_number self; name self; surname self; date_of_birth self;
    note self])%list.

Definition header : list string :=
  ["Reg. číslo, Hráč"; "Jméno, Hráč"; "Příjmení, Hráč"; "Datum nar., Hráč";
   "Poznámka, Hráč"].
End Player.

(** [Union[Group, Team, Player]], what [read] returns. *)
Inductive entity : Type :=
| AGroup (g : Group.t)
| ATeam (t : Team.t)
| APlayer (p : Player.t).

(** [entity.to_list()] *)
Definition to_list (e : entity) : row :=
  match e with
  | AGroup g => Group.to_list g
  | ATeam t => Team.to_list t
  | APlayer p => Player.to_list p
  end.

(** ** The reader *)

Module DtbReader.
Import Re.
Local Open Scope re_scope.

(** [GROUP_RE_STRICT], in the layout of [re.VERBOSE]:
    [^ ( (?P<name> [^\t]* ) [ ] )? - [ ] (?P<note> .+ )? \n $] *)
Definition GROUP_RE_STRICT : pattern :=
  At_beginning ;;
  Opt (Paren (Named "name" (Star (Not_in [Item tab])) ;; lit " ")) ;;
  lit "-" ;; lit " " ;;
  Opt (Named "note" (Plus Any)) ;; lit newline ;; At_end.

(** [GROUP_RE_LOOSE]:
    [^ ( (?P<name> [^\t]* ) [ ] )? - [ ]? (?P<note> .+ )? \n $] *)
Definition GROUP_RE_LOOSE : pattern :=
  At_beginning ;;
  Opt (Paren (Named "name" (Star (Not_in [Item tab])) ;; lit " ")) ;;
  lit "-" ;; Opt (lit " ") ;;
  Opt (Named "note" (Plus Any)) ;; lit newline ;; At_end.

(** [TEAM_RE_STRICT]:
    [^ \t ( (?P<name> [^\t]* ) [ ] )? - [ ] (?P<note> .+ )? \n $] *)
Definition TEAM_RE_STRICT : pattern :=
  At_beginning ;; lit tab ;;
  Opt (Paren (Named "name" (Star (Not_in [Item tab])) ;; lit " ")) ;;
  lit "-" ;; lit " " ;;
  Opt (Named "note" (Plus Any)) ;; lit newline ;; At_end.

(** [TEAM_RE_LOOSE]:
    [^ \t ( (?P<name> [^\t]* ) [ ] )? - [ ]? (?P<note> .+ )? \n $] *)
Definition TEAM_RE_LOOSE : pattern :=
  At_beginning ;; lit tab ;;
  Opt (Paren (Named "name" (Star (Not_in [Item tab])) ;; lit " ")) ;;
  lit "-" ;; Opt (lit " ") ;;
  Opt (Named "note" (Plus Any)) ;; lit newline ;; At_end.

(** [PLAYER_RE_STRICT]:
    [^ \t \t ( (?P<registration_number> \d* ) [ ] )? - [ ]
     (?P<surname> [^ ,]+ )? [ ] (?P<name> [^,]+ )? , [ ]
     (?P<date_of_birth> [\d.]+ )? [ ]+ , [ ] (?P<note> .+ )? \n $] *)
Definition PLAYER_RE_STRICT : pattern :=
  At_beginning ;; lit tab ;; lit tab ;;
  Opt (Paren (Named "registration_number" (Star (In [Category_digit])) ;;
              lit " ")) ;;
  lit "-" ;; lit " " ;;
  Opt (Named "surname" (Plus (Not_in [Item " "; Item ","]))) ;; lit " " ;;
  Opt (Named "name" (Plus (Not_in [Item ","]))) ;; lit "," ;; lit " " ;;
  Opt (Named "date_of_birth" (Plus (In [Category_digit; Item "."]))) ;;
  Plus (Literal " ") ;; lit "," ;; lit " " ;;
  Opt (Named "note" (Plus Any)) ;; lit newline ;; At_end.

(** [PLAYER_RE_LOOSE]:
    [^ \t \t ( (?P<registration_number> \d* ) [ ] )? - [ ]
     (?P<surname> [^ ,]+ )? [ ] (?P<name> [^,]+ )? ,? [ ]?
     (?P<date_of_birth> [\d.]+ )? [ ]+ ,? [ ]? (?P<note> .+ )? \n $] *)
Definition PLAYER_RE_LOOSE : pattern :=
  At_beginning ;; lit tab ;; lit tab ;;
  Opt (Paren (Named "registration_number" (Star (In [Category_digit])) ;;
              lit " ")) ;;
  lit "-" ;; lit " " ;;
  Opt (Named "surname" (Plus (Not_in [Item " "; Item ","]))) ;; lit " " ;;
  Opt (Named "name" (Plus (Not_in [Item ","]))) ;;
  Opt (lit ",") ;; Opt (lit " ") ;;
  Opt (Named "date_of_birth" (Plus (In [Category_digit; Item "."]))) ;;
  Plus (Literal " ") ;; Opt (lit ",") ;; Opt (lit " ") ;;
  Opt (Named "note" (Plus Any)) ;; lit newline ;; At_end.

Local Close Scope re_scope.

(** The reader's state. *)
Record t : Type :=
  Build { current_group : option Group.t; current_team : option Team.t }.

(** [__init__] *)
Definition init : t := {| current_group := None; current_team := None |}.

(** The one exception class of the reader; its message tells the three
    failures apart. *)
Record InvalidDtbFileError : Type := Raise { message : string }.

Definition TeamWithoutGroup (line : string) : InvalidDtbFileError :=
  Raise ("DtbReader: Team without Group:`" ++ line ++ "`").

Definition PlayerWithoutTeam (line : string) : InvalidDtbFileError :=
  Raise ("DtbReader: Player without team:`" ++ line ++ "`").

Definition UnknownLineType (line : string) : InvalidDtbFileError :=
  Raise ("DtbReader: Unknown line type:`" ++ line ++ "`").

Definition group_re (strict : bool) : pattern :=
  if strict then GROUP_RE_STRICT else GROUP_RE_LOOSE.
Definition team_re (strict : bool) : pattern :=
  if strict then TEAM_RE_STRICT else TEAM_RE_LOOSE.
Definition player_re (strict : bool) : pattern :=
  if strict then PLAYER_RE_STRICT else PLAYER_RE_LOOSE.

(** The entities [read] builds from a match. *)
Definition group_of (m : marks) : Group.t :=
  Group.Build (Re.group m "name") (Re.group m "note").

Definition team_of (m : marks) (g : Group.t) : Team.t :=
  Team.Build (Re.group m "name") (Re.group m "note") g.

Definition player_of (m : marks) (t : Team.t) : Player.t :=
  Player.Build (Re.group m "registration_number") (Re.group m "name")
               (Re.group m "surname") (Re.group m "date_of_birth")
               (Re.group m "note") t.

(** [read(self, line, strict)]: what is returned or raised, and the state
    of the reader afterwards. *)
Definition read (self : t) (line : string) (strict : bool)
  : (InvalidDtbFileError + entity) * t :=
  match fullmatch (group_re strict) line with
  | Some group_match =>
      let group := group_of group_match in
      (inr (AGroup group),
       {| current_group := Some group; current_team := None |})
  | None =>
      match fullmatch (team_re strict) line with
      | Some team_match =>
          match current_group self with
          | None => (inl (TeamWithoutGroup line), self)
          | Some g =>
              let team := team_of team_match g in
              (inr (ATeam team),
               {| current_group := current_group self;
                  current_team := Some team |})
          end
      | None =>
          match fullmatch (player_re strict) line with
          | Some player_match =>
              match current_team self with
              | None => (inl (PlayerWithoutTeam line), self)
              | Some t =>
                  (inr (APlayer (player_of player_match t)), self)
              end
          | None => (inl (UnknownLineType line), self)
          end
      end
  end.
End DtbReader.

(** ** The converter *)

Module ConverterCsv.
(** A field as [csv.writer] writes it: [None] is written as the empty
    string. *)
Definition csv_field (v : option string) : string :=
  match v with
  | Some s => s
  | None => ""
  end.

(** [writer.writerow(fields)]: one more record in the output. *)
Definition writerow (out : list (list string)) (fields : row)
  : list (list string) :=
  (out ++ [map csv_field fields])%list.

(** What a conversion leaves behind: the records written, the lines of
    the input not read, and the exception that ended it, if any. *)
Record outcome : Type :=
  Outcome { written : list (list string);
            unread : list string;
            raised : option DtbReader.InvalidDtbFileError }.

(** [for line in dtb_input: ...] *)
Fixpoint for_lines (reader : DtbReader.t) (out : list (list string))
    (dtb_input : list string) (strict : bool) : outcome :=
  match dtb_input with
  | [] => Outcome out [] None
  | line :: rest =>
      match DtbReader.read reader line strict with
      | (inl e, _) => Outcome out rest (Some e)
      | (inr entity, reader') =>
          for_lines reader' (writerow out (to_list entity)) rest strict
      end
  end.

Definition header : row :=
  map Some (Group.header ++ Team.header ++ Player.header)%list.

Definition convert (dtb_input : list string) (strict : bool) : outcome :=
  let reader := DtbReader.init in
  let out := writerow [] header in
  for_lines reader out dtb_input strict.
End ConverterCsv.


(** ** Version 0.1.0 ([dtb2csv.pyw])

    The first version has the same three entities with the same [to_list]
    and the same state of the reader, one set of patterns, no mode and no
    header record. *)

Module Dtb2Csv01.
Import Re.
Local Open Scope re_scope.

(** [GROUP_RE], in the layout of [re.VERBOSE]:
    [^ ( (?P<name> [^\t]* ) [ ] )? - [ ] (?P<note> .+ )? \n $] *)
Definition GROUP_RE : pattern :=
  At_beginning ;;
  Opt (Paren (Named "name" (Star (Not_in [Item tab])) ;; lit " ")) ;;
  lit "-" ;; lit " " ;;
  Opt (Named "note" (Plus Any)) ;; lit newline ;; At_end.

(** [TEAM_RE]:
    [^ \t ( (?P<name> [^\t]* ) [ ] )? - [ ] (?P<note> .+ )? \n $] *)
Definition TEAM_RE : pattern :=
  At_beginning ;; lit tab ;;
  Opt (Paren (Named "name" (Star (Not_in [Item tab])) ;; lit " ")) ;;
  lit "-" ;; lit " " ;;
  Opt (Named "note" (Plus Any)) ;; lit newline ;; At_end.

(** [PLAYER_RE]:
    [^ \t \t ( (?P<registration_number> [^\t]* ) [ ] )? - [ ]
     (?P<surname> .+ )? [ ] (?P<name> .+ )? , [ ]
     (?P<date_of_birth> .+ )? [ ] , [ ] (?P<note> .+ )? \n $] *)
Definition PLAYER_RE : pattern :=
  At_beginning ;; lit tab ;; lit tab ;;
  Opt (Paren (Named "registration_number" (Star (Not_in [Item tab])) ;;
              lit " ")) ;;
  lit "-" ;; lit " " ;;
  Opt (Named "surname" (Plus Any)) ;; lit " " ;;
  Opt (Named "name" (Plus Any)) ;; lit "," ;; lit " " ;;
  Opt (Named "date_of_birth" (Plus Any)) ;;
  lit " " ;; lit "," ;; lit " " ;;
  Opt (Named "note" (Plus Any)) ;; lit newline ;; At_end.

Local Close Scope re_scope.

(** [DtbReader.read(self, line)] *)
Definition read (self : DtbReader.t) (line : string)
  : (DtbReader.InvalidDtbFileError + entity) * DtbReader.t :=
  match fullmatch GROUP_RE line with
  | Some group_match =>
      let group := DtbReader.group_of group_match in
      (inr (AGroup group),
       {| DtbReader.current_group := Some group;
          DtbReader.current_team := None |})
  | None =>
      match fullmatch TEAM_RE line with
      | Some team_match =>
          match DtbReader.current_group self with
          | None => (inl (DtbReader.TeamWithoutGroup line), self)
          | Some g =>
              let team := DtbReader.team_of team_match g in
              (inr (ATeam team),
               {| DtbReader.current_group := DtbReader.current_group self;
                  DtbReader.current_team := Some team |})
          end
      | None =>
          match fullmatch PLAYER_RE line with
          | Some player_match =>
              match DtbReader.current_team self with
              | None => (inl (DtbReader.PlayerWithoutTeam line), self)
              | Some t =>
                  (inr (APlayer (DtbReader.player_of player_match t)), self)
              end
          | None => (inl (DtbReader.UnknownLineType line), self)
          end
      end
  end.

(** [for line in dtb_input: ...] *)
Fixpoint for_lines (reader : DtbReader.t) (out : list (list string))
    (dtb_input : list string) : ConverterCsv.outcome :=
  match dtb_input with
  | [] => ConverterCsv.Outcome out [] None
  | line :: rest =>
      match read reader line with
      | (inl e, _) => ConverterCsv.Outcome out rest (Some e)
      | (inr entity, reader') =>
          for_lines reader' (ConverterCsv.writerow out (to_list entity)) rest
      end
  end.

(** [convert(dtb_input, csv_output)] *)
Definition convert (dtb_input : list string) : ConverterCsv.outcome :=
  for_lines DtbReader.init [] dtb_input.

End Dtb2Csv01.

(** ** Vocabulary of the statements *)

Definition is_some {A : Type} (o : option A) : bool :=
  match o with
  | Some _ => true
  | None => false
  end.

(** A line has the shape of a Group, a Team or a Player in a mode when the
    pattern of that mode matches it. *)
Definition group_shaped (strict : bool) (line : string) : bool :=
  is_some (Re.fullmatch (DtbReader.group_re strict) line).
Definition team_shaped (strict : bool) (line : string) : bool :=
  is_some (Re.fullmatch (DtbReader.team_re strict) line).
Definition player_shaped (strict : bool) (line : string) : bool :=
  is_some (Re.fullmatch (DtbReader.player_re strict) line).

(** The kind of an entity, and the number of fields of its row. *)
Inductive kind : Type := KGroup | KTeam | KPlayer.

Definition kind_of (e : entity) : kind :=
  match e with
  | AGroup _ => KGroup
  | ATeam _ => KTeam
  | APlayer _ => KPlayer
  end.

Definition width (e : entity) : nat :=
  match e with
  | AGroup _ => 2
  | ATeam _ => 4
  | APlayer _ => 9
  end.

(** The record [convert] writes for an entity. *)
Definition record_of (e : entity) : list string :=
  map ConverterCsv.csv_field (to_list e).

(** The header record. *)
Definition header_record : list string :=
  map ConverterCsv.csv_field ConverterCsv.header.

(** The data records of an output: all but the first, the header. *)
Definition data_records (o : ConverterCsv.outcome) : list (list string) :=
  tl (ConverterCsv.written o).

(** [accepts strict st lines es st']: read one after the other from state
    [st], the [lines] are all accepted; [es] are the entities returned and
    [st'] the state at the end. *)
Inductive accepts (strict : bool)
  : DtbReader.t -> list string -> list entity -> DtbReader.t -> Prop :=
| accepts_nil st : accepts strict st [] [] st
| accepts_cons st line e st' lines es st'' :
    DtbReader.read st line strict = (inr e, st') ->
    accepts strict st' lines es st'' ->
    accepts strict st (line :: lines) (e :: es) st''.

(** The state of a reader after a sequence of calls of [read], each with
    its own line and mode, whether they return or raise. *)
Definition after_reads (calls : list (string * bool)) (st : DtbReader.t)
  : DtbReader.t :=
  fold_left (fun st call => snd (DtbReader.read st (fst call) (snd call)))
            calls st.

Definition reader_invariant (st : DtbReader.t) : Prop :=
  DtbReader.current_team st <> None -> DtbReader.current_group st <> None.

(** Every character of [s] satisfies [f]. *)
Fixpoint only (f : ascii -> bool) (s : string) : bool :=
  match s with
  | String a t => f a && only f t
  | EmptyString => true
  end.

Definition is_digit_or_dot (a : ascii) : bool :=
  Re.is_digit a || Ascii.eqb a "."%char.

Definition is_space (a : ascii) : bool := Ascii.eqb a " "%char.

(** The text a field stands for in the line: nothing when it is unset. *)
Definition txt (o : option string) : string :=
  match o with
  | Some v => v
  | None => ""
  end.

(** A field with the separator that follows it when it is set. *)
Definition with_sep (o : option string) (sep : string) : string :=
  match o with
  | Some v => v ++ sep
  | None => ""
  end.

(** The marks after an optional group. *)
Definition push (n : string) (o : option string) (mk : Re.marks) : Re.marks :=
  match o with
  | Some v => (n, v) :: mk
  | None => mk
  end.

(** The separators before [date_of_birth] and before [note] in a Player
    line: [", "] in strict mode, with the comma and the space each optional
    in loose mode. *)
Definition separator (strict : bool) (sep : string) : Prop :=
  if strict then sep = ", "
  else sep = "" \/ sep = "," \/ sep = " " \/ sep = ", ".

(** ** The example of the README *)

Definition nl : string := String newline "".
Definition tb : string := String tab "".

Definition example_input : list string :=
  ["group_name - group_note" ++ nl;
   tb ++ "team_name - team_note" ++ nl;
   tb ++ tb
      ++ "00001234 - player_surname player_name, 01.01.1900 , player_note"
      ++ nl].

Definition example_group : Group.t :=
  Group.Build (Some "group_name") (Some "group_note").

Definition example_team : Team.t :=
  Team.Build (Some "team_name") (Some "team_note") example_group.

Definition example_player : Player.t :=
  Player.Build (Some "00001234") (Some "player_name") (Some "player_surname")
               (Some "01.01.1900") (Some "player_note") example_team.

(** ** Vocabulary of the further properties *)

(** [starts_with pat s]: [s] begins with [pat]; [contains pat s]: [pat]
    occurs in [s]. *)
Fixpoint starts_with (pat s : string) : bool :=
  match pat, s with
  | EmptyString, _ => true
  | String a pat', String b s' => Ascii.eqb a b && starts_with pat' s'
  | String _ _, EmptyString => false
  end.

Fixpoint contains (pat s : string) : bool :=
  starts_with pat s ||
  match s with
  | String _ t => contains pat t
  | EmptyString => false
  end.

(** The last character of a string. *)
Fixpoint last_char (s : string) : option ascii :=
  match s with
  | EmptyString => None
  | String a EmptyString => Some a
  | String _ t => last_char t
  end.

Definition not_tab (a : ascii) : bool := negb (Ascii.eqb a tab).
Definition not_newline (a : ascii) : bool := negb (Ascii.eqb a newline).
Definition not_comma (a : ascii) : bool := negb (Ascii.eqb a ","%char).
Definition not_space_or_comma (a : ascii) : bool :=
  negb (Ascii.eqb a " "%char || Ascii.eqb a ","%char).

(** What has to follow a name for the Group and Team patterns to go on:
    " - " in strict mode, " -" in loose mode. *)
Definition dash (strict : bool) : string := if strict then " - " else " -".

(** The lines a writer of DTB files produces from the fields. *)
Definition group_line (name note : option string) : string :=
  with_sep name " " ++ "- " ++ txt note ++ nl.

Definition team_line (name note : option string) : string :=
  tb ++ group_line name note.

Definition player_line (reg sur nm dob note : option string) (sp : string)
  : string :=
  tb ++ tb ++ with_sep reg " " ++ "- " ++ txt sur ++ " " ++ txt nm ++ ", "
     ++ txt dob ++ sp ++ ", " ++ txt note ++ nl.

(** The hierarchy of a sequence of entities read with [current_group = g]
    and [current_team = t] at its start: a Team has the last Group before it
    as its group, a Player the last Team before it, with no Group in
    between, as its team. *)
Fixpoint linked (g : option Group.t) (t : option Team.t) (es : list entity)
  : Prop :=
  match es with
  | [] => True
  | AGroup g' :: rest => linked (Some g') None rest
  | ATeam t' :: rest => g = Some (Team.group t') /\ linked g (Some t') rest
  | APlayer p :: rest => t = Some (Player.team p) /\ linked g t rest
  end.

(** The state of the reader: when a team is current, its group is the
    current group. *)
Definition team_of_current_group (st : DtbReader.t) : Prop :=
  forall t, DtbReader.current_team st = Some t ->
            DtbReader.current_group st = Some (Team.group t).

(** The state of the reader as the entities it returned determine it. *)
Definition track (st : DtbReader.t) (es : list entity) : DtbReader.t :=
  fold_left
    (fun st e =>
       match e with
       | AGroup g =>
           {| DtbReader.current_group := Some g;
              DtbReader.current_team := None |}
       | ATeam t =>
           {| DtbReader.current_group := DtbReader.current_group st;
              DtbReader.current_team := Some t |}
       | APlayer _ => st
       end)
    es st.

(** The hierarchy as the records of the output show it: a record of four
    cells begins with the last record of two cells before it, a record of
    nine cells with the last record of four cells before it, no record of
    two cells in between. *)
Fixpoint nested (g t : option (list string)) (records : list (list string))
  : Prop :=
  match records with
  | [] => True
  | r :: rest =>
      match List.length r with
      | 2 => nested (Some r) None rest
      | 4 => g = Some (firstn 2 r) /\ nested g (Some r) rest
      | 9 => t = Some (firstn 4 r) /\ nested g t rest
      | _ => False
      end
  end.

(** Two states that have a current group, and a current team, at the same
    time. *)
Definition same_level (st1 st2 : DtbReader.t) : Prop :=
  is_some (DtbReader.current_group st1)
  = is_some (DtbReader.current_group st2) /\
  is_some (DtbReader.current_team st1)
  = is_some (DtbReader.current_team st2).

(** A line as a file gives it: one newline, at its end. *)
Definition one_line (line : string) : Prop :=
  exists body, line = body ++ nl /\ only not_newline body = true.

(** A line that begins with two tabs. *)
Definition two_tabs (line : string) : bool := starts_with (tb ++ tb) line.

(** A text as a field: unset when it is empty. *)
Definition field_of (v : string) : option string :=
  match v with
  | EmptyString => None
  | _ => Some v
  end.

(** ** Lines of any characters

    A [str] of Python is a sequence of code points, and on a [str] the
    category [\d] of [re] is the decimal digits of the Unicode database of
    the interpreter (the characters of category Nd): below code point 128
    these are the digits 0-9, beyond it the digits of other scripts, more of
    them with each version of the database.  [Unicode] is the reader on such
    lines: a character is a code point, the table of decimal digits is a
    parameter of the matcher, and the patterns are the six patterns of
    [DtbReader] above, whose literals are all below 128. *)

Module Unicode.
Local Open Scope list_scope.

Definition char : Type := N.
Definition str : Type := list char.

(** The table of decimal digits of a Unicode database. *)
Definition database : Type := char -> bool.

(** The code point of a character below 256, and a text of such characters
    as a [str]. *)
Definition code (a : ascii) : char := N_of_ascii a.
Arguments code a%_char.

Definition of_string (s : string) : str := map code (list_ascii_of_string s).

Definition item_match (decimal : database) (it : Re.set_item) (a : char)
  : bool :=
  match it with
  | Re.Item c => N.eqb a (code c)
  | Re.Category_digit => decimal a
  end.

Definition char_match (decimal : database) (p : Re.char_pattern) (a : char)
  : bool :=
  match p with
  | Re.Literal c => N.eqb a (code c)
  | Re.Any => negb (N.eqb a (code newline))
  | Re.In items => existsb (fun it => item_match decimal it a) items
  | Re.Not_in items => negb (existsb (fun it => item_match decimal it a) items)
  end.

Definition marks : Type := list (string * str).

(** [m.group(name)] *)
Fixpoint group (mk : marks) (name : string) : option str :=
  match mk with
  | [] => None
  | (n, v) :: rest => if String.eqb n name then Some v else group rest name
  end.

(** The end of the string, or the place before a newline that ends it. *)
Definition at_end (w : str) : bool :=
  match w with
  | [] => true
  | [a] => N.eqb a (code newline)
  | _ => false
  end.

Fixpoint repeat_one (decimal : database) (p : Re.char_pattern) (i : nat)
    (w : str) (k : nat -> str -> option marks) {struct w} : option marks :=
  match w with
  | a :: t =>
      if char_match decimal p a
      then match repeat_one decimal p (S i) t k with
           | Some res => Some res
           | None => k i w
           end
      else k i w
  | [] => k i w
  end.

Fixpoint run (decimal : database) (r : Re.pattern) (i : nat) (w : str)
    (mk : marks) (k : nat -> str -> marks -> option marks) {struct r}
  : option marks :=
  match r with
  | Re.At_beginning => if Nat.eqb i 0 then k i w mk else None
  | Re.At_end => if at_end w then k i w mk else None
  | Re.One p =>
      match w with
      | a :: t => if char_match decimal p a then k (S i) t mk else None
      | [] => None
      end
  | Re.Star p => repeat_one decimal p i w (fun i' w' => k i' w' mk)
  | Re.Plus p =>
      match w with
      | a :: t =>
          if char_match decimal p a
          then repeat_one decimal p (S i) t (fun i' w' => k i' w' mk)
          else None
      | [] => None
      end
  | Re.Opt r' =>
      match run decimal r' i w mk k with
      | Some res => Some res
      | None => k i w mk
      end
  | Re.Seq r1 r2 =>
      run decimal r1 i w mk (fun i' w' mk' => run decimal r2 i' w' mk' k)
  | Re.Named n r' =>
      run decimal r' i w mk
          (fun i' w' mk' => k i' w' ((n, firstn (i' - i) w) :: mk'))
  | Re.Paren r' => run decimal r' i w mk k
  end.

(** [pattern.fullmatch(line)] *)
Definition fullmatch (decimal : database) (r : Re.pattern) (line : str)
  : option marks :=
  run decimal r 0 line []
      (fun _ w mk => match w with [] => Some mk | _ :: _ => None end).

(** The paths of a pattern, as [Re.matches]. *)
Fixpoint matches (decimal : database) (r : Re.pattern) (i : nat) (u w : str)
    (mk mk' : marks) : Prop :=
  match r with
  | Re.At_beginning => u = [] /\ i = 0 /\ mk' = mk
  | Re.At_end => u = [] /\ at_end w = true /\ mk' = mk
  | Re.One p =>
      exists a, u = [a] /\ char_match decimal p a = true /\ mk' = mk
  | Re.Star p => forallb (char_match decimal p) u = true /\ mk' = mk
  | Re.Plus p =>
      u <> [] /\ forallb (char_match decimal p) u = true /\ mk' = mk
  | Re.Opt r' => (u = [] /\ mk' = mk) \/ matches decimal r' i u w mk mk'
  | Re.Seq r1 r2 =>
      exists u1 u2 mk1,
        u = u1 ++ u2 /\
        matches decimal r1 i u1 (u2 ++ w) mk mk1 /\
        matches decimal r2 (i + List.length u1) u2 w mk1 mk'
  | Re.Named n r' =>
      exists mk1, matches decimal r' i u w mk mk1 /\ mk' = (n, u) :: mk1
  | Re.Paren r' => matches decimal r' i u w mk mk'
  end.

(** The entities, with fields that are [str] or [None]. *)
Module Group.
Record t : Type := Build { name : option str; note : option str }.
End Group.

Module Team.
Record t : Type :=
  Build { name : option str; note : option str; group : Group.t }.
End Team.

Module Player.
Record t : Type :=
  Build { registration_number : option str;
          name : option str;
          surname : option str;
          date_of_birth : option str;
          note : option str;
          team : Team.t }.
End Player.

Inductive entity : Type :=
| AGroup (g : Group.t)
| ATeam (t : Team.t)
| APlayer (p : Player.t).

(** The reader. *)
Record t : Type :=
  Build { current_group : option Group.t; current_team : option Team.t }.

Definition init : t := {| current_group := None; current_team := None |}.

Record InvalidDtbFileError : Type := Raise { message : str }.

Definition TeamWithoutGroup (line : str) : InvalidDtbFileError :=
  Raise (of_string "DtbReader: Team without Group:`" ++ line ++ of_string "`").

Definition PlayerWithoutTeam (line : str) : InvalidDtbFileError :=
  Raise (of_string "DtbReader: Player without team:`" ++ line ++ of_string "`").

Definition UnknownLineType (line : str) : InvalidDtbFileError :=
  Raise (of_string "DtbReader: Unknown line type:`" ++ line ++ of_string "`").

Definition group_of (m : marks) : Group.t :=
  Group.Build (group m "name") (group m "note").

Definition team_of (m : marks) (g : Group.t) : Team.t :=
  Team.Build (group m "name") (group m "note") g.

Definition player_of (m : marks) (t : Team.t) : Player.t :=
  Player.Build (group m "registration_number") (group m "name")
               (group m "surname") (group m "date_of_birth")
               (group m "note") t.

(** [read(self, line, strict)] *)
Definition read (decimal : database) (self : t) (line : str) (strict : bool)
  : (InvalidDtbFileError + entity) * t :=
  match fullmatch decimal (DtbReader.group_re strict) line with
  | Some group_match =>
      let group := group_of group_match in
      (inr (AGroup group),
       {| current_group := Some group; current_team := None |})
  | None =>
      match fullmatch decimal (DtbReader.team_re strict) line with
      | Some team_match =>
          match current_group self with
          | None => (inl (TeamWithoutGroup line), self)
          | Some g =>
              let team := team_of team_match g in
              (inr (ATeam team),
               {| current_group := current_group self;
                  current_team := Some team |})
          end
      | None =>
          match fullmatch decimal (DtbReader.player_re strict) line with
          | Some player_match =>
              match current_team self with
              | None => (inl (PlayerWithoutTeam line), self)
              | Some t =>
                  (inr (APlayer (player_of player_match t)), self)
              end
          | None => (inl (UnknownLineType line), self)
          end
      end
  end.

(** *** Vocabulary *)

(** The digits 0-9, and the characters below 128. *)
Definition is_ascii_digit (a : char) : bool :=
  ((48 <=? a) && (a <=? 57))%N.

Definition is_ascii (a : char) : bool := (a <? 128)%N.

(** What [[\d.]] accepts. *)
Definition is_decimal_or_dot (decimal : database) (a : char) : bool :=
  decimal a || N.eqb a (code ".").

Definition is_space (a : char) : bool := N.eqb a (code " ").

(** A database as every version has it below 128: there, the decimal
    digits are 0-9. *)
Definition ascii_digits_only (decimal : database) : Prop :=
  forall a, is_ascii a = true -> decimal a = is_ascii_digit a.

(** The database that holds the digits 0-9 and the Arabic-Indic digits
    U+0660 to U+0669, and nothing else. *)
Definition two_blocks : database :=
  fun a => is_ascii_digit a || ((0x660 <=? a) && (a <=? 0x669))%N.

Definition txt (o : option str) : str :=
  match o with
  | Some v => v
  | None => []
  end.

Definition with_sep (o : option str) (sep : str) : str :=
  match o with
  | Some v => v ++ sep
  | None => []
  end.

Definition push (n : string) (o : option str) (mk : marks) : marks :=
  match o with
  | Some v => (n, v) :: mk
  | None => mk
  end.

(** The separators before [date_of_birth] and before [note], as
    [separator] above. *)
Definition separator (strict : bool) (sep : str) : Prop :=
  if strict then sep = of_string ", "
  else sep = [] \/ sep = of_string "," \/ sep = of_string " " \/
       sep = of_string ", ".

(** [suffix w' w]: [w'] is what is left of [w] after some of it was
    read. *)
Definition suffix (w' w : str) : Prop := exists u, w = u ++ w'.

(** The README's team, in a reader that has read it. *)
Definition example_team : Team.t :=
  Team.Build (Some (of_string "team_name")) (Some (of_string "team_note"))
             (Group.Build (Some (of_string "group_name"))
                          (Some (of_string "group_note"))).

Definition example_state : t :=
  {| current_group := Some (Team.group example_team);
     current_team := Some example_team |}.

(** The Player line "\t\t١٢ - s n, 2. , x\n", whose registration number is
    written in Arabic-Indic digits. *)
Definition arabic_indic_line : str :=
  of_string (tb ++ tb)%string ++ [0x661; 0x662]%N
  ++ of_string (" - s n, 2. , x" ++ nl)%string.

End Unicode.

(** The values of the reader of 8-bit lines as values of the reader of
    lines of any characters. *)
Definition of_field (o : option string) : option Unicode.str :=
  option_map Unicode.of_string o.

Definition of_marks (mk : Re.marks) : Unicode.marks :=
  map (fun nv => (fst nv, Unicode.of_string (snd nv))) mk.

Definition of_group (g : Group.t) : Unicode.Group.t :=
  Unicode.Group.Build (of_field (Group.name g)) (of_field (Group.note g)).

Definition of_team (t : Team.t) : Unicode.Team.t :=
  Unicode.Team.Build (of_field (Team.name t)) (of_field (Team.note t))
                     (of_group (Team.group t)).

Definition of_player (p : Player.t) : Unicode.Player.t :=
  Unicode.Player.Build
    (of_field (Player.registration_number p)) (of_field (Player.name p))
    (of_field (Player.surname p)) (of_field (Player.date_of_birth p))
    (of_field (Player.note p)) (of_team (Player.team p)).

Definition of_entity (e : entity) : Unicode.entity :=
  match e with
  | AGroup g => Unicode.AGroup (of_group g)
  | ATeam t => Unicode.ATeam (of_team t)
  | APlayer p => Unicode.APlayer (of_player p)
  end.

Definition of_state (st : DtbReader.t) : Unicode.t :=
  {| Unicode.current_group := option_map of_group (DtbReader.current_group st);
     Unicode.current_team := option_map of_team (DtbReader.current_team st) |}.

Definition of_result (r : (DtbReader.InvalidDtbFileError + entity) * DtbReader.t)
  : (Unicode.InvalidDtbFileError + Unicode.entity) * Unicode.t :=
  (match fst r with
   | inl e => inl (Unicode.Raise (Unicode.of_string (DtbReader.message e)))
   | inr e => inr (of_entity e)
   end,
   of_state (snd r)).

(** A table of decimal digits as every version has it below 256: there,
    the decimal digits are 0-9. *)
Definition latin1_digits (decimal : Unicode.database) : Prop :=
  forall a : ascii, decimal (Unicode.code a) = Re.is_digit a.

(** * Facts *)

(** ** Strings *)

Lemma append_empty_r (u : string) : u ++ "" = u.
Proof. induction u as [|a u IH]; simpl; [reflexivity | now rewrite IH]. Qed.

Lemma append_assoc (u v w : string) : (u ++ v) ++ w = u ++ v ++ w.
Proof. induction u as [|a u IH]; simpl; [reflexivity | now rewrite IH]. Qed.

Lemma length_append (u v : string) :
  String.length (u ++ v) = String.length u + String.length v.
Proof. induction u as [|a u IH]; simpl; [reflexivity | now rewrite IH]. Qed.

Lemma take_append (u w : string) : take (String.length u) (u ++ w) = u.
Proof.
  unfold take. induction u as [|a u IH]; simpl.
  - destruct w; reflexivity.
  - now rewrite IH.
Qed.

(** ** The matcher finds a path, and finds one whenever there is one *)

Module ReFacts.
Import Re.

Lemma repeat_one_sound (p : char_pattern) (w : string) :
  forall i k res,
    repeat_one p i w k = Some res ->
    exists u w',
      w = u ++ w' /\ all_match p u = true /\
      k (i + String.length u) w' = Some res.
Proof.
  induction w as [|a t IH]; intros i k res H; simpl in H.
  - exists "", "". simpl. now rewrite Nat.add_0_r.
  - destruct (char_match p a) eqn:Ha.
    + destruct (repeat_one p (S i) t k) as [res'|] eqn:Hrec.
      * injection H as ->.
        destruct (IH _ _ _ Hrec) as (u & w' & -> & Hall & Hk).
        exists (String a u), w'. simpl. rewrite Ha, Hall.
        now rewrite Nat.add_succ_r.
      * exists "", (String a t). simpl. now rewrite Nat.add_0_r.
    + exists "", (String a t). simpl. now rewrite Nat.add_0_r.
Qed.

Lemma repeat_one_skip (p : char_pattern) (w : string) i k :
  k i w <> None -> repeat_one p i w k <> None.
Proof.
  destruct w as [|a t]; simpl; [easy|].
  destruct (char_match p a); [|easy].
  destruct (repeat_one p (S i) t k); easy.
Qed.

Lemma repeat_one_complete (p : char_pattern) (u : string) :
  forall i w k,
    all_match p u = true ->
    k (i + String.length u) w <> None ->
    repeat_one p i (u ++ w) k <> None.
Proof.
  induction u as [|a u IH]; intros i w k Hall Hk; simpl in *.
  - rewrite Nat.add_0_r in Hk. now apply repeat_one_skip.
  - apply andb_true_iff in Hall as [Ha Hall]. rewrite Ha.
    rewrite Nat.add_succ_r in Hk.
    specialize (IH (S i) w k Hall Hk).
    destruct (repeat_one p (S i) (u ++ w) k); easy.
Qed.

Lemma run_sound (r : pattern) :
  forall i w mk k res,
    run r i w mk k = Some res ->
    exists u w' mk',
      w = u ++ w' /\ matches r i u w' mk mk' /\
      k (i + String.length u) w' mk' = Some res.
Proof.
  induction r as [| |p|p|p|r IH|r1 IH1 r2 IH2|n r IH|r IH];
    intros i w mk k res H; simpl in H.
  - destruct (Nat.eqb_spec i 0) as [->|]; [|discriminate].
    exists "", w, mk. simpl. auto.
  - destruct (String.eqb_spec w "") as [->|];
      [|destruct (String.eqb_spec w (String newline "")) as [->|];
        [|discriminate]];
      simpl in H; eexists "", _, mk; simpl; rewrite Nat.add_0_r;
      (split; [reflexivity | auto]).
  - destruct w as [|a t]; [discriminate|].
    destruct (char_match p a) eqn:Ha; [|discriminate].
    exists (String a ""), t, mk. simpl. rewrite Nat.add_1_r. eauto 6.
  - apply repeat_one_sound in H as (u & w' & -> & Hall & Hk).
    exists u, w', mk. simpl. auto.
  - destruct w as [|a t]; [discriminate|].
    destruct (char_match p a) eqn:Ha; [|discriminate].
    apply repeat_one_sound in H as (u & w' & -> & Hall & Hk).
    exists (String a u), w', mk. simpl. rewrite Ha, Hall.
    rewrite Nat.add_succ_r. repeat split; [discriminate | exact Hk].
  - destruct (run r i w mk k) as [res'|] eqn:Hr.
    + injection H as ->.
      destruct (IH _ _ _ _ _ Hr) as (u & w' & mk' & -> & Hm & Hk).
      exists u, w', mk'. simpl. auto.
    + exists "", w, mk. simpl. rewrite Nat.add_0_r. auto.
  - destruct (IH1 _ _ _ _ _ H) as (u1 & w1 & mk1 & -> & Hm1 & H2).
    destruct (IH2 _ _ _ _ _ H2) as (u2 & w2 & mk2 & -> & Hm2 & Hk).
    exists (u1 ++ u2), w2, mk2. rewrite append_assoc, length_append.
    rewrite Nat.add_assoc. simpl. eauto 10.
  - destruct (IH _ _ _ _ _ H) as (u & w' & mk' & -> & Hm & Hk).
    replace (i + String.length u - i) with (String.length u) in Hk by lia.
    rewrite take_append in Hk.
    exists u, w', ((n, u) :: mk'). simpl. eauto.
  - destruct (IH _ _ _ _ _ H) as (u & w' & mk' & -> & Hm & Hk).
    exists u, w', mk'. simpl. auto.
Qed.

Lemma run_complete (r : pattern) :
  forall i u w mk mk' k,
    matches r i u w mk mk' ->
    k (i + String.length u) w mk' <> None ->
    run r i (u ++ w) mk k <> None.
Proof.
  induction r as [| |p|p|p|r IH|r1 IH1 r2 IH2|n r IH|r IH];
    intros i u w mk mk' k Hm Hk; simpl in Hm |- *.
  - destruct Hm as (-> & -> & ->). exact Hk.
  - destruct Hm as (-> & Hw & ->). simpl in *. rewrite Nat.add_0_r in Hk.
    destruct Hw as [-> | ->]; exact Hk.
  - destruct Hm as (a & -> & Ha & ->). simpl in *. rewrite Ha.
    now rewrite Nat.add_1_r in Hk.
  - destruct Hm as (Hall & ->).
    now apply repeat_one_complete with (k := fun i' w' => k i' w' mk).
  - destruct Hm as (Hne & Hall & ->).
    destruct u as [|a u]; [easy|]. simpl in *.
    apply andb_true_iff in Hall as [Ha Hall]. rewrite Ha.
    rewrite Nat.add_succ_r in Hk.
    now apply repeat_one_complete with (k := fun i' w' => k i' w' mk).
  - destruct (run r i (u ++ w) mk k) eqn:Hr; [easy|].
    destruct Hm as [(-> & ->) | Hm].
    + simpl in *. now rewrite Nat.add_0_r in Hk.
    + exfalso. now apply (IH _ _ _ _ _ _ Hm Hk).
  - destruct Hm as (u1 & u2 & mk1 & -> & Hm1 & Hm2).
    rewrite append_assoc. apply (IH1 _ _ _ _ _ _ Hm1).
    apply (IH2 _ _ _ _ _ _ Hm2).
    now rewrite length_append, Nat.add_assoc in Hk.
  - destruct Hm as (mk1 & Hm & ->).
    apply (IH _ _ _ _ _ _ Hm).
    replace (i + String.length u - i) with (String.length u) by lia.
    now rewrite take_append.
  - now apply (IH _ _ _ _ _ _ Hm).
Qed.

Lemma fullmatch_sound (r : pattern) (line : string) (m : marks) :
  fullmatch r line = Some m -> matches r 0 line "" [] m.
Proof.
  unfold fullmatch. intros H.
  apply run_sound in H as (u & w & mk' & -> & Hm & Hk).
  destruct (String.eqb_spec w "") as [->|]; [|discriminate].
  injection Hk as ->. now rewrite append_empty_r.
Qed.

Lemma fullmatch_complete (r : pattern) (line : string) (m : marks) :
  matches r 0 line "" [] m -> fullmatch r line <> None.
Proof.
  unfold fullmatch. intros Hm.
  rewrite <- (append_empty_r line).
  eapply run_complete; [exact Hm | simpl; discriminate].
Qed.

Lemma looser_matches (r r' : pattern) :
  looser r r' ->
  forall i u w mk mk', matches r i u w mk mk' -> matches r' i u w mk mk'.
Proof.
  induction 1 as [r | r | r1 r1' r2 r2' _ IH1 _ IH2]; intros i u w mk mk' Hm.
  - exact Hm.
  - now right.
  - destruct Hm as (u1 & u2 & mk1 & -> & Hm1 & Hm2).
    exists u1, u2, mk1. auto.
Qed.

End ReFacts.

(** ** What each piece of the patterns can match *)

Module PieceFacts.
Import Re.
Local Open Scope re_scope.

Lemma all_match_only (p : char_pattern) (u : string) :
  all_match p u = only (char_match p) u.
Proof. induction u as [|a u IH]; simpl; [reflexivity | now rewrite IH]. Qed.

Lemma only_ext (f g : ascii -> bool) (s : string) :
  (forall a, f a = g a) -> only f s = only g s.
Proof.
  intros E. induction s as [|a s IH]; simpl; [reflexivity|].
  now rewrite E, IH.
Qed.

Lemma seq_inv r1 r2 i u w mk mk' :
  matches (r1 ;; r2) i u w mk mk' ->
  exists u1 u2 mk1,
    u = u1 ++ u2 /\ matches r1 i u1 (u2 ++ w) mk mk1 /\
    matches r2 (i + String.length u1) u2 w mk1 mk'.
Proof. exact (fun H => H). Qed.

Lemma bol_inv i u w mk mk' :
  matches At_beginning i u w mk mk' -> u = "" /\ mk' = mk.
Proof. simpl. tauto. Qed.

Lemma eol_inv i u w mk mk' :
  matches At_end i u w mk mk' -> u = "" /\ mk' = mk.
Proof. simpl. tauto. Qed.

Lemma lit_inv c i u w mk mk' :
  matches (lit c) i u w mk mk' -> u = String c "" /\ mk' = mk.
Proof.
  simpl. intros (a & -> & Ha & ->).
  apply Ascii.eqb_eq in Ha as ->. auto.
Qed.

Lemma opt_lit_inv c i u w mk mk' :
  matches (Opt (lit c)) i u w mk mk' ->
  (u = "" \/ u = String c "") /\ mk' = mk.
Proof.
  intros [(-> & ->) | H]; [auto|].
  apply lit_inv in H as (-> & ->). auto.
Qed.

Lemma plus_inv p i u w mk mk' :
  matches (Plus p) i u w mk mk' ->
  u <> "" /\ only (char_match p) u = true /\ mk' = mk.
Proof. simpl. rewrite all_match_only. tauto. Qed.

Lemma opt_named_plus_inv n p i u w mk mk' :
  matches (Opt (Named n (Plus p))) i u w mk mk' ->
  exists o,
    u = txt o /\ mk' = push n o mk /\
    (forall v, o = Some v -> v <> "" /\ only (char_match p) v = true).
Proof.
  intros [(-> & ->) | (mk1 & H & ->)].
  - exists None. split; [reflexivity|]. split; [reflexivity|]. discriminate.
  - apply plus_inv in H as (Hne & Hall & ->).
    exists (Some u). split; [reflexivity|]. split; [reflexivity|].
    intros v [= <-]. auto.
Qed.

Lemma opt_prefix_inv n p c i u w mk mk' :
  matches (Opt (Paren (Named n (Star p) ;; lit c))) i u w mk mk' ->
  exists o,
    u = with_sep o (String c "") /\ mk' = push n o mk /\
    (forall v, o = Some v -> only (char_match p) v = true).
Proof.
  intros [(-> & ->) | H].
  - exists None. split; [reflexivity|]. split; [reflexivity|]. discriminate.
  - apply seq_inv in H as (u1 & u2 & mk1 & -> & (mk0 & (Hall & ->) & ->) & H2).
    apply lit_inv in H2 as (-> & ->). rewrite all_match_only in Hall.
    exists (Some u1). split; [reflexivity|]. split; [reflexivity|].
    now intros v [= <-].
Qed.

Lemma group_push_same n o mk :
  group (push n o mk) n =
  match o with Some v => Some v | None => group mk n end.
Proof. destruct o; simpl; [now rewrite String.eqb_refl | reflexivity]. Qed.

Lemma group_push_other n n' o mk :
  String.eqb n n' = false -> group (push n o mk) n' = group mk n'.
Proof. intros E. destruct o; simpl; [now rewrite E | reflexivity]. Qed.

(** Take the next piece off a sequence and say what it matched: a piece
    that is always there, an optional field [o], an optional separator [c],
    a run [sp]. *)
Ltac split_seq H P :=
  let u1 := fresh "u" in
  apply seq_inv in H as (u1 & ? & ? & -> & P & H).

Ltac piece H :=
  let P := fresh "P" in
  split_seq H P;
  lazymatch type of P with
  | matches At_beginning _ _ _ _ _ => apply bol_inv in P as (-> & ->)
  | matches (lit _) _ _ _ _ _ => apply lit_inv in P as (-> & ->)
  end.

Ltac field H o Ho :=
  let P := fresh "P" in
  split_seq H P;
  lazymatch type of P with
  | matches (Opt (Named _ (Plus _))) _ _ _ _ _ =>
      apply opt_named_plus_inv in P as (o & -> & -> & Ho)
  | matches (Opt (Paren _)) _ _ _ _ _ =>
      apply opt_prefix_inv in P as (o & -> & -> & Ho)
  end.

Ltac optional H c Hc :=
  let P := fresh "P" in
  split_seq H P;
  apply opt_lit_inv in P as (Hc & ->);
  match type of Hc with ?u = _ \/ _ => rename u into c end.

Ltac run_of H sp Hne Hsp :=
  let P := fresh "P" in
  split_seq H P;
  apply plus_inv in P as (Hne & Hsp & ->);
  match type of Hsp with only _ ?u = true => rename u into sp end.

Lemma group_inv strict line m :
  matches (DtbReader.group_re strict) 0 line "" [] m ->
  exists name note sep,
    line = with_sep name " " ++ "-" ++ sep ++ txt note ++ String newline "" /\
    m = push "note" note (push "name" name []) /\
    (if strict then sep = " " else sep = "" \/ sep = " ").
Proof.
  intros H. destruct strict;
    unfold DtbReader.group_re, DtbReader.GROUP_RE_STRICT,
      DtbReader.GROUP_RE_LOOSE in H.
  - piece H. field H name Hname. do 2 piece H. field H note Hnote. piece H.
    apply eol_inv in H as (-> & ->).
    exists name, note, " ". split; [reflexivity|]. split; reflexivity.
  - piece H. field H name Hname. piece H. optional H sep Hsep.
    field H note Hnote. piece H. apply eol_inv in H as (-> & ->).
    exists name, note, sep. split; [reflexivity|]. split; [reflexivity|].
    assumption.
Qed.

Lemma team_inv strict line m :
  matches (DtbReader.team_re strict) 0 line "" [] m ->
  exists name note sep,
    line = String tab (with_sep name " " ++ "-" ++ sep ++ txt note
                       ++ String newline "") /\
    m = push "note" note (push "name" name []) /\
    (if strict then sep = " " else sep = "" \/ sep = " ").
Proof.
  intros H. destruct strict;
    unfold DtbReader.team_re, DtbReader.TEAM_RE_STRICT,
      DtbReader.TEAM_RE_LOOSE in H.
  - do 2 piece H. field H name Hname. do 2 piece H. field H note Hnote.
    piece H. apply eol_inv in H as (-> & ->).
    exists name, note, " ". split; [reflexivity|]. split; reflexivity.
  - do 2 piece H. field H name Hname. piece H. optional H sep Hsep.
    field H note Hnote. piece H. apply eol_inv in H as (-> & ->).
    exists name, note, sep. split; [reflexivity|]. split; [reflexivity|].
    assumption.
Qed.

Lemma loose_separator (c s : string) :
  c = "" \/ c = "," -> s = "" \/ s = " " -> separator false (c ++ s).
Proof. unfold separator. intros [-> | ->] [-> | ->]; simpl; auto. Qed.

Lemma only_digit (v : string) :
  only (char_match (In [Category_digit])) v = true -> only is_digit v = true.
Proof.
  intros <-. apply only_ext. intros a. simpl. now rewrite orb_false_r.
Qed.

Lemma only_digit_or_dot (v : string) :
  only (char_match (In [Category_digit; Item "."])) v = true ->
  only is_digit_or_dot v = true.
Proof.
  intros <-. apply only_ext. intros a. unfold is_digit_or_dot. simpl.
  now rewrite orb_false_r.
Qed.

Lemma only_space (v : string) :
  only (char_match (Literal " ")) v = true -> only is_space v = true.
Proof. intros <-. now apply only_ext. Qed.

Lemma player_inv strict line m :
  matches (DtbReader.player_re strict) 0 line "" [] m ->
  exists reg sur nm dob note sep1 sp sep2,
    line = String tab (String tab
             (with_sep reg " " ++ "- " ++ txt sur ++ " " ++ txt nm ++ sep1
              ++ txt dob ++ sp ++ sep2 ++ txt note ++ String newline "")) /\
    m = push "note" note (push "date_of_birth" dob (push "name" nm
          (push "surname" sur (push "registration_number" reg [])))) /\
    (forall v, reg = Some v -> only is_digit v = true) /\
    (forall v, dob = Some v -> only is_digit_or_dot v = true) /\
    separator strict sep1 /\
    (sp <> "" /\ only is_space sp = true) /\
    separator strict sep2.
Proof.
  intros H. destruct strict;
    unfold DtbReader.player_re, DtbReader.PLAYER_RE_STRICT,
      DtbReader.PLAYER_RE_LOOSE in H.
  - do 3 piece H. field H reg Hreg. do 2 piece H. field H sur Hsur.
    piece H. field H nm Hnm. do 2 piece H. field H dob Hdob.
    run_of H sp Hne Hsp. do 2 piece H. field H note Hnote. piece H.
    apply eol_inv in H as (-> & ->).
    exists reg, sur, nm, dob, note, ", ", sp, ", ".
    split; [reflexivity|]. split; [reflexivity|].
    split; [intros v E; apply only_digit; auto|].
    split; [intros v E; apply only_digit_or_dot; now apply Hdob|].
    split; [reflexivity|].
    split; [split; [assumption | now apply only_space] | reflexivity].
  - do 3 piece H. field H reg Hreg. do 2 piece H. field H sur Hsur.
    piece H. field H nm Hnm. optional H c1 Hc1. optional H s1 Hs1.
    field H dob Hdob. run_of H sp Hne Hsp.
    optional H c2 Hc2. optional H s2 Hs2. field H note Hnote. piece H.
    apply eol_inv in H as (-> & ->).
    exists reg, sur, nm, dob, note, (c1 ++ s1), sp, (c2 ++ s2).
    split; [simpl; rewrite !append_assoc; reflexivity|].
    split; [reflexivity|].
    split; [intros v E; apply only_digit; auto|].
    split; [intros v E; apply only_digit_or_dot; now apply Hdob|].
    split; [now apply loose_separator|].
    split; [split; [assumption | now apply only_space]
           | now apply loose_separator].
Qed.

(** The strict Player pattern, with all that is known of each field. *)
Lemma player_strict_inv line m :
  matches DtbReader.PLAYER_RE_STRICT 0 line "" [] m ->
  exists reg sur nm dob note sp,
    line = String tab (String tab
             (with_sep reg " " ++ "- " ++ txt sur ++ " " ++ txt nm ++ ", "
              ++ txt dob ++ sp ++ ", " ++ txt note ++ String newline "")) /\
    m = push "note" note (push "date_of_birth" dob (push "name" nm
          (push "surname" sur (push "registration_number" reg [])))) /\
    (forall v, reg = Some v ->
       only (char_match (In [Category_digit])) v = true) /\
    (forall v, sur = Some v ->
       v <> "" /\ only (char_match (Not_in [Item " "; Item ","])) v = true) /\
    (forall v, nm = Some v ->
       v <> "" /\ only (char_match (Not_in [Item ","])) v = true) /\
    (forall v, dob = Some v ->
       v <> "" /\
       only (char_match (In [Category_digit; Item "."])) v = true) /\
    (forall v, note = Some v -> v <> "" /\ only (char_match Any) v = true) /\
    sp <> "" /\ only (char_match (Literal " ")) sp = true.
Proof.
  intros H. unfold DtbReader.PLAYER_RE_STRICT in H.
  do 3 piece H. field H reg Hreg. do 2 piece H. field H sur Hsur.
  piece H. field H nm Hnm. do 2 piece H. field H dob Hdob.
  run_of H sp Hne Hsp. do 2 piece H. field H note Hnote. piece H.
  apply eol_inv in H as (-> & ->).
  exists reg, sur, nm, dob, note, sp.
  split; [reflexivity|]. split; [reflexivity|]. auto 10.
Qed.

End PieceFacts.

(** ** The first path wins

    When the choice a piece prefers leads to a match, that match is the
    result: a greedy run that cannot go on, an optional part that is there,
    or one that cannot be there. *)

Module GreedyFacts.
Import Re.
Local Open Scope re_scope.

Lemma run_seq r1 r2 i w mk k :
  run (r1 ;; r2) i w mk k
  = run r1 i w mk (fun i' w' mk' => run r2 i' w' mk' k).
Proof. reflexivity. Qed.

Lemma run_bol w mk k : run At_beginning 0 w mk k = k 0 w mk.
Proof. reflexivity. Qed.

Lemma run_eol i mk k : run At_end i "" mk k = k i "" mk.
Proof. reflexivity. Qed.

Lemma repeat_one_greedy p u :
  forall i w k res,
    only (char_match p) u = true ->
    stops p w = true ->
    k (i + String.length u) w = Some res ->
    repeat_one p i (u ++ w) k = Some res.
Proof.
  induction u as [|a u IH]; intros i w k res Hall Hstop Hk; simpl in *.
  - rewrite Nat.add_0_r in Hk.
    destruct w as [|a t]; simpl in *; [exact Hk|].
    apply negb_true_iff in Hstop. now rewrite Hstop.
  - apply andb_true_iff in Hall as [Ha Hall]. rewrite Ha.
    rewrite Nat.add_succ_r in Hk.
    now rewrite (IH (S i) w k res Hall Hstop Hk).
Qed.

Lemma run_lit c i w mk k res :
  k (S i) w mk = Some res -> run (lit c) i (String c w) mk k = Some res.
Proof. simpl. now rewrite Ascii.eqb_refl. Qed.

Lemma run_opt_lit c i w mk k res :
  k (S i) w mk = Some res ->
  run (Opt (lit c)) i (String c w) mk k = Some res.
Proof. simpl. rewrite Ascii.eqb_refl. now intros ->. Qed.

Lemma run_plus_greedy p u i w mk k res :
  u <> "" ->
  only (char_match p) u = true ->
  stops p w = true ->
  k (i + String.length u) w mk = Some res ->
  run (Plus p) i (u ++ w) mk k = Some res.
Proof.
  intros Hne Hall Hstop Hk. destruct u as [|a u]; [easy|]. simpl in *.
  apply andb_true_iff in Hall as [Ha Hall]. rewrite Ha.
  rewrite Nat.add_succ_r in Hk.
  now apply repeat_one_greedy with (k := fun i' w' => k i' w' mk).
Qed.

Lemma run_plus_stops p i w mk k :
  stops p w = true -> run (Plus p) i w mk k = None.
Proof.
  destruct w as [|a t]; simpl; [reflexivity|].
  intros H. apply negb_true_iff in H. now rewrite H.
Qed.

Lemma stops_run p sp w :
  sp <> "" -> only (char_match (Literal " ")) sp = true ->
  char_match p " " = false ->
  stops p (sp ++ w) = true.
Proof.
  destruct sp as [|a sp]; [easy|]. simpl. intros _ H Hp.
  apply andb_true_iff in H as [Ha _]. apply Ascii.eqb_eq in Ha as ->.
  now rewrite Hp.
Qed.

Lemma run_opt_named_plus n p o i w mk k res :
  (forall v, o = Some v -> v <> "" /\ only (char_match p) v = true) ->
  stops p w = true ->
  k (i + String.length (txt o)) w (push n o mk) = Some res ->
  run (Opt (Named n (Plus p))) i (txt o ++ w) mk k = Some res.
Proof.
  intros Ho Hstop Hk. destruct o as [v|]; simpl txt in *; simpl push in Hk.
  - destruct (Ho v eq_refl) as [Hne Hall].
    change (run (Opt (Named n (Plus p))) i (v ++ w) mk k)
      with (match run (Plus p) i (v ++ w) mk
                    (fun i' w' mk' =>
                       k i' w' ((n, take (i' - i) (v ++ w)) :: mk'))
            with Some r => Some r | None => k i (v ++ w) mk end).
    rewrite (run_plus_greedy p v i w mk _ res Hne Hall Hstop);
      [reflexivity|].
    replace (i + String.length v - i) with (String.length v) by lia.
    now rewrite take_append.
  - change (run (Opt (Named n (Plus p))) i ("" ++ w) mk k)
      with (match run (Plus p) i w mk
                    (fun i' w' mk' => k i' w' ((n, take (i' - i) w) :: mk'))
            with Some r => Some r | None => k i w mk end).
    rewrite run_plus_stops by exact Hstop.
    simpl in Hk. now rewrite Nat.add_0_r in Hk.
Qed.

Lemma run_opt_prefix n p c o i w mk k res :
  (forall v, o = Some v -> only (char_match p) v = true) ->
  char_match p c = false ->
  (o = None -> stops p w = true /\ stops (Literal c) w = true) ->
  k (i + String.length (with_sep o (String c ""))) w (push n o mk)
  = Some res ->
  run (Opt (Paren (Named n (Star p) ;; lit c))) i
      (with_sep o (String c "") ++ w) mk k = Some res.
Proof.
  intros Ho Hc Hnone Hk.
  change (run (Opt (Paren (Named n (Star p) ;; lit c))) i
              (with_sep o (String c "") ++ w) mk k)
    with (match repeat_one p i (with_sep o (String c "") ++ w)
                  (fun i' w' =>
                     run (lit c) i' w'
                         ((n, take (i' - i)
                                (with_sep o (String c "") ++ w)) :: mk) k)
          with
          | Some r => Some r
          | None => k i (with_sep o (String c "") ++ w) mk
          end).
  destruct o as [v|]; simpl with_sep in *; simpl push in Hk.
  - rewrite append_assoc.
    rewrite (repeat_one_greedy p v i (String c "" ++ w) _ res);
      [reflexivity | now apply Ho | simpl; now rewrite Hc |].
    apply run_lit.
    replace (i + String.length v - i) with (String.length v) by lia.
    rewrite <- append_assoc, append_assoc, take_append.
    rewrite length_append in Hk. simpl in Hk.
    rewrite <- Hk. f_equal. lia.
  - destruct (Hnone eq_refl) as [S1 S2]. simpl in Hk |- *.
    rewrite Nat.add_0_r in Hk.
    destruct w as [|a t]; simpl in *; [exact Hk|].
    apply negb_true_iff in S1, S2. now rewrite S1, S2.
Qed.

End GreedyFacts.

(** ** The three shapes exclude one another *)

Module ReaderFacts.
Import Re DtbReader.

Lemma group_rejects_tab strict t :
  fullmatch (group_re strict) (String tab t) = None.
Proof. destruct strict; reflexivity. Qed.

Lemma team_rejects_two_tabs strict t :
  fullmatch (team_re strict) (String tab (String tab t)) = None.
Proof. destruct strict; reflexivity. Qed.

Lemma team_starts_with_tab strict line m :
  fullmatch (team_re strict) line = Some m -> exists t, line = String tab t.
Proof.
  intros H. apply ReFacts.fullmatch_sound, PieceFacts.team_inv in H.
  destruct H as (name & note & sep & -> & _). eauto.
Qed.

Lemma player_starts_with_two_tabs strict line m :
  fullmatch (player_re strict) line = Some m ->
  exists t, line = String tab (String tab t).
Proof.
  intros H. apply ReFacts.fullmatch_sound, PieceFacts.player_inv in H.
  destruct H as (reg & sur & nm & dob & note & s1 & sp & s2 & -> & _). eauto.
Qed.

(** What [read] does with a line of each shape. *)
Lemma read_group self line strict m :
  fullmatch (group_re strict) line = Some m ->
  read self line strict =
  (inr (AGroup (group_of m)),
   {| current_group := Some (group_of m); current_team := None |}).
Proof. unfold read. now intros ->. Qed.

Lemma read_team self line strict m :
  fullmatch (team_re strict) line = Some m ->
  read self line strict =
  match current_group self with
  | None => (inl (TeamWithoutGroup line), self)
  | Some g =>
      (inr (ATeam (team_of m g)),
       {| current_group := current_group self;
          current_team := Some (team_of m g) |})
  end.
Proof.
  intros H. destruct (team_starts_with_tab _ _ _ H) as (t & ->).
  unfold read. now rewrite group_rejects_tab, H.
Qed.

Lemma read_player self line strict m :
  fullmatch (player_re strict) line = Some m ->
  read self line strict =
  match current_team self with
  | None => (inl (PlayerWithoutTeam line), self)
  | Some t => (inr (APlayer (player_of m t)), self)
  end.
Proof.
  intros H. destruct (player_starts_with_two_tabs _ _ _ H) as (t & ->).
  unfold read. now rewrite group_rejects_tab, team_rejects_two_tabs, H.
Qed.

Lemma read_unknown self line strict :
  fullmatch (group_re strict) line = None ->
  fullmatch (team_re strict) line = None ->
  fullmatch (player_re strict) line = None ->
  read self line strict = (inl (UnknownLineType line), self).
Proof. unfold read. now intros -> -> ->. Qed.

Lemma is_some_true {A : Type} (o : option A) :
  is_some o = true -> exists v, o = Some v.
Proof. destruct o; [eauto | discriminate]. Qed.

End ReaderFacts.

(** * The claims *)

Module Claims.
Import Re DtbReader ReaderFacts.

Lemma error_kinds_differ (line : string) :
  TeamWithoutGroup line <> PlayerWithoutTeam line /\
  TeamWithoutGroup line <> UnknownLineType line /\
  PlayerWithoutTeam line <> UnknownLineType line.
Proof. repeat split; discriminate. Qed.

(** When [read] raises each of its three errors. *)
Lemma raises_TeamWithoutGroup self line strict :
  fst (read self line strict) = inl (TeamWithoutGroup line) <->
  team_shaped strict line = true /\ current_group self = None.
Proof.
  unfold team_shaped. split.
  - unfold read.
    destruct (fullmatch (group_re strict) line); [discriminate|].
    destruct (fullmatch (team_re strict) line).
    + destruct (current_group self); [discriminate | auto].
    + destruct (fullmatch (player_re strict) line);
        [destruct (current_team self)|]; discriminate.
  - intros [H E]. apply is_some_true in H as (m & H).
    now rewrite (read_team self _ _ _ H), E.
Qed.

Lemma raises_PlayerWithoutTeam self line strict :
  fst (read self line strict) = inl (PlayerWithoutTeam line) <->
  player_shaped strict line = true /\ current_team self = None.
Proof.
  unfold player_shaped. split.
  - unfold read.
    destruct (fullmatch (group_re strict) line); [discriminate|].
    destruct (fullmatch (team_re strict) line).
    + destruct (current_group self); discriminate.
    + destruct (fullmatch (player_re strict) line); [|discriminate].
      destruct (current_team self); [discriminate | auto].
  - intros [H E]. apply is_some_true in H as (m & H).
    now rewrite (read_player self _ _ _ H), E.
Qed.

(** C1. In every state and in either mode: a line that has the shape of a
    Team, read while [current_group] is unset, raises [TeamWithoutGroup]; a
    line that has the shape of a Player, read while [current_team] is unset,
    raises [PlayerWithoutTeam]; and a Player line read right after a Group
    line raises [PlayerWithoutTeam], whatever the state was before the
    Group line. *)
Theorem read_structural_errors
    (self : DtbReader.t) (strict strict' : bool) (tl pl gl : string) :
  (team_shaped strict tl = true -> current_group self = None ->
   fst (read self tl strict) = inl (TeamWithoutGroup tl)) /\
  (player_shaped strict pl = true -> current_team self = None ->
   fst (read self pl strict) = inl (PlayerWithoutTeam pl)) /\
  (group_shaped strict' gl = true -> player_shaped strict pl = true ->
   fst (read (snd (read self gl strict')) pl strict)
   = inl (PlayerWithoutTeam pl)).
Proof.
  split; [|split].
  - intros H E. now apply raises_TeamWithoutGroup.
  - intros H E. now apply raises_PlayerWithoutTeam.
  - intros Hg Hp. apply raises_PlayerWithoutTeam. split; [exact Hp|].
    apply is_some_true in Hg as (m & Hg).
    now rewrite (read_group self _ _ _ Hg).
Qed.

Lemma read_structural_errors_witness :
  fst (read init (tb ++ "team - note" ++ nl) true)
  = inl (TeamWithoutGroup (tb ++ "team - note" ++ nl)) /\
  fst (read init (tb ++ tb ++ "1 - s n, 2. , x" ++ nl) true)
  = inl (PlayerWithoutTeam (tb ++ tb ++ "1 - s n, 2. , x" ++ nl)) /\
  fst (read (snd (read {| current_group := Some example_group;
                          current_team := Some example_team |}
                       ("g - n" ++ nl) false))
            (tb ++ tb ++ "1 - s n, 2. , x" ++ nl) true)
  = inl (PlayerWithoutTeam (tb ++ tb ++ "1 - s n, 2. , x" ++ nl)).
Proof.
  destruct (read_structural_errors init true false
              (tb ++ "team - note" ++ nl)
              (tb ++ tb ++ "1 - s n, 2. , x" ++ nl) ("g - n" ++ nl))
    as (H1 & H2 & _).
  destruct (read_structural_errors
              {| current_group := Some example_group;
                 current_team := Some example_team |} true false
              (tb ++ "team - note" ++ nl)
              (tb ++ tb ++ "1 - s n, 2. , x" ++ nl) ("g - n" ++ nl))
    as (_ & _ & H3).
  split; [apply H1; reflexivity|].
  split; [apply H2; reflexivity | apply H3; reflexivity].
Defined.

(** C7. In a state whose [current_team] is set, reading a line that has the
    shape of a Player returns the Player built from the match with that
    team as its parent, and leaves [current_group] and [current_team] as
    they were. *)
Theorem read_player_keeps_state
    (self : DtbReader.t) (strict : bool) (line : string) (t : Team.t) :
  player_shaped strict line = true ->
  current_team self = Some t ->
  exists m,
    fullmatch (player_re strict) line = Some m /\
    fst (read self line strict) = inr (APlayer (player_of m t)) /\
    Player.team (player_of m t) = t /\
    current_group (snd (read self line strict)) = current_group self /\
    current_team (snd (read self line strict)) = current_team self.
Proof.
  intros H E. apply is_some_true in H as (m & H). exists m.
  rewrite (read_player self _ _ _ H), E. simpl. auto.
Qed.

Lemma read_player_keeps_state_witness :
  exists m,
    fullmatch (player_re true) (tb ++ tb ++ "1 - s n, 2. , x" ++ nl) = Some m /\
    fst (read {| current_group := Some example_group;
                 current_team := Some example_team |}
              (tb ++ tb ++ "1 - s n, 2. , x" ++ nl) true)
    = inr (APlayer (player_of m example_team)) /\
    Player.team (player_of m example_team) = example_team /\
    current_group
      (snd (read {| current_group := Some example_group;
                    current_team := Some example_team |}
                 (tb ++ tb ++ "1 - s n, 2. , x" ++ nl) true))
    = Some example_group /\
    current_team
      (snd (read {| current_group := Some example_group;
                    current_team := Some example_team |}
                 (tb ++ tb ++ "1 - s n, 2. , x" ++ nl) true))
    = Some example_team.
Proof.
  apply (read_player_keeps_state
           {| current_group := Some example_group;
              current_team := Some example_team |} true
           (tb ++ tb ++ "1 - s n, 2. , x" ++ nl) example_team);
    reflexivity.
Defined.

Lemma read_state self line strict :
  snd (read self line strict) = self \/
  current_group (snd (read self line strict)) <> None.
Proof.
  unfold read.
  destruct (fullmatch (group_re strict) line); [right; discriminate|].
  destruct (fullmatch (team_re strict) line).
  - destruct (current_group self) eqn:E; [|now left].
    right. simpl. congruence.
  - destruct (fullmatch (player_re strict) line);
      [destruct (current_team self)|]; now left.
Qed.

Lemma read_preserves_invariant st line strict :
  reader_invariant st -> reader_invariant (snd (read st line strict)).
Proof.
  intros I. destruct (read_state st line strict) as [-> | H]; [exact I|].
  intros _. exact H.
Qed.

Lemma after_reads_invariant calls :
  forall st, reader_invariant st -> reader_invariant (after_reads calls st).
Proof.
  induction calls as [|call calls IH]; intros st I; simpl; [exact I|].
  apply IH, read_preserves_invariant, I.
Qed.

(** C9. The fresh reader has both fields unset; every call of [read],
    returning or raising, keeps the invariant "when [current_team] is set,
    [current_group] is set"; hence the invariant holds after any sequence
    of calls on a fresh reader. *)
Theorem reader_invariant_always :
  current_group init = None /\ current_team init = None /\
  (forall st line strict,
     reader_invariant st -> reader_invariant (snd (read st line strict))) /\
  (forall calls, reader_invariant (after_reads calls init)).
Proof.
  split; [reflexivity|]. split; [reflexivity|].
  split; [exact read_preserves_invariant|].
  intros calls. apply after_reads_invariant. unfold reader_invariant, init.
  simpl. congruence.
Qed.

Lemma reader_invariant_always_witness :
  current_group
    (after_reads [("g - n" ++ nl, true); (tb ++ "t - n" ++ nl, true);
                  ("oops", false)] init) <> None.
Proof.
  destruct reader_invariant_always as (_ & _ & _ & H).
  apply (H [("g - n" ++ nl, true); (tb ++ "t - n" ++ nl, true);
            ("oops", false)]).
  vm_compute. discriminate.
Defined.

(** C10. A call of [read] that raises leaves the reader as it was, and
    what it raises is one of the three errors, for the line read. *)
Theorem read_failure_keeps_state
    (self : DtbReader.t) (line : string) (strict : bool)
    (e : InvalidDtbFileError) :
  fst (read self line strict) = inl e ->
  snd (read self line strict) = self /\
  current_group (snd (read self line strict)) = current_group self /\
  current_team (snd (read self line strict)) = current_team self /\
  (e = TeamWithoutGroup line \/ e = PlayerWithoutTeam line \/
   e = UnknownLineType line).
Proof.
  intros H.
  assert (snd (read self line strict) = self /\
          (e = TeamWithoutGroup line \/ e = PlayerWithoutTeam line \/
           e = UnknownLineType line)) as [E K].
  { revert H. unfold read.
    destruct (fullmatch (group_re strict) line); [discriminate|].
    destruct (fullmatch (team_re strict) line).
    - destruct (current_group self); [discriminate|].
      simpl. intros [= <-]. auto.
    - destruct (fullmatch (player_re strict) line).
      + destruct (current_team self); [discriminate|].
        simpl. intros [= <-]. auto.
      + simpl. intros [= <-]. auto. }
  rewrite E. auto.
Qed.

Lemma read_failure_keeps_state_witness :
  snd (read {| current_group := Some example_group; current_team := None |}
            (tb ++ tb ++ "1 - s n, 2. , x" ++ nl) true)
  = {| current_group := Some example_group; current_team := None |}.
Proof.
  apply (read_failure_keeps_state
           {| current_group := Some example_group; current_team := None |}
           (tb ++ tb ++ "1 - s n, 2. , x" ++ nl) true
           (PlayerWithoutTeam (tb ++ tb ++ "1 - s n, 2. , x" ++ nl))).
  reflexivity.
Defined.

(** C5. The row of a Group is its two fields [name, note]; the row of a
    Team is the row of its Group followed by its [name, note], four fields;
    the row of a Player is the row of its Team followed by its five own
    fields, nine fields. *)
Theorem to_list_rows :
  (forall g : Group.t,
     Group.to_list g = [Group.name g; Group.note g] /\
     List.length (Group.to_list g) = 2) /\
  (forall t : Team.t,
     Team.to_list t
     = (Group.to_list (Team.group t) ++ [Team.name t; Team.note t])%list /\
     List.length (Team.to_list t) = 4) /\
  (forall p : Player.t,
     Player.to_list p
     = (Team.to_list (Player.team p) ++
        [Player.registration_number p; Player.name p; Player.surname p;
         Player.date_of_birth p; Player.note p])%list /\
     List.length (Player.to_list p) = 9).
Proof.
  split; [|split]; intros x; split; reflexivity.
Qed.

Lemma example_accepted :
  accepts true init example_input
    [AGroup example_group; ATeam example_team; APlayer example_player]
    {| current_group := Some example_group;
       current_team := Some example_team |}.
Proof.
  unfold example_input.
  eapply accepts_cons; [reflexivity|].
  eapply accepts_cons; [reflexivity|].
  eapply accepts_cons; [reflexivity|].
  apply accepts_nil.
Qed.

(** C4. In strict mode the three lines of the README are accepted as a
    Group, a Team and a Player whose rows are the three rows of the claim,
    the Player's name before its surname, and [convert] writes the header
    and these three rows. *)
Theorem readme_example :
  accepts true init example_input
    [AGroup example_group; ATeam example_team; APlayer example_player]
    {| current_group := Some example_group;
       current_team := Some example_team |} /\
  map to_list
    [AGroup example_group; ATeam example_team; APlayer example_player]
  = [[Some "group_name"; Some "group_note"];
     [Some "group_name"; Some "group_note";
      Some "team_name"; Some "team_note"];
     [Some "group_name"; Some "group_note";
      Some "team_name"; Some "team_note";
      Some "00001234"; Some "player_name"; Some "player_surname";
      Some "01.01.1900"; Some "player_note"]] /\
  ConverterCsv.convert example_input true
  = ConverterCsv.Outcome
      [header_record;
       ["group_name"; "group_note"];
       ["group_name"; "group_note"; "team_name"; "team_note"];
       ["group_name"; "group_note"; "team_name"; "team_note";
        "00001234"; "player_name"; "player_surname"; "01.01.1900";
        "player_note"]]
      [] None.
Proof.
  split; [exact example_accepted | split; reflexivity].
Qed.

(** ** The converter *)

Lemma for_lines_accepts strict st lines es st' :
  accepts strict st lines es st' ->
  forall out,
    ConverterCsv.for_lines st out lines strict
    = ConverterCsv.Outcome (out ++ map record_of es) [] None.
Proof.
  induction 1 as [st | st line e st' lines es st'' R _ IH]; intros out; simpl.
  - now rewrite app_nil_r.
  - rewrite R, IH. unfold ConverterCsv.writerow.
    now rewrite <- app_assoc.
Qed.

Lemma for_lines_raises strict st pre es st' line e :
  accepts strict st pre es st' ->
  fst (read st' line strict) = inl e ->
  forall out post,
    ConverterCsv.for_lines st out (pre ++ line :: post) strict
    = ConverterCsv.Outcome (out ++ map record_of es) post (Some e).
Proof.
  induction 1 as [st | st l0 e0 st' lines es st'' R _ IH];
    intros F out post; simpl.
  - destruct (read st line strict) as [[e'|ent] st2]; simpl in F;
      [injection F as -> | discriminate].
    now rewrite app_nil_r.
  - rewrite R, (IH F). unfold ConverterCsv.writerow.
    now rewrite <- app_assoc.
Qed.

Lemma reads_exhaustive strict lines :
  forall st,
    (exists es st', accepts strict st lines es st') \/
    (exists pre line post es st' e,
       lines = (pre ++ line :: post)%list /\
       accepts strict st pre es st' /\
       fst (read st' line strict) = inl e).
Proof.
  induction lines as [|line rest IH]; intros st.
  - left. exists [], st. constructor.
  - destruct (read st line strict) as [[e|ent] st1] eqn:R.
    + right. exists [], line, rest, [], st, e.
      split; [reflexivity|]. split; [constructor | now rewrite R].
    + destruct (IH st1) as [(es & st' & A)
                           | (pre & l & post & es & st' & e & -> & A & F)].
      * left. exists (ent :: es), st'. econstructor; eassumption.
      * right. exists (line :: pre), l, post, (ent :: es), st', e.
        split; [reflexivity|]. split; [econstructor; eassumption | exact F].
Qed.

Lemma written_records dtb_input strict :
  exists es,
    ConverterCsv.written (ConverterCsv.convert dtb_input strict)
    = header_record :: map record_of es.
Proof.
  unfold ConverterCsv.convert.
  destruct (reads_exhaustive strict dtb_input init)
    as [(es & st' & A) | (pre & l & post & es & st' & e & -> & A & F)];
    exists es.
  - now rewrite (for_lines_accepts _ _ _ _ _ A).
  - now rewrite (for_lines_raises _ _ _ _ _ _ _ A F).
Qed.

(** C6. [convert] writes the header of nine labels first, whatever the
    input; when every line is accepted it writes their records in order and
    raises nothing; when a line fails after lines that were accepted, it
    raises that line's error, has written the header and the records of the
    lines before it only, and leaves the lines after it unread; one of the
    two is always the case.  An input that starts with the line
    "\tteam - note\n" raises [TeamWithoutGroup] with no data record
    written. *)
Theorem convert_stops_at_first_failure
    (dtb_input : list string) (strict : bool) :
  header_record
  = ["Název, Oddíl"; "Poznámka, Oddíl"; "Název, Družstvo";
     "Poznámka, Družstvo"; "Reg. číslo, Hráč"; "Jméno, Hráč";
     "Příjmení, Hráč"; "Datum nar., Hráč"; "Poznámka, Hráč"] /\
  List.length header_record = 9 /\
  (exists records,
     ConverterCsv.written (ConverterCsv.convert dtb_input strict)
     = header_record :: records) /\
  (forall es st,
     accepts strict init dtb_input es st ->
     ConverterCsv.convert dtb_input strict
     = ConverterCsv.Outcome (header_record :: map record_of es) [] None) /\
  (forall pre line post es st e,
     dtb_input = (pre ++ line :: post)%list ->
     accepts strict init pre es st ->
     fst (read st line strict) = inl e ->
     ConverterCsv.convert dtb_input strict
     = ConverterCsv.Outcome (header_record :: map record_of es) post
                            (Some e)) /\
  ((exists es st, accepts strict init dtb_input es st) \/
   (exists pre line post es st e,
      dtb_input = (pre ++ line :: post)%list /\
      accepts strict init pre es st /\
      fst (read st line strict) = inl e)) /\
  (forall rest,
     ConverterCsv.convert ((tb ++ "team - note" ++ nl) :: rest) strict
     = ConverterCsv.Outcome [header_record] rest
         (Some (TeamWithoutGroup (tb ++ "team - note" ++ nl)))).
Proof.
  split; [reflexivity|]. split; [reflexivity|].
  split; [destruct (written_records dtb_input strict) as (es & E); eauto|].
  split; [intros es st A; exact (for_lines_accepts _ _ _ _ _ A _)|].
  split; [intros pre line post es st e -> A F;
          exact (for_lines_raises _ _ _ _ _ _ _ A F _ _)|].
  split; [apply reads_exhaustive|].
  intros rest. destruct strict; reflexivity.
Qed.

Lemma convert_stops_at_first_failure_witness :
  ConverterCsv.convert (example_input ++ ["oops"; "g - n" ++ nl]) true
  = ConverterCsv.Outcome
      (header_record ::
       map record_of
         [AGroup example_group; ATeam example_team; APlayer example_player])
      ["g - n" ++ nl] (Some (UnknownLineType "oops")).
Proof.
  destruct (convert_stops_at_first_failure
              (example_input ++ ["oops"; "g - n" ++ nl]) true)
    as (_ & _ & _ & _ & H & _).
  apply (H example_input "oops" ["g - n" ++ nl] _ _ _ eq_refl
           example_accepted).
  reflexivity.
Defined.

Lemma after_reads_cons call calls st :
  after_reads (call :: calls) st
  = after_reads calls (snd (read st (fst call) (snd call))).
Proof. reflexivity. Qed.

(** The entity at a place among those returned is what [read] returned
    for the line at that place, in the state the lines before it left. *)
Lemma accepts_nth strict st pre es st' :
  accepts strict st pre es st' ->
  forall k e post,
    nth_error es k = Some e ->
    exists line,
      nth_error (pre ++ post)%list k = Some line /\
      fst (read (after_reads (map (fun l => (l, strict))
                                  (firstn k (pre ++ post)%list)) st)
                line strict) = inr e.
Proof.
  induction 1 as [st | st line e st' lines es st'' R _ IH];
    intros k e0 post Hk.
  - destruct k; discriminate.
  - destruct k as [|k]; simpl in Hk.
    + injection Hk as <-. exists line. split; [reflexivity|].
      simpl. now rewrite R.
    + destruct (IH k e0 post Hk) as (l & N & F). exists l.
      split; [exact N|].
      simpl firstn. simpl map. rewrite after_reads_cons. simpl fst.
      simpl snd. rewrite R. exact F.
Qed.

Lemma data_records_accepted dtb_input strict :
  exists pre post es st,
    dtb_input = (pre ++ post)%list /\
    accepts strict init pre es st /\
    data_records (ConverterCsv.convert dtb_input strict)
    = map record_of es.
Proof.
  unfold data_records, ConverterCsv.convert.
  destruct (reads_exhaustive strict dtb_input init)
    as [(es & st' & A) | (pre & l & post & es & st' & e & -> & A & F)].
  - exists dtb_input, [], es, st'. rewrite app_nil_r.
    split; [reflexivity|]. split; [exact A|].
    now rewrite (for_lines_accepts _ _ _ _ _ A).
  - exists pre, (l :: post), es, st'.
    split; [reflexivity|]. split; [exact A|].
    now rewrite (for_lines_raises _ _ _ _ _ _ _ A F).
Qed.

(** C3, as the code has it.  [convert] does not pad.  The data record at
    place [k] of the output is the row of the entity that [read] returned
    for the line at place [k] of the input, called in the state that the
    lines before it left, field by field: it has two fields for a Group,
    four for a Team and nine for a Player; a field that is unset is written
    as the empty string, a field that is set as its text. *)
Theorem data_records_are_rows
    (dtb_input : list string) (strict : bool) (k : nat)
    (record : list string) :
  nth_error (data_records (ConverterCsv.convert dtb_input strict)) k
  = Some record ->
  exists line e,
    nth_error dtb_input k = Some line /\
    fst (read (after_reads (map (fun l => (l, strict)) (firstn k dtb_input))
                           init)
              line strict) = inr e /\
    record = map ConverterCsv.csv_field (to_list e) /\
    List.length record = width e /\
    (forall i, nth_error (to_list e) i = Some None ->
               nth_error record i = Some "") /\
    (forall i v, nth_error (to_list e) i = Some (Some v) ->
                 nth_error record i = Some v).
Proof.
  destruct (data_records_accepted dtb_input strict)
    as (pre & post & es & st & -> & A & ->).
  intros H. rewrite nth_error_map in H.
  destruct (nth_error es k) as [e|] eqn:E; [|discriminate].
  injection H as <-.
  destruct (accepts_nth _ _ _ _ _ A k e post E) as (line & N & F).
  exists line, e. split; [exact N|]. split; [exact F|].
  split; [reflexivity|]. split; [destruct e as [g|t|p]; reflexivity|].
  unfold record_of. split.
  - intros i H. now rewrite (map_nth_error ConverterCsv.csv_field _ _ H).
  - intros i v H. now rewrite (map_nth_error ConverterCsv.csv_field _ _ H).
Qed.

Lemma data_records_are_rows_witness :
  exists line e,
    nth_error ["g - " ++ nl; tb ++ "- n" ++ nl] 1 = Some line /\
    fst (read (after_reads
                 (map (fun l => (l, true))
                      (firstn 1 ["g - " ++ nl; tb ++ "- n" ++ nl]))
                 init)
              line true) = inr e /\
    ["g"; ""; ""; "n"] = map ConverterCsv.csv_field (to_list e) /\
    List.length ["g"; ""; ""; "n"] = width e /\
    (forall i, nth_error (to_list e) i = Some None ->
               nth_error ["g"; ""; ""; "n"] i = Some "") /\
    (forall i v, nth_error (to_list e) i = Some (Some v) ->
                 nth_error ["g"; ""; ""; "n"] i = Some v).
Proof.
  apply (data_records_are_rows ["g - " ++ nl; tb ++ "- n" ++ nl] true 1).
  reflexivity.
Defined.

(** C3, as stated, fails: the records written for the Group and the Team
    of the README have two and four fields, not nine. *)
Lemma records_are_not_padded :
  data_records (ConverterCsv.convert example_input true)
  = [["group_name"; "group_note"];
     ["group_name"; "group_note"; "team_name"; "team_note"];
     ["group_name"; "group_note"; "team_name"; "team_note";
      "00001234"; "player_name"; "player_surname"; "01.01.1900";
      "player_note"]] /\
  ~ (forall record,
       List.In record (data_records (ConverterCsv.convert example_input true)) ->
       List.length record = 9).
Proof.
  split; [reflexivity|].
  intros H. specialize (H ["group_name"; "group_note"]).
  discriminate H. left. reflexivity.
Qed.

(** ** Strict and loose *)

Lemma strict_is_looser :
  looser GROUP_RE_STRICT GROUP_RE_LOOSE /\
  looser TEAM_RE_STRICT TEAM_RE_LOOSE /\
  looser PLAYER_RE_STRICT PLAYER_RE_LOOSE.
Proof.
  unfold GROUP_RE_STRICT, GROUP_RE_LOOSE, TEAM_RE_STRICT, TEAM_RE_LOOSE,
    PLAYER_RE_STRICT, PLAYER_RE_LOOSE.
  repeat split;
    repeat first [apply looser_same | apply looser_opt | apply looser_seq].
Qed.

Lemma looser_accepts r r' line :
  looser r r' ->
  is_some (fullmatch r line) = true -> is_some (fullmatch r' line) = true.
Proof.
  intros L H. apply is_some_true in H as (m & H).
  apply ReFacts.fullmatch_sound in H.
  apply (ReFacts.looser_matches _ _ L) in H.
  apply ReFacts.fullmatch_complete in H.
  destruct (fullmatch r' line); [reflexivity | congruence].
Qed.

(** What [read] returns for each shape, and when. *)
Lemma returns_of_shape self line strict e :
  fst (read self line strict) = inr e ->
  match kind_of e with
  | KGroup => group_shaped strict line = true
  | KTeam => team_shaped strict line = true /\ current_group self <> None
  | KPlayer => player_shaped strict line = true /\ current_team self <> None
  end.
Proof.
  unfold read, group_shaped, team_shaped, player_shaped.
  destruct (fullmatch (group_re strict) line);
    [simpl; now intros [= <-]|].
  destruct (fullmatch (team_re strict) line).
  - destruct (current_group self); [|discriminate].
    simpl. intros [= <-]. simpl. split; [reflexivity | discriminate].
  - destruct (fullmatch (player_re strict) line); [|discriminate].
    destruct (current_team self); [|discriminate].
    simpl. intros [= <-]. simpl. split; [reflexivity | discriminate].
Qed.

Lemma shape_returns self line strict k :
  match k with
  | KGroup => group_shaped strict line = true
  | KTeam => team_shaped strict line = true /\ current_group self <> None
  | KPlayer => player_shaped strict line = true /\ current_team self <> None
  end ->
  exists e, fst (read self line strict) = inr e /\ kind_of e = k.
Proof.
  destruct k.
  - intros H. apply is_some_true in H as (m & H).
    rewrite (read_group self _ _ _ H). simpl. eauto.
  - intros [H G]. apply is_some_true in H as (m & H).
    rewrite (read_team self _ _ _ H).
    destruct (current_group self); [simpl; eauto | congruence].
  - intros [H G]. apply is_some_true in H as (m & H).
    rewrite (read_player self _ _ _ H).
    destruct (current_team self); [simpl; eauto | congruence].
Qed.

Lemma unknown_in_strict self line :
  (team_shaped false line = true /\ team_shaped true line = false) \/
  (player_shaped false line = true /\ player_shaped true line = false) ->
  fst (read self line true) = inl (UnknownLineType line).
Proof.
  unfold team_shaped, player_shaped.
  intros [[H N] | [H N]]; apply is_some_true in H as (m & H).
  - destruct (team_starts_with_tab _ _ _ H) as (t & E). subst line.
    destruct (fullmatch (team_re true) (String tab t)) eqn:T;
      [discriminate|].
    destruct (fullmatch (player_re true) (String tab t)) eqn:P.
    + apply player_starts_with_two_tabs in P as (t' & [= ->]).
      now rewrite team_rejects_two_tabs in H.
    + rewrite read_unknown; auto using group_rejects_tab.
  - destruct (player_starts_with_two_tabs _ _ _ H) as (t & E). subst line.
    destruct (fullmatch (player_re true) (String tab (String tab t))) eqn:P;
      [discriminate|].
    rewrite read_unknown;
      auto using group_rejects_tab, team_rejects_two_tabs.
Qed.

(** A line the strict Player pattern matches is matched by the loose one
    with the same marks: the path of the strict match takes, at each piece,
    the choice the loose pattern tries first. *)
Ltac next L := rewrite GreedyFacts.run_seq; apply L; cbv beta.

Lemma strict_player_in_loose line m :
  fullmatch PLAYER_RE_STRICT line = Some m ->
  fullmatch PLAYER_RE_LOOSE line = Some m.
Proof.
  intros H. apply ReFacts.fullmatch_sound, PieceFacts.player_strict_inv in H.
  destruct H as (reg & sur & nm & dob & note & sp & -> & -> & Hreg & Hsur
                 & Hnm & Hdob & Hnote & Hne & Hsp).
  unfold fullmatch, PLAYER_RE_LOOSE.
  rewrite GreedyFacts.run_seq, GreedyFacts.run_bol. cbv beta.
  next GreedyFacts.run_lit. next GreedyFacts.run_lit.
  next GreedyFacts.run_opt_prefix;
    [exact Hreg | reflexivity | intros _; split; reflexivity |].
  next GreedyFacts.run_lit. next GreedyFacts.run_lit.
  next GreedyFacts.run_opt_named_plus; [exact Hsur | reflexivity |].
  next GreedyFacts.run_lit.
  next GreedyFacts.run_opt_named_plus; [exact Hnm | reflexivity |].
  next GreedyFacts.run_opt_lit. next GreedyFacts.run_opt_lit.
  next GreedyFacts.run_opt_named_plus;
    [exact Hdob | now apply GreedyFacts.stops_run |].
  next GreedyFacts.run_plus_greedy; [exact Hne | exact Hsp | reflexivity |].
  next GreedyFacts.run_opt_lit. next GreedyFacts.run_opt_lit.
  next GreedyFacts.run_opt_named_plus; [exact Hnote | reflexivity |].
  next GreedyFacts.run_lit. reflexivity.
Qed.

(** C2, as stated, fails.  The line "a - b -c\n" is a Group in both modes,
    with name "a" and note "b -c" in strict mode and name "a - b" and note
    "c" in loose mode; the same holds of the Team line "\ta - b -c\n".  The
    line "\t-x\n", read by a fresh reader, raises [TeamWithoutGroup] in
    loose mode and [UnknownLineType] in strict mode. *)
Lemma loose_captures_differ :
  fst (read init ("a - b -c" ++ nl) true)
  = inr (AGroup (Group.Build (Some "a") (Some "b -c"))) /\
  fst (read init ("a - b -c" ++ nl) false)
  = inr (AGroup (Group.Build (Some "a - b") (Some "c"))) /\
  fst (read init ("a - b -c" ++ nl) true)
  <> fst (read init ("a - b -c" ++ nl) false) /\
  fst (read {| current_group := Some example_group; current_team := None |}
            (tb ++ "a - b -c" ++ nl) true)
  = inr (ATeam (Team.Build (Some "a") (Some "b -c") example_group)) /\
  fst (read {| current_group := Some example_group; current_team := None |}
            (tb ++ "a - b -c" ++ nl) false)
  = inr (ATeam (Team.Build (Some "a - b") (Some "c") example_group)) /\
  fst (read init (tb ++ "-x" ++ nl) false)
  = inl (TeamWithoutGroup (tb ++ "-x" ++ nl)) /\
  fst (read init (tb ++ "-x" ++ nl) true)
  = inl (UnknownLineType (tb ++ "-x" ++ nl)) /\
  fst (read init (tb ++ "-x" ++ nl) true)
  <> fst (read init (tb ++ "-x" ++ nl) false).
Proof.
  repeat split; try reflexivity; vm_compute; discriminate.
Qed.

(** ** The fields of a Player *)

Lemma captures_of_pushes reg sur nm dob note :
  let m := push "note" note (push "date_of_birth" dob (push "name" nm
             (push "surname" sur (push "registration_number" reg [])))) in
  group m "registration_number" = reg /\
  group m "surname" = sur /\
  group m "name" = nm /\
  group m "date_of_birth" = dob /\
  group m "note" = note.
Proof.
  destruct reg, sur, nm, dob, note; repeat split; reflexivity.
Qed.

End Claims.

(** * Further properties *)

(** ** Lines written from the fields *)

Module LineFacts.
Import Re DtbReader.
Local Open Scope re_scope.

Lemma starts_with_app_nl pat :
  only not_newline pat = true ->
  forall y, starts_with pat (y ++ nl) = starts_with pat y.
Proof.
  induction pat as [|a pat IH]; intros H y; [now destruct y|].
  simpl in H. apply andb_true_iff in H as [Ha H].
  destruct y as [|b y]; simpl.
  - unfold not_newline in Ha. apply negb_true_iff in Ha. now rewrite Ha.
  - now rewrite IH.
Qed.

Lemma contains_app_nl pat y :
  pat <> "" -> only not_newline pat = true ->
  contains pat (y ++ nl) = contains pat y.
Proof.
  intros Hne H. induction y as [|b y IH].
  - destruct pat as [|a pat]; [easy|]. simpl in *.
    apply andb_true_iff in H as [Ha _].
    unfold not_newline in Ha. apply negb_true_iff in Ha. rewrite Ha.
    now destruct pat.
  - change (contains pat (String b y ++ nl))
      with (starts_with pat (String b y ++ nl) || contains pat (y ++ nl)).
    rewrite (starts_with_app_nl pat H), IH. reflexivity.
Qed.

Lemma contains_app_r pat x y :
  contains pat y = true -> contains pat (x ++ y) = true.
Proof.
  intros H. induction x as [|a x IH]; [exact H|].
  change (contains pat (String a x ++ y))
    with (starts_with pat (String a (x ++ y)) || contains pat (x ++ y)).
  rewrite IH. apply orb_true_r.
Qed.

Lemma last_char_app x y : y <> "" -> last_char (x ++ y) = last_char y.
Proof.
  intros Hy. induction x as [|a x IH]; [reflexivity|].
  simpl. rewrite IH. destruct (x ++ y) eqn:E; [|reflexivity].
  destruct x; simpl in E; [congruence | discriminate].
Qed.

Lemma repeat_one_fails p c pat :
  (forall i w, starts_with pat w = false -> c i w = None) ->
  forall s i, contains pat s = false -> repeat_one p i s c = None.
Proof.
  intros Hc. induction s as [|a t IH]; intros i H.
  - simpl in *. apply Hc. now rewrite orb_false_r in H.
  - change (contains pat (String a t))
      with (starts_with pat (String a t) || contains pat t) in H.
    apply orb_false_iff in H as [H1 H2]. simpl.
    rewrite (IH _ H2), (Hc _ _ H1). now destruct (char_match p a).
Qed.

Lemma repeat_one_longest p u :
  forall i s c res,
    only (char_match p) u = true ->
    repeat_one p (i + String.length u) s c = Some res ->
    repeat_one p i (u ++ s) c = Some res.
Proof.
  induction u as [|a u IH]; intros i s c res Hall H; simpl in *.
  - now rewrite Nat.add_0_r in H.
  - apply andb_true_iff in Hall as [Ha Hall]. rewrite Ha.
    rewrite Nat.add_succ_r in H. now rewrite (IH (S i) s c res Hall H).
Qed.

(** An optional [name] followed by [c], where the run of the name can go
    on over [c] and into what follows: the name is the one written when
    nothing further on can end a longer name. *)
Lemma run_opt_prefix_last n p c pat' o i w mk k res :
  (forall v, o = Some v -> only (char_match p) v = true) ->
  char_match p c = true ->
  (forall j w' mk', starts_with pat' w' = false -> k j w' mk' = None) ->
  contains (String c pat') w = false ->
  k (i + String.length (with_sep o (String c ""))) w (push n o mk)
  = Some res ->
  run (Opt (Paren (Named n (Star p) ;; lit c))) i
      (with_sep o (String c "") ++ w) mk k = Some res.
Proof.
  intros Ho Hc Hk Hw Hres.
  change (run (Opt (Paren (Named n (Star p) ;; lit c))) i
              (with_sep o (String c "") ++ w) mk k)
    with (match repeat_one p i (with_sep o (String c "") ++ w)
                  (fun i' w' =>
                     run (lit c) i' w'
                         ((n, take (i' - i)
                                (with_sep o (String c "") ++ w)) :: mk) k)
          with
          | Some r => Some r
          | None => k i (with_sep o (String c "") ++ w) mk
          end).
  set (line := with_sep o (String c "") ++ w).
  set (c0 := fun i' w' =>
               run (lit c) i' w' ((n, take (i' - i) line) :: mk) k).
  assert (F : forall j, repeat_one p j w c0 = None).
  { intros j. apply repeat_one_fails with (pat := String c pat'); [|exact Hw].
    intros j' w0 H. unfold c0. destruct w0 as [|a t]; [reflexivity|].
    simpl in *. rewrite Ascii.eqb_sym.
    destruct (Ascii.eqb c a); [|reflexivity]. now apply Hk. }
  destruct o as [v|]; subst line; simpl with_sep in *; simpl push in Hres.
  - rewrite append_assoc.
    rewrite (repeat_one_longest p v i (String c "" ++ w) c0 res);
      [reflexivity | now apply Ho |].
    simpl. rewrite Hc, F. unfold c0. simpl. rewrite Ascii.eqb_refl.
    replace (i + String.length v - i) with (String.length v) by lia.
    rewrite append_assoc, take_append. rewrite <- Hres. f_equal.
    rewrite length_append. simpl. lia.
  - simpl. rewrite F. simpl in Hres. now rewrite Nat.add_0_r in Hres.
Qed.

Lemma lit_needed c pat' r j w mk k :
  (forall j' w' mk', starts_with pat' w' = false -> run r j' w' mk' k = None) ->
  starts_with (String c pat') w = false ->
  run (lit c ;; r) j w mk k = None.
Proof.
  intros Hr H. destruct w as [|a t]; [reflexivity|].
  change (run (lit c ;; r) j (String a t) mk k)
    with (if Ascii.eqb a c then run r (S j) t mk k else None).
  change (starts_with (String c pat') (String a t))
    with (Ascii.eqb c a && starts_with pat' t) in H.
  rewrite Ascii.eqb_sym in H.
  destruct (Ascii.eqb a c); [now apply Hr | reflexivity].
Qed.

Lemma dash_strict_needed r j w mk k :
  starts_with "- " w = false ->
  run (lit "-" ;; lit " " ;; r) j w mk k = None.
Proof.
  apply lit_needed. intros j' w' mk'. apply lit_needed. discriminate.
Qed.

Lemma dash_loose_needed r j w mk k :
  starts_with "-" w = false -> run (lit "-" ;; r) j w mk k = None.
Proof. apply lit_needed. discriminate. Qed.

Lemma only_not_tab v :
  only not_tab v = true -> only (char_match (Not_in [Item tab])) v = true.
Proof.
  intros <-. apply PieceFacts.only_ext. intros a. unfold not_tab. simpl.
  now rewrite orb_false_r.
Qed.

Lemma only_any v :
  only not_newline v = true -> only (char_match Any) v = true.
Proof. intros <-. now apply PieceFacts.only_ext. Qed.

Lemma no_dash_after strict note :
  contains (dash strict) (" " ++ txt note) = false ->
  contains (dash strict) ("- " ++ txt note ++ nl) = false.
Proof.
  intros H.
  change ("- " ++ txt note ++ nl)
    with (String "-"%char ((" " ++ txt note) ++ nl)).
  change (contains (dash strict) (String "-"%char ((" " ++ txt note) ++ nl)))
    with (starts_with (dash strict)
                      (String "-"%char ((" " ++ txt note) ++ nl))
          || contains (dash strict) ((" " ++ txt note) ++ nl)).
  rewrite contains_app_nl, H; destruct strict; try reflexivity; discriminate.
Qed.

Ltac next L := rewrite GreedyFacts.run_seq; apply L; cbv beta.

Lemma group_tail_match (strict : bool) i note mk :
  (forall v, note = Some v -> v <> "" /\ only not_newline v = true) ->
  run (if strict
       then lit "-" ;; lit " " ;; Opt (Named "note" (Plus Any)) ;;
            lit newline ;; At_end
       else lit "-" ;; Opt (lit " ") ;; Opt (Named "note" (Plus Any)) ;;
            lit newline ;; At_end)
      i ("- " ++ txt note ++ nl) mk
      (fun _ w mk => if String.eqb w "" then Some mk else None)
  = Some (push "note" note mk).
Proof.
  intros Hnote.
  assert (Hn : forall v, note = Some v ->
                         v <> "" /\ only (char_match Any) v = true).
  { intros v E. destruct (Hnote v E). auto using only_any. }
  destruct strict.
  - next GreedyFacts.run_lit. next GreedyFacts.run_lit.
    next GreedyFacts.run_opt_named_plus; [exact Hn | reflexivity |].
    next GreedyFacts.run_lit. reflexivity.
  - next GreedyFacts.run_lit. next GreedyFacts.run_opt_lit.
    next GreedyFacts.run_opt_named_plus; [exact Hn | reflexivity |].
    next GreedyFacts.run_lit. reflexivity.
Qed.

Lemma group_line_match strict name note :
  (forall v, name = Some v -> only not_tab v = true) ->
  (forall v, note = Some v -> v <> "" /\ only not_newline v = true) ->
  contains (dash strict) (" " ++ txt note) = false ->
  fullmatch (group_re strict) (group_line name note)
  = Some (push "note" note (push "name" name [])).
Proof.
  intros Hname Hnote Hdash. apply no_dash_after in Hdash.
  pose proof (group_tail_match strict) as T.
  unfold fullmatch, group_line.
  destruct strict; unfold group_re, GROUP_RE_STRICT, GROUP_RE_LOOSE;
    rewrite GreedyFacts.run_seq, GreedyFacts.run_bol; cbv beta;
    rewrite GreedyFacts.run_seq.
  - apply run_opt_prefix_last with (pat' := "- ");
      [auto using only_not_tab | reflexivity | | exact Hdash |].
    + intros j w' mk'. apply dash_strict_needed.
    + now apply (T _ note).
  - apply run_opt_prefix_last with (pat' := "-");
      [auto using only_not_tab | reflexivity | | exact Hdash |].
    + intros j w' mk'. apply dash_loose_needed.
    + now apply (T _ note).
Qed.

Lemma team_line_match strict name note :
  (forall v, name = Some v -> only not_tab v = true) ->
  (forall v, note = Some v -> v <> "" /\ only not_newline v = true) ->
  contains (dash strict) (" " ++ txt note) = false ->
  fullmatch (team_re strict) (team_line name note)
  = Some (push "note" note (push "name" name [])).
Proof.
  intros Hname Hnote Hdash. apply no_dash_after in Hdash.
  pose proof (group_tail_match strict) as T.
  unfold fullmatch, team_line, group_line.
  destruct strict; unfold team_re, TEAM_RE_STRICT, TEAM_RE_LOOSE;
    rewrite GreedyFacts.run_seq, GreedyFacts.run_bol; cbv beta;
    next GreedyFacts.run_lit; rewrite GreedyFacts.run_seq.
  - apply run_opt_prefix_last with (pat' := "- ");
      [auto using only_not_tab | reflexivity | | exact Hdash |].
    + intros j w' mk'. apply dash_strict_needed.
    + now apply (T _ note).
  - apply run_opt_prefix_last with (pat' := "-");
      [auto using only_not_tab | reflexivity | | exact Hdash |].
    + intros j w' mk'. apply dash_loose_needed.
    + now apply (T _ note).
Qed.

Lemma only_class (f : ascii -> bool) p v :
  (forall a, char_match p a = f a) ->
  only f v = true -> only (char_match p) v = true.
Proof. intros E <-. now apply PieceFacts.only_ext. Qed.

Lemma field_class (f : ascii -> bool) p (o : option string) :
  (forall a, char_match p a = f a) ->
  (forall v, o = Some v -> v <> "" /\ only f v = true) ->
  forall v, o = Some v -> v <> "" /\ only (char_match p) v = true.
Proof.
  intros E H v Ev. destruct (H v Ev). eauto using only_class.
Qed.

Lemma player_line_match strict reg sur nm dob note sp :
  (forall v, reg = Some v -> only is_digit v = true) ->
  (forall v, sur = Some v -> v <> "" /\ only not_space_or_comma v = true) ->
  (forall v, nm = Some v -> v <> "" /\ only not_comma v = true) ->
  (forall v, dob = Some v -> v <> "" /\ only is_digit_or_dot v = true) ->
  (forall v, note = Some v -> v <> "" /\ only not_newline v = true) ->
  sp <> "" -> only is_space sp = true ->
  fullmatch (player_re strict) (player_line reg sur nm dob note sp)
  = Some (push "note" note (push "date_of_birth" dob (push "name" nm
            (push "surname" sur (push "registration_number" reg []))))).
Proof.
  intros Hreg Hsur Hnm Hdob Hnote Hne Hsp.
  assert (Hreg' : forall v, reg = Some v ->
                            only (char_match (In [Category_digit])) v = true).
  { intros v E. apply only_class with (f := is_digit); [|now apply Hreg].
    intros a. simpl. now rewrite orb_false_r. }
  assert (Hsur' := field_class not_space_or_comma
                     (Not_in [Item " "; Item ","]) sur).
  assert (Hnm' := field_class not_comma (Not_in [Item ","]) nm).
  assert (Hdob' := field_class is_digit_or_dot
                     (In [Category_digit; Item "."]) dob).
  assert (Hnote' := field_class not_newline Any note (fun a => eq_refl) Hnote).
  specialize (Hsur' ltac:(intros a; unfold not_space_or_comma; simpl;
                          now rewrite orb_false_r) Hsur).
  specialize (Hnm' ltac:(intros a; unfold not_comma; simpl;
                         now rewrite orb_false_r) Hnm).
  specialize (Hdob' ltac:(intros a; unfold is_digit_or_dot; simpl;
                          now rewrite orb_false_r) Hdob).
  apply (only_class is_space (Literal " ") sp) in Hsp; [|reflexivity].
  assert (S : fullmatch PLAYER_RE_STRICT
                        (player_line reg sur nm dob note sp)
              = Some (push "note" note (push "date_of_birth" dob
                        (push "name" nm (push "surname" sur
                           (push "registration_number" reg [])))))).
  { unfold fullmatch, PLAYER_RE_STRICT, player_line.
    rewrite GreedyFacts.run_seq, GreedyFacts.run_bol. cbv beta.
    next GreedyFacts.run_lit. next GreedyFacts.run_lit.
    next GreedyFacts.run_opt_prefix;
      [exact Hreg' | reflexivity | intros _; split; reflexivity |].
    next GreedyFacts.run_lit. next GreedyFacts.run_lit.
    next GreedyFacts.run_opt_named_plus; [exact Hsur' | reflexivity |].
    next GreedyFacts.run_lit.
    next GreedyFacts.run_opt_named_plus; [exact Hnm' | reflexivity |].
    next GreedyFacts.run_lit. next GreedyFacts.run_lit.
    next GreedyFacts.run_opt_named_plus;
      [exact Hdob' | now apply GreedyFacts.stops_run |].
    next GreedyFacts.run_plus_greedy; [exact Hne | exact Hsp | reflexivity |].
    next GreedyFacts.run_lit. next GreedyFacts.run_lit.
    next GreedyFacts.run_opt_named_plus; [exact Hnote' | reflexivity |].
    next GreedyFacts.run_lit. reflexivity. }
  destruct strict; [exact S | now apply Claims.strict_player_in_loose].
Qed.

End LineFacts.

(** ** What every accepted line looks like *)

Module ShapeFacts.
Import Re DtbReader.

Lemma last_char_cons a x c :
  last_char x = Some c -> last_char (String a x) = Some c.
Proof. destruct x; [discriminate | now intros <-]. Qed.

Lemma last_char_after y x c :
  last_char x = Some c -> last_char (y ++ x) = Some c.
Proof.
  intros H. rewrite LineFacts.last_char_app; [exact H|].
  now destruct x.
Qed.

Lemma contains_cons pat a x :
  contains pat x = true -> contains pat (String a x) = true.
Proof.
  intros H.
  change (contains pat (String a x))
    with (starts_with pat (String a x) || contains pat x).
  rewrite H. apply orb_true_r.
Qed.

Lemma contains_dash x : contains "-" (String "-"%char x) = true.
Proof.
  change (contains "-" (String "-"%char x))
    with (Ascii.eqb "-" "-" && true || contains "-" x).
  reflexivity.
Qed.

(** A line that any of the six patterns matches ends with a newline and
    holds a dash. *)
Lemma accepted_line strict line :
  group_shaped strict line = true \/ team_shaped strict line = true \/
  player_shaped strict line = true ->
  last_char line = Some newline /\ contains "-" line = true.
Proof.
  unfold group_shaped, team_shaped, player_shaped.
  intros [H | [H | H]]; apply ReaderFacts.is_some_true in H as (m & H);
    apply ReFacts.fullmatch_sound in H.
  - apply PieceFacts.group_inv in H as (name & note & sep & -> & _). split.
    + repeat apply last_char_after. reflexivity.
    + apply LineFacts.contains_app_r, contains_dash.
  - apply PieceFacts.team_inv in H as (name & note & sep & -> & _). split.
    + apply last_char_cons. repeat apply last_char_after. reflexivity.
    + apply contains_cons, LineFacts.contains_app_r, contains_dash.
  - apply PieceFacts.player_inv in H
      as (reg & sur & nm & dob & note & s1 & sp & s2 & -> & _). split.
    + do 2 apply last_char_cons. repeat apply last_char_after. reflexivity.
    + do 2 apply contains_cons.
      apply LineFacts.contains_app_r, contains_dash.
Qed.

Lemma not_shaped {A : Type} (o : option A) : is_some o = false -> o = None.
Proof. destruct o; [discriminate | reflexivity]. Qed.

Lemma unknown_of_no_shape self line strict :
  group_shaped strict line = false ->
  team_shaped strict line = false ->
  player_shaped strict line = false ->
  read self line strict = (inl (UnknownLineType line), self).
Proof.
  intros G T P. apply ReaderFacts.read_unknown; now apply not_shaped.
Qed.

Lemma player_rejects_three_tabs strict t :
  fullmatch (player_re strict) (String tab (String tab (String tab t)))
  = None.
Proof. destruct strict; reflexivity. Qed.

End ShapeFacts.

(** ** Every field of an accepted line *)

Module FieldFacts.
Import Re DtbReader PieceFacts.

Lemma class_only (f : ascii -> bool) p v :
  (forall a, char_match p a = f a) ->
  only (char_match p) v = true -> only f v = true.
Proof. intros E <-. symmetry. now apply only_ext. Qed.

Lemma name_note_inv (strict : bool) i line w m :
  matches (Opt (Paren (Named "name" (Star (Not_in [Item tab])) ;; lit " ")) ;;
           (if strict
            then lit "-" ;; lit " " ;; Opt (Named "note" (Plus Any)) ;;
                 lit newline ;; At_end
            else lit "-" ;; Opt (lit " ") ;; Opt (Named "note" (Plus Any)) ;;
                 lit newline ;; At_end))%re i line w [] m ->
  exists name note sep,
    line = with_sep name " " ++ "-" ++ sep ++ txt note ++ nl /\
    m = push "note" note (push "name" name []) /\
    (sep = " " \/ strict = false /\ sep = "") /\
    (forall v, name = Some v -> only not_tab v = true) /\
    (forall v, note = Some v -> v <> "" /\ only not_newline v = true).
Proof.
  intros H.
  assert (T : forall a, char_match (Not_in [Item tab]) a = not_tab a).
  { intros a. unfold not_tab. simpl. now rewrite orb_false_r. }
  destruct strict.
  - field H name Hname. do 2 piece H. field H note Hnote. piece H.
    apply eol_inv in H as (-> & ->).
    exists name, note, " ". split; [reflexivity|]. split; [reflexivity|].
    split; [now left|]. split.
    + intros v E. eapply class_only; eauto.
    + intros v E. destruct (Hnote v E). split; [assumption|].
      eapply class_only; eauto. reflexivity.
  - field H name Hname. piece H. optional H sep Hsep. field H note Hnote.
    piece H. apply eol_inv in H as (-> & ->).
    exists name, note, sep. split; [reflexivity|]. split; [reflexivity|].
    split; [destruct Hsep; auto|]. split.
    + intros v E. eapply class_only; eauto.
    + intros v E. destruct (Hnote v E). split; [assumption|].
      eapply class_only; eauto. reflexivity.
Qed.

Lemma group_fields_inv strict line m :
  fullmatch (group_re strict) line = Some m ->
  exists name note sep,
    line = with_sep name " " ++ "-" ++ sep ++ txt note ++ nl /\
    m = push "note" note (push "name" name []) /\
    (sep = " " \/ strict = false /\ sep = "") /\
    (forall v, name = Some v -> only not_tab v = true) /\
    (forall v, note = Some v -> v <> "" /\ only not_newline v = true).
Proof.
  intros H. apply ReFacts.fullmatch_sound in H.
  destruct strict; unfold group_re, GROUP_RE_STRICT, GROUP_RE_LOOSE in H;
    piece H;
    [apply (name_note_inv true) in H | apply (name_note_inv false) in H];
    exact H.
Qed.

Lemma team_fields_inv strict line m :
  fullmatch (team_re strict) line = Some m ->
  exists name note sep,
    line = tb ++ with_sep name " " ++ "-" ++ sep ++ txt note ++ nl /\
    m = push "note" note (push "name" name []) /\
    (sep = " " \/ strict = false /\ sep = "") /\
    (forall v, name = Some v -> only not_tab v = true) /\
    (forall v, note = Some v -> v <> "" /\ only not_newline v = true).
Proof.
  intros H. apply ReFacts.fullmatch_sound in H.
  destruct strict; unfold team_re, TEAM_RE_STRICT, TEAM_RE_LOOSE in H;
    do 2 piece H;
    [apply (name_note_inv true) in H | apply (name_note_inv false) in H];
    destruct H as (name & note & sep & -> & H); exists name, note, sep;
    (split; [reflexivity | exact H]).
Qed.

Lemma player_fields_inv strict line m :
  fullmatch (player_re strict) line = Some m ->
  exists reg sur nm dob note,
    m = push "note" note (push "date_of_birth" dob (push "name" nm
          (push "surname" sur (push "registration_number" reg [])))) /\
    (forall v, sur = Some v ->
       v <> "" /\ only not_space_or_comma v = true) /\
    (forall v, nm = Some v -> v <> "" /\ only not_comma v = true) /\
    (forall v, dob = Some v -> v <> "") /\
    (forall v, note = Some v -> v <> "" /\ only not_newline v = true).
Proof.
  intros H. apply ReFacts.fullmatch_sound in H.
  assert (C1 : forall a, char_match (Not_in [Item " "; Item ","]) a
                         = not_space_or_comma a).
  { intros a. unfold not_space_or_comma. simpl. now rewrite orb_false_r. }
  assert (C2 : forall a, char_match (Not_in [Item ","]) a = not_comma a).
  { intros a. unfold not_comma. simpl. now rewrite orb_false_r. }
  assert (G : forall reg sur nm dob note,
            (forall v, sur = Some v ->
               v <> "" /\
               only (char_match (Not_in [Item " "; Item ","])) v = true) ->
            (forall v, nm = Some v ->
               v <> "" /\ only (char_match (Not_in [Item ","])) v = true) ->
            (forall v, dob = Some v ->
               v <> "" /\
               only (char_match (In [Category_digit; Item "."])) v = true) ->
            (forall v, note = Some v ->
               v <> "" /\ only (char_match Any) v = true) ->
            exists reg' sur' nm' dob' note',
              push "note" note (push "date_of_birth" dob (push "name" nm
                (push "surname" sur (push "registration_number" reg [])))) =
              push "note" note' (push "date_of_birth" dob' (push "name" nm'
                (push "surname" sur' (push "registration_number" reg' []))))
              /\
              (forall v, sur' = Some v ->
                 v <> "" /\ only not_space_or_comma v = true) /\
              (forall v, nm' = Some v -> v <> "" /\ only not_comma v = true)
              /\
              (forall v, dob' = Some v -> v <> "") /\
              (forall v, note' = Some v ->
                 v <> "" /\ only not_newline v = true)).
  { intros reg sur nm dob note Hs Hn Hd Ht.
    exists reg, sur, nm, dob, note. split; [reflexivity|].
    split; [intros v E; destruct (Hs v E); eauto using class_only|].
    split; [intros v E; destruct (Hn v E); eauto using class_only|].
    split; [intros v E; now destruct (Hd v E)|].
    intros v E. destruct (Ht v E). split; [assumption|].
    eapply class_only; eauto. reflexivity. }
  destruct strict; unfold player_re, PLAYER_RE_STRICT, PLAYER_RE_LOOSE in H.
  - do 3 piece H. field H reg Hreg. do 2 piece H. field H sur Hsur.
    piece H. field H nm Hnm. do 2 piece H. field H dob Hdob.
    run_of H sp Hne Hsp. do 2 piece H. field H note Hnote. piece H.
    apply eol_inv in H as (_ & ->). now apply G.
  - do 3 piece H. field H reg Hreg. do 2 piece H. field H sur Hsur.
    piece H. field H nm Hnm. optional H c1 Hc1. optional H s1 Hs1.
    field H dob Hdob. run_of H sp Hne Hsp.
    optional H c2 Hc2. optional H s2 Hs2. field H note Hnote. piece H.
    apply eol_inv in H as (_ & ->). now apply G.
Qed.

End FieldFacts.

(** ** Strict and loose, field by field *)

Module Modes.
Import Re DtbReader ReaderFacts.

Lemma note_of_pushes name note :
  group (push "note" note (push "name" name [])) "note" = note.
Proof. destruct name, note; reflexivity. Qed.

(** A line the strict Group pattern matches is matched by the loose one
    with the same marks when nothing in the note can end a longer name. *)
Lemma strict_group_in_loose line m :
  fullmatch GROUP_RE_STRICT line = Some m ->
  contains " -" (" " ++ txt (group m "note")) = false ->
  fullmatch GROUP_RE_LOOSE line = Some m.
Proof.
  intros H D.
  apply (FieldFacts.group_fields_inv true) in H
    as (name & note & sep & -> & -> & [-> | [? _]] & Hname & Hnote);
    [|discriminate].
  rewrite note_of_pushes in D.
  exact (LineFacts.group_line_match false name note Hname Hnote D).
Qed.

Lemma strict_team_in_loose line m :
  fullmatch TEAM_RE_STRICT line = Some m ->
  contains " -" (" " ++ txt (group m "note")) = false ->
  fullmatch TEAM_RE_LOOSE line = Some m.
Proof.
  intros H D.
  apply (FieldFacts.team_fields_inv true) in H
    as (name & note & sep & -> & -> & [-> | [? _]] & Hname & Hnote);
    [|discriminate].
  rewrite note_of_pushes in D.
  exact (LineFacts.team_line_match false name note Hname Hnote D).
Qed.

Lemma read_returns_group self line strict g :
  fst (read self line strict) = inr (AGroup g) ->
  exists m, fullmatch (group_re strict) line = Some m /\ g = group_of m.
Proof.
  unfold read.
  destruct (fullmatch (group_re strict) line) as [m|];
    [simpl; intros [= <-]; eauto|].
  destruct (fullmatch (team_re strict) line);
    [destruct (current_group self); discriminate|].
  destruct (fullmatch (player_re strict) line);
    [destruct (current_team self)|]; discriminate.
Qed.

Lemma read_returns_team self line strict t :
  fst (read self line strict) = inr (ATeam t) ->
  exists m g,
    fullmatch (team_re strict) line = Some m /\
    current_group self = Some g /\ t = team_of m g.
Proof.
  unfold read.
  destruct (fullmatch (group_re strict) line); [discriminate|].
  destruct (fullmatch (team_re strict) line) as [m|].
  - destruct (current_group self) as [g|]; [|discriminate].
    simpl. intros [= <-]. eauto.
  - destruct (fullmatch (player_re strict) line);
      [destruct (current_team self)|]; discriminate.
Qed.

Lemma read_returns_player self line strict p :
  fst (read self line strict) = inr (APlayer p) ->
  exists m, fullmatch (player_re strict) line = Some m.
Proof.
  unfold read.
  destruct (fullmatch (group_re strict) line); [discriminate|].
  destruct (fullmatch (team_re strict) line);
    [destruct (current_group self); discriminate|].
  destruct (fullmatch (player_re strict) line) as [m|]; [eauto|].
  discriminate.
Qed.

(** C2, as the code has it.  A line that has the shape of a Group, a Team
    or a Player in strict mode has the same shape in loose mode, and a call
    of [read] that returns an entity in strict mode returns an entity of
    the same kind in loose mode.  For a Player line the fields are the same
    in both modes: the loose pattern matches with the marks of the strict
    one, and [read] returns the same Player and leaves the same state.  For
    a Group or a Team line the same holds whenever the note that strict
    mode captures does not begin with "-" and does not hold " -": then
    [read] returns the same entity, with the same name and note, and leaves
    the same state in both modes.  (When the note holds " -", the name and
    the note may differ.)  A structural error raised in strict mode is
    raised in loose mode for the same state and line; one raised in loose
    mode is, in strict mode, either the same error or [UnknownLineType]. *)
Theorem loose_extends_strict (self : DtbReader.t) (line : string) :
  (group_shaped true line = true -> group_shaped false line = true) /\
  (team_shaped true line = true -> team_shaped false line = true) /\
  (player_shaped true line = true -> player_shaped false line = true) /\
  (forall e, fst (read self line true) = inr e ->
             exists e', fst (read self line false) = inr e' /\
                        kind_of e' = kind_of e) /\
  (forall m, fullmatch (player_re true) line = Some m ->
             fullmatch (player_re false) line = Some m) /\
  (forall p, fst (read self line true) = inr (APlayer p) ->
             fst (read self line false) = inr (APlayer p)) /\
  (fst (read self line true) = inl (TeamWithoutGroup line) ->
   fst (read self line false) = inl (TeamWithoutGroup line)) /\
  (fst (read self line true) = inl (PlayerWithoutTeam line) ->
   fst (read self line false) = inl (PlayerWithoutTeam line)) /\
  (fst (read self line false) = inl (TeamWithoutGroup line) ->
   fst (read self line true) = inl (TeamWithoutGroup line) \/
   fst (read self line true) = inl (UnknownLineType line)) /\
  (fst (read self line false) = inl (PlayerWithoutTeam line) ->
   fst (read self line true) = inl (PlayerWithoutTeam line) \/
   fst (read self line true) = inl (UnknownLineType line)) /\
  (forall g, fst (read self line true) = inr (AGroup g) ->
             contains " -" (" " ++ txt (Group.note g)) = false ->
             read self line false = read self line true) /\
  (forall t, fst (read self line true) = inr (ATeam t) ->
             contains " -" (" " ++ txt (Team.note t)) = false ->
             read self line false = read self line true) /\
  (forall p, fst (read self line true) = inr (APlayer p) ->
             read self line false = read self line true).
Proof.
  destruct Claims.strict_is_looser as (LG & LT & LP).
  assert (G : group_shaped true line = true -> group_shaped false line = true)
    by apply (Claims.looser_accepts _ _ line LG).
  assert (T : team_shaped true line = true -> team_shaped false line = true)
    by apply (Claims.looser_accepts _ _ line LT).
  assert (P : player_shaped true line = true ->
              player_shaped false line = true)
    by apply (Claims.looser_accepts _ _ line LP).
  split; [exact G|]. split; [exact T|]. split; [exact P|].
  split; [|split; [|split; [|split; [|split; [|split; [|split;
    [|split; [|split]]]]]]]].
  - intros e H. apply Claims.returns_of_shape in H.
    apply Claims.shape_returns. destruct (kind_of e); intuition.
  - exact (Claims.strict_player_in_loose line).
  - intros p H. pose proof (Claims.returns_of_shape _ _ _ _ H) as [S _].
    simpl in S. apply is_some_true in S as (m & S).
    rewrite (read_player self _ _ _ S) in H.
    rewrite (read_player self line false m
               (Claims.strict_player_in_loose _ _ S)).
    exact H.
  - intros H. apply Claims.raises_TeamWithoutGroup in H as [H E].
    apply Claims.raises_TeamWithoutGroup. auto.
  - intros H. apply Claims.raises_PlayerWithoutTeam in H as [H E].
    apply Claims.raises_PlayerWithoutTeam. auto.
  - intros H. apply Claims.raises_TeamWithoutGroup in H as [H E].
    destruct (team_shaped true line) eqn:S.
    + left. apply Claims.raises_TeamWithoutGroup. auto.
    + right. apply Claims.unknown_in_strict. auto.
  - intros H. apply Claims.raises_PlayerWithoutTeam in H as [H E].
    destruct (player_shaped true line) eqn:S.
    + left. apply Claims.raises_PlayerWithoutTeam. auto.
    + right. apply Claims.unknown_in_strict. auto.
  - intros g H D. apply read_returns_group in H as (m & S & ->).
    simpl in D.
    rewrite (read_group self line true m S).
    now rewrite (read_group self line false m (strict_group_in_loose _ _ S D)).
  - intros t H D. apply read_returns_team in H as (m & g & S & E & ->).
    simpl in D.
    rewrite (read_team self line true m S).
    now rewrite (read_team self line false m (strict_team_in_loose _ _ S D)).
  - intros p H. apply read_returns_player in H as (m & S).
    rewrite (read_player self line true m S).
    now rewrite (read_player self line false m
                   (Claims.strict_player_in_loose _ _ S)).
Qed.

Lemma loose_extends_strict_witness :
  fst (read {| current_group := Some example_group;
               current_team := Some example_team |}
            (tb ++ tb
                ++ "00001234 - player_surname player_name, 01.01.1900 , player_note"
                ++ nl) false)
  = inr (APlayer example_player) /\
  fst (read init (tb ++ "team - note" ++ nl) false)
  = inl (TeamWithoutGroup (tb ++ "team - note" ++ nl)) /\
  read init ("a - b - c-d" ++ nl) false
  = read init ("a - b - c-d" ++ nl) true /\
  read {| current_group := Some example_group; current_team := None |}
       (tb ++ "- n - " ++ nl) false
  = read {| current_group := Some example_group; current_team := None |}
         (tb ++ "- n - " ++ nl) true.
Proof.
  split; [|split; [|split]].
  - destruct (loose_extends_strict
                {| current_group := Some example_group;
                   current_team := Some example_team |}
                (tb ++ tb
                    ++ "00001234 - player_surname player_name, 01.01.1900 , player_note"
                    ++ nl)) as (_ & _ & _ & _ & _ & H & _).
    apply H. reflexivity.
  - destruct (loose_extends_strict init (tb ++ "team - note" ++ nl))
      as (_ & _ & _ & _ & _ & _ & H & _).
    apply H. reflexivity.
  - destruct (loose_extends_strict init ("a - b - c-d" ++ nl))
      as (_ & _ & _ & _ & _ & _ & _ & _ & _ & _ & H & _).
    apply (H (Group.Build (Some "a - b") (Some "c-d"))); reflexivity.
  - destruct (loose_extends_strict
                {| current_group := Some example_group; current_team := None |}
                (tb ++ "- n - " ++ nl))
      as (_ & _ & _ & _ & _ & _ & _ & _ & _ & _ & _ & H & _).
    apply (H (Team.Build (Some "- n") None example_group)); reflexivity.
Defined.

End Modes.

(** ** The properties *)

Module More.
Import Re DtbReader.

Lemma captures_of_name_note name note :
  group_of (push "note" note (push "name" name [])) = Group.Build name note.
Proof. destruct name, note; reflexivity. Qed.

(** X1. A Group line written from a name without tabs and a note without
    newlines ("name - note" and the newline, either part may be absent) is
    read back as the Group with that name and that note, in every state; it
    becomes the current group and no team is current.  The note must not
    hold what ends a name (" - " in strict mode, " -" in loose mode), also
    not by starting with the dash. *)
Theorem read_group_line
    (self : DtbReader.t) (strict : bool) (name note : option string) :
  (forall v, name = Some v -> only not_tab v = true) ->
  (forall v, note = Some v -> v <> "" /\ only not_newline v = true) ->
  contains (dash strict) (" " ++ txt note) = false ->
  read self (group_line name note) strict
  = (inr (AGroup (Group.Build name note)),
     {| current_group := Some (Group.Build name note);
        current_team := None |}).
Proof.
  intros Hname Hnote Hdash.
  rewrite (ReaderFacts.read_group self _ _ _
             (LineFacts.group_line_match strict name note Hname Hnote Hdash)).
  now rewrite captures_of_name_note.
Qed.

Lemma read_group_line_witness :
  read init ("a - b - c-d" ++ nl) true
  = (inr (AGroup (Group.Build (Some "a - b") (Some "c-d"))),
     {| current_group := Some (Group.Build (Some "a - b") (Some "c-d"));
        current_team := None |}).
Proof.
  apply (read_group_line init true (Some "a - b") (Some "c-d")).
  - intros v [= <-]. reflexivity.
  - intros v [= <-]. split; [discriminate | reflexivity].
  - reflexivity.
Defined.

(** X2. A Team line written the same way, after a tab, is read back as the
    Team with that name and note whose group is the current group; the team
    becomes current and the current group stays. *)
Theorem read_team_line
    (self : DtbReader.t) (strict : bool) (name note : option string)
    (g : Group.t) :
  (forall v, name = Some v -> only not_tab v = true) ->
  (forall v, note = Some v -> v <> "" /\ only not_newline v = true) ->
  contains (dash strict) (" " ++ txt note) = false ->
  current_group self = Some g ->
  read self (team_line name note) strict
  = (inr (ATeam (Team.Build name note g)),
     {| current_group := Some g;
        current_team := Some (Team.Build name note g) |}).
Proof.
  intros Hname Hnote Hdash Hg.
  rewrite (ReaderFacts.read_team self _ _ _
             (LineFacts.team_line_match strict name note Hname Hnote Hdash)).
  rewrite Hg. unfold team_of.
  pose proof (captures_of_name_note name note) as E. unfold group_of in E.
  injection E as -> ->. reflexivity.
Qed.

Lemma read_team_line_witness :
  read {| current_group := Some example_group; current_team := None |}
       (tb ++ "t" ++ " " ++ "- " ++ "" ++ nl) false
  = (inr (ATeam (Team.Build (Some "t") None example_group)),
     {| current_group := Some example_group;
        current_team := Some (Team.Build (Some "t") None example_group) |}).
Proof.
  apply (read_team_line
           {| current_group := Some example_group; current_team := None |}
           false (Some "t") None example_group).
  - intros v [= <-]. reflexivity.
  - discriminate.
  - reflexivity.
  - reflexivity.
Defined.

(** X3. A Player line written from its fields (a registration number of
    digits, a surname without spaces and commas, a name without commas, a
    date of digits and dots, a note without newlines, each of them
    optional, with ", " as separators and one or more spaces after the
    date) is read back, in both modes, as the Player with exactly these
    fields and the current team as its team; the state stays. *)
Theorem read_player_line
    (self : DtbReader.t) (strict : bool)
    (reg sur nm dob note : option string) (sp : string) (t : Team.t) :
  (forall v, reg = Some v -> only is_digit v = true) ->
  (forall v, sur = Some v -> v <> "" /\ only not_space_or_comma v = true) ->
  (forall v, nm = Some v -> v <> "" /\ only not_comma v = true) ->
  (forall v, dob = Some v -> v <> "" /\ only is_digit_or_dot v = true) ->
  (forall v, note = Some v -> v <> "" /\ only not_newline v = true) ->
  sp <> "" -> only is_space sp = true ->
  current_team self = Some t ->
  read self (player_line reg sur nm dob note sp) strict
  = (inr (APlayer (Player.Build reg nm sur dob note t)), self).
Proof.
  intros Hreg Hsur Hnm Hdob Hnote Hne Hsp Ht.
  rewrite (ReaderFacts.read_player self _ _ _
             (LineFacts.player_line_match strict reg sur nm dob note sp
                Hreg Hsur Hnm Hdob Hnote Hne Hsp)).
  rewrite Ht. unfold player_of.
  destruct (Claims.captures_of_pushes reg sur nm dob note)
    as (E1 & E2 & E3 & E4 & E5).
  cbv zeta in E1, E2, E3, E4, E5. now rewrite E1, E2, E3, E4, E5.
Qed.

Lemma read_player_line_witness :
  read {| current_group := Some example_group;
          current_team := Some example_team |}
       (player_line (Some "12") None (Some "van der Berg") None
                    (Some "a, b") "  ") false
  = (inr (APlayer (Player.Build (Some "12") (Some "van der Berg") None None
                                (Some "a, b") example_team)),
     {| current_group := Some example_group;
        current_team := Some example_team |}).
Proof.
  apply (read_player_line
           {| current_group := Some example_group;
              current_team := Some example_team |} false
           (Some "12") None (Some "van der Berg") None (Some "a, b") "  "
           example_team);
    try discriminate; try reflexivity;
    intros v [= <-]; try split; try discriminate; reflexivity.
Defined.

(** X4. A line that does not end with a newline, such as the last line of
    a file without a final newline, raises [UnknownLineType] in every state
    and in both modes, and leaves the state as it was. *)
Theorem read_needs_newline
    (self : DtbReader.t) (line : string) (strict : bool) :
  last_char line <> Some newline ->
  read self line strict = (inl (UnknownLineType line), self).
Proof.
  intros H. apply ShapeFacts.unknown_of_no_shape.
  - destruct (group_shaped strict line) eqn:E; [|reflexivity].
    destruct (ShapeFacts.accepted_line strict line); auto. congruence.
  - destruct (team_shaped strict line) eqn:E; [|reflexivity].
    destruct (ShapeFacts.accepted_line strict line); auto. congruence.
  - destruct (player_shaped strict line) eqn:E; [|reflexivity].
    destruct (ShapeFacts.accepted_line strict line); auto. congruence.
Qed.

Lemma read_needs_newline_witness :
  read init "group_name - group_note" false
  = (inl (UnknownLineType "group_name - group_note"), init).
Proof.
  apply (read_needs_newline init "group_name - group_note" false).
  discriminate.
Defined.

(** X5. A line without a dash, such as an empty line, raises
    [UnknownLineType] in every state and in both modes. *)
Theorem read_needs_dash
    (self : DtbReader.t) (line : string) (strict : bool) :
  contains "-" line = false ->
  read self line strict = (inl (UnknownLineType line), self).
Proof.
  intros H. apply ShapeFacts.unknown_of_no_shape.
  - destruct (group_shaped strict line) eqn:E; [|reflexivity].
    destruct (ShapeFacts.accepted_line strict line); auto. congruence.
  - destruct (team_shaped strict line) eqn:E; [|reflexivity].
    destruct (ShapeFacts.accepted_line strict line); auto. congruence.
  - destruct (player_shaped strict line) eqn:E; [|reflexivity].
    destruct (ShapeFacts.accepted_line strict line); auto. congruence.
Qed.

Lemma read_needs_dash_witness :
  read {| current_group := Some example_group;
          current_team := Some example_team |} nl true
  = (inl (UnknownLineType nl),
     {| current_group := Some example_group;
        current_team := Some example_team |}).
Proof.
  apply (read_needs_dash
           {| current_group := Some example_group;
              current_team := Some example_team |} nl true).
  reflexivity.
Defined.

(** X6. A line indented by three tabs or more raises [UnknownLineType] in
    every state and in both modes. *)
Theorem read_rejects_three_tabs
    (self : DtbReader.t) (rest : string) (strict : bool) :
  read self (tb ++ tb ++ tb ++ rest) strict
  = (inl (UnknownLineType (tb ++ tb ++ tb ++ rest)), self).
Proof.
  apply ReaderFacts.read_unknown.
  - apply ReaderFacts.group_rejects_tab.
  - apply ReaderFacts.team_rejects_two_tabs.
  - apply ShapeFacts.player_rejects_three_tabs.
Qed.

(** X7. No line has two shapes, whatever the modes: the order in which
    [read] tries the three patterns does not matter. *)
Theorem shapes_exclude (line : string) (s1 s2 s3 : bool) :
  (group_shaped s1 line = true ->
   team_shaped s2 line = false /\ player_shaped s3 line = false) /\
  (team_shaped s2 line = true ->
   group_shaped s1 line = false /\ player_shaped s3 line = false) /\
  (player_shaped s3 line = true ->
   group_shaped s1 line = false /\ team_shaped s2 line = false).
Proof.
  assert (TG : team_shaped s2 line = true -> group_shaped s1 line = false).
  { unfold team_shaped, group_shaped. intros H.
    apply ReaderFacts.is_some_true in H as (m & H).
    apply ReaderFacts.team_starts_with_tab in H as (t & ->).
    now rewrite ReaderFacts.group_rejects_tab. }
  assert (PG : player_shaped s3 line = true -> group_shaped s1 line = false).
  { unfold player_shaped, group_shaped. intros H.
    apply ReaderFacts.is_some_true in H as (m & H).
    apply ReaderFacts.player_starts_with_two_tabs in H as (t & ->).
    now rewrite ReaderFacts.group_rejects_tab. }
  assert (PT : player_shaped s3 line = true -> team_shaped s2 line = false).
  { unfold player_shaped, team_shaped. intros H.
    apply ReaderFacts.is_some_true in H as (m & H).
    apply ReaderFacts.player_starts_with_two_tabs in H as (t & ->).
    now rewrite ReaderFacts.team_rejects_two_tabs. }
  split; [|split].
  - intros H. split.
    + destruct (team_shaped s2 line); [|reflexivity].
      rewrite TG in H; [discriminate | reflexivity].
    + destruct (player_shaped s3 line); [|reflexivity].
      rewrite PG in H; [discriminate | reflexivity].
  - intros H. split; [now apply TG|].
    destruct (player_shaped s3 line); [|reflexivity].
    rewrite PT in H; [discriminate | reflexivity].
  - intros H. split; [now apply PG | now apply PT].
Qed.

Lemma shapes_exclude_witness :
  group_shaped true (tb ++ "t - n" ++ nl) = false /\
  player_shaped false (tb ++ "t - n" ++ nl) = false.
Proof.
  destruct (shapes_exclude (tb ++ "t - n" ++ nl) true true false)
    as (_ & H & _).
  apply H. reflexivity.
Defined.

(** X8. [read] raises [UnknownLineType] exactly for the lines that none of
    the three patterns of the mode matches, whatever the state. *)
Theorem raises_UnknownLineType
    (self : DtbReader.t) (line : string) (strict : bool) :
  fst (read self line strict) = inl (UnknownLineType line) <->
  group_shaped strict line = false /\ team_shaped strict line = false /\
  player_shaped strict line = false.
Proof.
  split.
  - unfold read, group_shaped, team_shaped, player_shaped.
    destruct (fullmatch (group_re strict) line); [discriminate|].
    destruct (fullmatch (team_re strict) line).
    + destruct (current_group self); discriminate.
    + destruct (fullmatch (player_re strict) line); [|auto].
      destruct (current_team self); discriminate.
  - intros (G & T & P).
    now rewrite (ShapeFacts.unknown_of_no_shape self line strict G T P).
Qed.

Lemma raises_UnknownLineType_witness :
  fst (read init (tb ++ "-x" ++ nl) true)
  = inl (UnknownLineType (tb ++ "-x" ++ nl)).
Proof.
  apply (raises_UnknownLineType init (tb ++ "-x" ++ nl) true).
  repeat split; reflexivity.
Defined.

(** X9. How [read] changes the state, for any line.  A line with the shape
    of a Group makes the Group it returns the current group and leaves no
    current team, whatever the state was.  A line with the shape of a Team,
    read while a group is current, returns a Team of that group, makes it
    the current team and keeps the current group.  Every other call
    leaves the state as it was. *)
Theorem read_changes_state
    (self : DtbReader.t) (line : string) (strict : bool) :
  (group_shaped strict line = true ->
   exists g,
     read self line strict
     = (inr (AGroup g),
        {| current_group := Some g; current_team := None |})) /\
  (forall g,
     team_shaped strict line = true -> current_group self = Some g ->
     exists t,
       Team.group t = g /\
       read self line strict
       = (inr (ATeam t),
          {| current_group := Some g; current_team := Some t |})) /\
  (group_shaped strict line = false ->
   team_shaped strict line = false \/ current_group self = None ->
   snd (read self line strict) = self).
Proof.
  split; [|split].
  - intros H. apply ReaderFacts.is_some_true in H as (m & H).
    exists (group_of m). apply (ReaderFacts.read_group self _ _ _ H).
  - intros g H E. apply ReaderFacts.is_some_true in H as (m & H).
    exists (team_of m g). split; [reflexivity|].
    now rewrite (ReaderFacts.read_team self _ _ _ H), E.
  - unfold group_shaped, team_shaped, read. intros G T.
    destruct (fullmatch (group_re strict) line); [discriminate|].
    destruct (fullmatch (team_re strict) line).
    + destruct T as [T | T]; [discriminate|]. now rewrite T.
    + destruct (fullmatch (player_re strict) line);
        [destruct (current_team self)|]; reflexivity.
Qed.

Lemma read_changes_state_witness :
  snd (read {| current_group := None; current_team := None |}
            (tb ++ "t - n" ++ nl) true)
  = {| current_group := None; current_team := None |}.
Proof.
  destruct (read_changes_state
              {| current_group := None; current_team := None |}
              (tb ++ "t - n" ++ nl) true) as (_ & _ & H).
  apply H; [reflexivity | right; reflexivity].
Defined.

Lemma read_next_state st line strict :
  snd (read st line strict) = st \/
  current_team (snd (read st line strict)) = None \/
  exists t,
    current_team (snd (read st line strict)) = Some t /\
    current_group (snd (read st line strict)) = Some (Team.group t).
Proof.
  unfold read.
  destruct (fullmatch (group_re strict) line); [right; left; reflexivity|].
  destruct (fullmatch (team_re strict) line) as [m|].
  - destruct (current_group st) as [g|] eqn:E; [|now left].
    right. right. exists (team_of m g). split; reflexivity.
  - destruct (fullmatch (player_re strict) line);
      [destruct (current_team st)|]; now left.
Qed.

Lemma read_keeps_team_in_group st line strict :
  team_of_current_group st ->
  team_of_current_group (snd (read st line strict)).
Proof.
  intros I.
  destruct (read_next_state st line strict) as [-> | [N | (t & T & G)]];
    [exact I | |]; intros t'; rewrite ?N, ?T, ?G; [discriminate|].
  now intros [= <-].
Qed.

(** X10. After any sequence of calls of [read] on a fresh reader, returning
    or raising, in any modes: when a team is current, a group is current
    and it is the group of that team. *)
Theorem current_team_belongs_to_current_group
    (calls : list (string * bool)) (t : Team.t) :
  current_team (after_reads calls init) = Some t ->
  current_group (after_reads calls init) = Some (Team.group t).
Proof.
  assert (G : forall st, team_of_current_group st ->
                         team_of_current_group (after_reads calls st)).
  { induction calls as [|c calls IH]; intros st I; [exact I|].
    simpl. apply IH, read_keeps_team_in_group, I. }
  apply (G init). intros t'. discriminate.
Qed.

Lemma current_team_belongs_to_current_group_witness :
  current_group
    (after_reads [("g - n" ++ nl, true); (tb ++ "t - n" ++ nl, false);
                  ("oops", true)] init)
  = Some (Group.Build (Some "g") (Some "n")).
Proof.
  apply (current_team_belongs_to_current_group
           [("g - n" ++ nl, true); (tb ++ "t - n" ++ nl, false);
            ("oops", true)]
           (Team.Build (Some "t") (Some "n")
                       (Group.Build (Some "g") (Some "n")))).
  reflexivity.
Defined.

Lemma read_returns_linked st line strict e st' :
  read st line strict = (inr e, st') ->
  st' = track st [e] /\
  match e with
  | AGroup _ => True
  | ATeam t => current_group st = Some (Team.group t)
  | APlayer p => current_team st = Some (Player.team p)
  end.
Proof.
  unfold read.
  destruct (fullmatch (group_re strict) line);
    [intros [= <- <-]; split; reflexivity|].
  destruct (fullmatch (team_re strict) line).
  - destruct (current_group st) eqn:E; [|discriminate].
    intros [= <- <-]. split; [simpl; now rewrite E | reflexivity].
  - destruct (fullmatch (player_re strict) line); [|discriminate].
    destruct (current_team st) eqn:E; [|discriminate].
    intros [= <- <-]. split; reflexivity.
Qed.

Lemma accepts_linked strict st lines es st' :
  accepts strict st lines es st' ->
  linked (current_group st) (current_team st) es.
Proof.
  induction 1 as [st | st line e st1 lines es st2 R _ IH]; [exact I|].
  apply read_returns_linked in R as [-> L].
  destruct e as [g|t|p]; simpl in *.
  - exact IH.
  - split; [exact L | exact IH].
  - split; [exact L | exact IH].
Qed.

(** X11. When a sequence of lines is accepted, the entities returned form
    the hierarchy of the lines: each Team has as its group the Group
    returned last before it (or the group current at the start), each
    Player has as its team the Team returned last before it with no Group
    in between; and the state at the end is the one the entities
    determine.  Read by a fresh reader, the first entity is a Group. *)
Theorem accepted_entities_are_linked
    (strict : bool) (st : DtbReader.t) (lines : list string)
    (es : list entity) (st' : DtbReader.t) :
  accepts strict st lines es st' ->
  linked (current_group st) (current_team st) es /\
  st' = track st es /\
  (st = init -> forall e rest, es = e :: rest -> kind_of e = KGroup).
Proof.
  intros A. split; [|split].
  - exact (accepts_linked strict st lines es st' A).
  - induction A as [st | st line e st1 lines es st2 R _ IH]; [reflexivity|].
    apply read_returns_linked in R as [-> _]. exact IH.
  - intros -> e rest ->. inversion A as [|? ? ? ? ? ? ? R _]; subst.
    apply read_returns_linked in R as [_ L].
    destruct e; [reflexivity | discriminate L | discriminate L].
Qed.

Lemma accepted_entities_are_linked_witness :
  linked None None
    [AGroup example_group; ATeam example_team; APlayer example_player] /\
  {| current_group := Some example_group;
     current_team := Some example_team |}
  = track init
      [AGroup example_group; ATeam example_team; APlayer example_player].
Proof.
  destruct (accepted_entities_are_linked true init example_input _ _
              Claims.example_accepted) as (H1 & H2 & _).
  split; [exact H1 | exact H2].
Defined.

Lemma linked_nested es :
  forall g t,
    linked g t es ->
    nested (option_map (fun g => map ConverterCsv.csv_field (Group.to_list g))
                       g)
           (option_map (fun t => map ConverterCsv.csv_field (Team.to_list t))
                       t)
           (map record_of es).
Proof.
  induction es as [|e es IH]; intros g t L; [exact I|].
  destruct e as [g'|t'|p]; simpl in L.
  - exact (IH (Some g') None L).
  - destruct L as [-> L]. split; [reflexivity|].
    exact (IH (Some (Team.group t')) (Some t') L).
  - destruct L as [-> L]. split; [reflexivity|].
    exact (IH g (Some (Player.team p)) L).
Qed.

Lemma conversion_run dtb_input strict :
  exists consumed es st,
    accepts strict init consumed es st /\
    ConverterCsv.written (ConverterCsv.convert dtb_input strict)
    = header_record :: map record_of es /\
    (ConverterCsv.raised (ConverterCsv.convert dtb_input strict) = None /\
     dtb_input = consumed /\
     ConverterCsv.unread (ConverterCsv.convert dtb_input strict) = []
     \/
     exists line e,
       ConverterCsv.raised (ConverterCsv.convert dtb_input strict) = Some e /\
       fst (read st line strict) = inl e /\
       dtb_input
       = (consumed ++ line ::
          ConverterCsv.unread (ConverterCsv.convert dtb_input strict))%list).
Proof.
  unfold ConverterCsv.convert.
  destruct (Claims.reads_exhaustive strict dtb_input init)
    as [(es & st' & A) | (pre & l & post & es & st' & e & -> & A & F)].
  - exists dtb_input, es, st'.
    rewrite (Claims.for_lines_accepts _ _ _ _ _ A). simpl.
    split; [exact A|]. split; [reflexivity|]. left. auto.
  - exists pre, es, st'.
    rewrite (Claims.for_lines_raises _ _ _ _ _ _ _ A F). simpl.
    split; [exact A|]. split; [reflexivity|]. right. exists l, e. auto.
Qed.

(** X12. The records [convert] writes show the hierarchy, for every input
    and also when the conversion fails on the way: each record of four
    cells begins with the two cells of the last Group record before it,
    each record of nine cells with the four cells of the last Team record
    before it, and the first data record is a Group record. *)
Theorem records_show_hierarchy (dtb_input : list string) (strict : bool) :
  nested None None (data_records (ConverterCsv.convert dtb_input strict)).
Proof.
  destruct (conversion_run dtb_input strict) as (pre & es & st & A & W & _).
  unfold data_records. rewrite W. simpl.
  exact (linked_nested es None None (accepts_linked _ _ _ _ _ A)).
Qed.

(** X13. [convert] accounts for every line: the lines are the ones read
    followed by the ones left unread, and the number of records written
    (the header among them) plus the number of lines left unread, plus one
    for the line that failed if one did, is the number of lines plus one. *)
Theorem convert_accounts_for_every_line
    (dtb_input : list string) (strict : bool) :
  (exists consumed,
     dtb_input
     = (consumed ++ ConverterCsv.unread
                      (ConverterCsv.convert dtb_input strict))%list) /\
  List.length (ConverterCsv.written (ConverterCsv.convert dtb_input strict))
  + List.length (ConverterCsv.unread (ConverterCsv.convert dtb_input strict))
  + match ConverterCsv.raised (ConverterCsv.convert dtb_input strict) with
    | Some _ => 1
    | None => 0
    end
  = 1 + List.length dtb_input.
Proof.
  assert (L : forall lines es st st',
             accepts strict st lines es st' ->
             List.length es = List.length lines).
  { induction 1; simpl; congruence. }
  destruct (conversion_run dtb_input strict)
    as (pre & es & st & A & W & [(R & E & U) | (l & e & R & _ & E)]);
    rewrite W, R; apply L in A.
  - rewrite U. split; [exists dtb_input; now rewrite app_nil_r|].
    simpl. rewrite length_map, A, E. lia.
  - split; [exists (pre ++ [l])%list; now rewrite <- app_assoc|].
    apply (f_equal (@List.length string)) in E.
    rewrite length_app in E. simpl in E |- *. rewrite length_map, A. lia.
Qed.

Lemma for_lines_app strict st a es st' :
  accepts strict st a es st' ->
  forall out b,
    ConverterCsv.for_lines st out (a ++ b) strict
    = ConverterCsv.for_lines st' (out ++ map record_of es) b strict.
Proof.
  induction 1 as [st | st line e st1 lines es st2 R _ IH]; intros out b.
  - simpl. now rewrite app_nil_r.
  - simpl. rewrite R, IH. unfold ConverterCsv.writerow.
    now rewrite <- app_assoc.
Qed.

(** X14. Converting a file followed by another: when the first file
    fails, the whole fails in the same way, with the same records written
    and the second file unread after what the first left unread; when the
    first file is accepted, the whole is the conversion of the first
    continued with the lines of the second from the state reached. *)
Theorem convert_app (a b : list string) (strict : bool) :
  (forall e,
     ConverterCsv.raised (ConverterCsv.convert a strict) = Some e ->
     ConverterCsv.convert (a ++ b) strict
     = ConverterCsv.Outcome
         (ConverterCsv.written (ConverterCsv.convert a strict))
         (ConverterCsv.unread (ConverterCsv.convert a strict) ++ b)
         (Some e)) /\
  (forall es st,
     accepts strict init a es st ->
     ConverterCsv.convert (a ++ b) strict
     = ConverterCsv.for_lines st
         (ConverterCsv.written (ConverterCsv.convert a strict)) b strict).
Proof.
  split.
  - intros e R. unfold ConverterCsv.convert in *.
    destruct (Claims.reads_exhaustive strict a init)
      as [(es & st' & A) | (pre & l & post & es & st' & e' & -> & A & F)].
    + rewrite (Claims.for_lines_accepts _ _ _ _ _ A) in R. discriminate.
    + rewrite (Claims.for_lines_raises _ _ _ _ _ _ _ A F) in R |- *.
      injection R as ->. rewrite <- app_assoc. simpl.
      now rewrite (Claims.for_lines_raises _ _ _ _ _ _ _ A F).
  - intros es st A. unfold ConverterCsv.convert.
    rewrite (for_lines_app _ _ _ _ _ A).
    now rewrite (Claims.for_lines_accepts _ _ _ _ _ A).
Qed.

Lemma convert_app_witness :
  ConverterCsv.convert (["oops"; "g - n" ++ nl] ++ example_input) true
  = ConverterCsv.Outcome [header_record] (("g - n" ++ nl) :: example_input)
                         (Some (UnknownLineType "oops")).
Proof.
  destruct (convert_app ["oops"; "g - n" ++ nl] example_input true)
    as (H & _).
  apply (H (UnknownLineType "oops")). reflexivity.
Defined.

Lemma read_in_loose st1 st2 line e st1' :
  same_level st1 st2 ->
  read st1 line true = (inr e, st1') ->
  exists e2 st2',
    read st2 line false = (inr e2, st2') /\
    kind_of e2 = kind_of e /\ same_level st1' st2'.
Proof.
  intros [SG ST] R.
  destruct Claims.strict_is_looser as (LG & LT & LP).
  pose proof (Claims.returns_of_shape st1 line true e) as S.
  rewrite R in S. specialize (S eq_refl).
  destruct (read_returns_linked _ _ _ _ _ R) as [-> _].
  assert (S2 : match kind_of e with
               | KGroup => group_shaped false line = true
               | KTeam => team_shaped false line = true /\
                          current_group st2 <> None
               | KPlayer => player_shaped false line = true /\
                            current_team st2 <> None
               end).
  { destruct (kind_of e).
    - exact (Claims.looser_accepts _ _ line LG S).
    - destruct S as [S N]. split; [exact (Claims.looser_accepts _ _ line LT S)|].
      destruct (current_group st1), (current_group st2);
        simpl in SG; congruence.
    - destruct S as [S N]. split; [exact (Claims.looser_accepts _ _ line LP S)|].
      destruct (current_team st1), (current_team st2);
        simpl in ST; congruence. }
  apply Claims.shape_returns in S2 as (e2 & R2 & K).
  destruct (read st2 line false) as [r st2'] eqn:E. simpl in R2. subst r.
  exists e2, st2'. split; [reflexivity|]. split; [exact K|].
  destruct (read_returns_linked _ _ _ _ _ E) as [-> _].
  destruct e, e2; try discriminate K; simpl; split; auto.
Qed.

Lemma accepts_in_loose st1 lines es st1' :
  accepts true st1 lines es st1' ->
  forall st2,
    same_level st1 st2 ->
    exists es2 st2',
      accepts false st2 lines es2 st2' /\ map kind_of es2 = map kind_of es.
Proof.
  induction 1 as [st | st line e st1 lines es st1' R _ IH]; intros st2 L.
  - exists [], st2. split; [constructor | reflexivity].
  - destruct (read_in_loose _ _ _ _ _ L R) as (e2 & st2' & R2 & K & L').
    destruct (IH st2' L') as (es2 & st2'' & A2 & Ks).
    exists (e2 :: es2), st2''. split; [econstructor; eassumption|].
    simpl. now rewrite K, Ks.
Qed.

Lemma width_of_kind e1 e2 :
  kind_of e1 = kind_of e2 ->
  List.length (record_of e1) = List.length (record_of e2).
Proof. destruct e1, e2; try discriminate; reflexivity. Qed.

(** X15. A file that converts without error in strict mode converts
    without error in loose mode too, with as many records, each as wide as
    its strict counterpart: a Group, a Team or a Player line stays one. *)
Theorem strict_conversion_is_loose_conversion (dtb_input : list string) :
  ConverterCsv.raised (ConverterCsv.convert dtb_input true) = None ->
  ConverterCsv.raised (ConverterCsv.convert dtb_input false) = None /\
  ConverterCsv.unread (ConverterCsv.convert dtb_input false) = [] /\
  map (@List.length string)
      (ConverterCsv.written (ConverterCsv.convert dtb_input false))
  = map (@List.length string)
      (ConverterCsv.written (ConverterCsv.convert dtb_input true)).
Proof.
  intros R.
  destruct (conversion_run dtb_input true)
    as (pre & es & st & A & W & [(_ & <- & _) | (l & e & R' & _)]);
    [|congruence].
  destruct (accepts_in_loose _ _ _ _ A init) as (es2 & st2 & A2 & K);
    [split; reflexivity|].
  unfold ConverterCsv.convert in *.
  rewrite (Claims.for_lines_accepts _ _ _ _ _ A2).
  rewrite (Claims.for_lines_accepts _ _ _ _ _ A). simpl.
  split; [reflexivity|]. split; [reflexivity|]. f_equal.
  clear -K. revert es2 K.
  induction es as [|e es IH]; intros [|e2 es2] K; try discriminate;
    [reflexivity|].
  simpl in *. injection K as K1 K2.
  now rewrite (width_of_kind _ _ K1), (IH _ K2).
Qed.

Lemma strict_conversion_is_loose_conversion_witness :
  ConverterCsv.raised (ConverterCsv.convert example_input false) = None.
Proof.
  apply (strict_conversion_is_loose_conversion example_input).
  reflexivity.
Defined.

Lemma read_inv self line strict e st' :
  read self line strict = (inr e, st') ->
  match e with
  | AGroup g =>
      exists m, fullmatch (group_re strict) line = Some m /\ g = group_of m
  | ATeam t =>
      exists m g, fullmatch (team_re strict) line = Some m /\
                  t = team_of m g
  | APlayer p =>
      exists m t, fullmatch (player_re strict) line = Some m /\
                  p = player_of m t
  end.
Proof.
  unfold read.
  destruct (fullmatch (group_re strict) line) as [m|];
    [intros [= <- _]; eauto|].
  destruct (fullmatch (team_re strict) line) as [m|].
  - destruct (current_group self); [|discriminate]. intros [= <- _]. eauto.
  - destruct (fullmatch (player_re strict) line) as [m|]; [|discriminate].
    destruct (current_team self); [|discriminate]. intros [= <- _]. eauto.
Qed.

(** X16. A Group that [read] returns says what its line was: the name and
    a space when the name is set, the dash, a space (which may be missing
    in loose mode), the note when it is set, the newline.  In strict mode
    the line is the one written from the name and the note.  A name that
    is set holds no tab (it may be empty); a note that is set is not empty
    and holds no newline. *)
Theorem group_says_its_line
    (self : DtbReader.t) (line : string) (strict : bool)
    (g : Group.t) (st' : DtbReader.t) :
  read self line strict = (inr (AGroup g), st') ->
  (exists sep,
     line = with_sep (Group.name g) " " ++ "-" ++ sep
            ++ txt (Group.note g) ++ nl /\
     (sep = " " \/ strict = false /\ sep = "")) /\
  (strict = true -> line = group_line (Group.name g) (Group.note g)) /\
  (forall v, Group.name g = Some v -> only not_tab v = true) /\
  (forall v, Group.note g = Some v -> v <> "" /\ only not_newline v = true).
Proof.
  intros R. apply read_inv in R as (m & H & ->).
  apply FieldFacts.group_fields_inv in H
    as (name & note & sep & -> & -> & Hsep & Hname & Hnote).
  rewrite captures_of_name_note. simpl.
  split; [eauto|]. split; [|auto].
  intros ->. destruct Hsep as [-> | [? _]]; [reflexivity | discriminate].
Qed.

Lemma group_says_its_line_witness :
  (" - x" ++ nl)
  = group_line (Group.name (Group.Build (Some "") (Some "x")))
               (Group.note (Group.Build (Some "") (Some "x"))).
Proof.
  destruct (group_says_its_line init (" - x" ++ nl) true
              (Group.Build (Some "") (Some "x"))
              {| current_group := Some (Group.Build (Some "") (Some "x"));
                 current_team := None |} eq_refl) as (_ & H & _).
  apply H. reflexivity.
Defined.

(** X17. A Team that [read] returns says what its line was, in the same
    way, after the tab; its group is the group that was current. *)
Theorem team_says_its_line
    (self : DtbReader.t) (line : string) (strict : bool)
    (t : Team.t) (st' : DtbReader.t) :
  read self line strict = (inr (ATeam t), st') ->
  (exists sep,
     line = tb ++ with_sep (Team.name t) " " ++ "-" ++ sep
            ++ txt (Team.note t) ++ nl /\
     (sep = " " \/ strict = false /\ sep = "")) /\
  (strict = true -> line = team_line (Team.name t) (Team.note t)) /\
  current_group self = Some (Team.group t) /\
  (forall v, Team.name t = Some v -> only not_tab v = true) /\
  (forall v, Team.note t = Some v -> v <> "" /\ only not_newline v = true).
Proof.
  intros R. destruct (read_returns_linked _ _ _ _ _ R) as [_ G].
  apply read_inv in R as (m & g & H & ->).
  apply FieldFacts.team_fields_inv in H
    as (name & note & sep & -> & -> & Hsep & Hname & Hnote).
  pose proof (captures_of_name_note name note) as E. unfold group_of in E.
  injection E as E1 E2. unfold team_of in *. simpl in *. rewrite E1, E2.
  split; [eauto|]. split; [|auto].
  intros ->. destruct Hsep as [-> | [? _]]; [reflexivity | discriminate].
Qed.

Lemma team_says_its_line_witness :
  (tb ++ "team_name - team_note" ++ nl)
  = team_line (Team.name example_team) (Team.note example_team).
Proof.
  destruct (team_says_its_line
              {| current_group := Some example_group; current_team := None |}
              (tb ++ "team_name - team_note" ++ nl) true example_team
              {| current_group := Some example_group;
                 current_team := Some example_team |} eq_refl)
    as (_ & H & _).
  apply H. reflexivity.
Defined.

(** X18. In a Player that [read] returns, in either mode, a surname that
    is set is not empty and holds no space and no comma, a name that is set
    is not empty and holds no comma, a date of birth that is set is not
    empty, a note that is set is not empty and holds no newline; its team
    is the team that was current. *)
Theorem player_fields_are_lexical
    (self : DtbReader.t) (line : string) (strict : bool)
    (p : Player.t) (st' : DtbReader.t) :
  read self line strict = (inr (APlayer p), st') ->
  (forall v, Player.surname p = Some v ->
     v <> "" /\ only not_space_or_comma v = true) /\
  (forall v, Player.name p = Some v -> v <> "" /\ only not_comma v = true) /\
  (forall v, Player.date_of_birth p = Some v -> v <> "") /\
  (forall v, Player.note p = Some v ->
     v <> "" /\ only not_newline v = true) /\
  current_team self = Some (Player.team p).
Proof.
  intros R. destruct (read_returns_linked _ _ _ _ _ R) as [_ T].
  apply read_inv in R as (m & t & H & ->).
  apply FieldFacts.player_fields_inv in H
    as (reg & sur & nm & dob & note & -> & Hs & Hn & Hd & Ht).
  destruct (Claims.captures_of_pushes reg sur nm dob note)
    as (E1 & E2 & E3 & E4 & E5).
  cbv zeta in E1, E2, E3, E4, E5. unfold player_of in *. simpl in *.
  rewrite E2, E3, E4, E5. auto.
Qed.

Lemma player_fields_are_lexical_witness :
  "player_surname" <> "" /\ only not_space_or_comma "player_surname" = true.
Proof.
  destruct (player_fields_are_lexical
              {| current_group := Some example_group;
                 current_team := Some example_team |}
              (tb ++ tb
                  ++ "00001234 - player_surname player_name, 01.01.1900 , player_note"
                  ++ nl) false example_player
              {| current_group := Some example_group;
                 current_team := Some example_team |} eq_refl) as (H & _).
  exact (H "player_surname" eq_refl).
Defined.

Lemma append_cancel_r (x y z : string) : x ++ z = y ++ z -> x = y.
Proof.
  revert y. induction x as [|a x IH]; intros [|b y] H.
  - reflexivity.
  - apply (f_equal String.length) in H. simpl in H.
    rewrite length_append in H. lia.
  - apply (f_equal String.length) in H. simpl in H.
    rewrite length_append in H. lia.
  - simpl in H. injection H as -> H. f_equal. now apply IH.
Qed.

(** X19. The message of the exception tells which of the three failures
    occurred and for which line: the messages of two different failures
    differ whatever the lines, and the messages of a failure for two lines
    are equal only when the lines are. *)
Theorem message_tells_failure_and_line (l1 l2 : string) :
  TeamWithoutGroup l1 <> PlayerWithoutTeam l2 /\
  TeamWithoutGroup l1 <> UnknownLineType l2 /\
  PlayerWithoutTeam l1 <> UnknownLineType l2 /\
  (message (TeamWithoutGroup l1) = message (TeamWithoutGroup l2) ->
   l1 = l2) /\
  (message (PlayerWithoutTeam l1) = message (PlayerWithoutTeam l2) ->
   l1 = l2) /\
  (message (UnknownLineType l1) = message (UnknownLineType l2) -> l1 = l2).
Proof.
  repeat split; try discriminate;
    simpl; intros [= H]; exact (append_cancel_r _ _ _ H).
Qed.

Lemma message_tells_failure_and_line_witness :
  "oops" = "oops".
Proof.
  destruct (message_tells_failure_and_line "oops" "oops")
    as (_ & _ & _ & _ & _ & H).
  apply H. reflexivity.
Defined.

End More.

(** ** Version 0.1.0 and version 0.2.0 *)

Module Versions.
Import Re DtbReader PieceFacts.
Local Open Scope re_scope.

Lemma player01_starts_with_two_tabs line m :
  fullmatch Dtb2Csv01.PLAYER_RE line = Some m ->
  exists t, line = String tab (String tab t).
Proof.
  intros H. apply ReFacts.fullmatch_sound in H.
  unfold Dtb2Csv01.PLAYER_RE in H. do 3 piece H.
  eexists. reflexivity.
Qed.

Lemma two_tabs_true t : two_tabs (String tab (String tab t)) = true.
Proof. reflexivity. Qed.

Lemma read01_is_strict_read st line :
  two_tabs line = false ->
  Dtb2Csv01.read st line = read st line true.
Proof.
  intros N.
  assert (P1 : fullmatch Dtb2Csv01.PLAYER_RE line = None).
  { destruct (fullmatch Dtb2Csv01.PLAYER_RE line) eqn:E; [|reflexivity].
    apply player01_starts_with_two_tabs in E as (t & ->).
    now rewrite two_tabs_true in N. }
  assert (P2 : fullmatch (player_re true) line = None).
  { destruct (fullmatch (player_re true) line) eqn:E; [|reflexivity].
    apply ReaderFacts.player_starts_with_two_tabs in E as (t & ->).
    now rewrite two_tabs_true in N. }
  unfold Dtb2Csv01.read, read. rewrite P1, P2. reflexivity.
Qed.

(** X20. Version 0.2.0 in strict mode reads every line that does not begin
    with two tabs, so every Group and Team line, exactly as version 0.1.0
    did: the same entity or the same error, the same state afterwards. *)
Theorem strict_reads_groups_and_teams_as_before
    (st : DtbReader.t) (line : string) :
  two_tabs line = false ->
  Dtb2Csv01.read st line = read st line true.
Proof. exact (read01_is_strict_read st line). Qed.

Lemma strict_reads_groups_and_teams_as_before_witness :
  Dtb2Csv01.read {| current_group := Some example_group;
                    current_team := None |}
                 (tb ++ "a - b - c" ++ nl)
  = read {| current_group := Some example_group; current_team := None |}
         (tb ++ "a - b - c" ++ nl) true.
Proof.
  apply (strict_reads_groups_and_teams_as_before
           {| current_group := Some example_group; current_team := None |}
           (tb ++ "a - b - c" ++ nl)).
  reflexivity.
Defined.

Lemma for_lines01_is_strict dtb_input :
  forallb (fun line => negb (two_tabs line)) dtb_input = true ->
  forall st out,
    ConverterCsv.for_lines st (header_record :: out) dtb_input true
    = ConverterCsv.Outcome
        (header_record ::
         ConverterCsv.written (Dtb2Csv01.for_lines st out dtb_input))
        (ConverterCsv.unread (Dtb2Csv01.for_lines st out dtb_input))
        (ConverterCsv.raised (Dtb2Csv01.for_lines st out dtb_input)).
Proof.
  induction dtb_input as [|line rest IH]; intros H st out; [reflexivity|].
  simpl in H. apply andb_true_iff in H as [N H].
  apply negb_true_iff in N. simpl.
  rewrite (read01_is_strict_read st line N).
  destruct (read st line true) as [[e|ent] st1]; [reflexivity|].
  exact (IH H st1 _).
Qed.

(** X21. For a file without Player lines (no line begins with two tabs),
    version 0.2.0 in strict mode writes the header and then exactly the
    records version 0.1.0 wrote, leaves the same lines unread and raises
    the same error, if any. *)
Theorem strict_converts_groups_and_teams_as_before
    (dtb_input : list string) :
  forallb (fun line => negb (two_tabs line)) dtb_input = true ->
  ConverterCsv.convert dtb_input true
  = ConverterCsv.Outcome
      (header_record :: ConverterCsv.written (Dtb2Csv01.convert dtb_input))
      (ConverterCsv.unread (Dtb2Csv01.convert dtb_input))
      (ConverterCsv.raised (Dtb2Csv01.convert dtb_input)).
Proof.
  intros H. exact (for_lines01_is_strict dtb_input H init []).
Qed.

Lemma strict_converts_groups_and_teams_as_before_witness :
  ConverterCsv.convert ["g - n" ++ nl; tb ++ "t - n" ++ nl; "oops"; nl] true
  = ConverterCsv.Outcome
      [header_record; ["g"; "n"]; ["g"; "n"; "t"; "n"]] [nl]
      (Some (UnknownLineType "oops")).
Proof.
  apply (strict_converts_groups_and_teams_as_before
           ["g - n" ++ nl; tb ++ "t - n" ++ nl; "oops"; nl]).
  reflexivity.
Defined.

Lemma matches_seq_intro r1 r2 i u1 u2 w mk mk1 mk' :
  matches r1 i u1 (u2 ++ w) mk mk1 ->
  matches r2 (i + String.length u1) u2 w mk1 mk' ->
  matches (r1 ;; r2) i (u1 ++ u2) w mk mk'.
Proof. intros H1 H2. exists u1, u2, mk1. auto. Qed.

Lemma matches_lit c i w mk : matches (lit c) i (String c "") w mk mk.
Proof. exists c. simpl. now rewrite Ascii.eqb_refl. Qed.

Lemma matches_opt_any n o i w mk :
  (forall v, o = Some v -> v <> "" /\ only not_newline v = true) ->
  matches (Opt (Named n (Plus Any))) i (txt o) w mk (push n o mk).
Proof.
  intros H. destruct o as [v|]; [|now left].
  destruct (H v eq_refl) as [Hne Hall]. right. exists mk.
  split; [|reflexivity]. split; [exact Hne|]. split; [|reflexivity].
  rewrite all_match_only. exact Hall.
Qed.

Lemma matches_opt_prefix n p c o i w mk :
  (forall v, o = Some v -> only (char_match p) v = true) ->
  matches (Opt (Paren (Named n (Star p) ;; lit c))) i
          (with_sep o (String c "")) w mk (push n o mk).
Proof.
  intros H. destruct o as [v|]; [|now left].
  right. exists v, (String c ""), ((n, v) :: mk).
  split; [reflexivity|]. split; [|apply matches_lit].
  exists mk. split; [|reflexivity]. split; [|reflexivity].
  rewrite all_match_only. now apply H.
Qed.

Lemma only_app f a b : only f (a ++ b) = only f a && only f b.
Proof.
  induction a as [|c a IH]; [reflexivity|].
  simpl. now rewrite IH, andb_assoc.
Qed.

Lemma only_txt f (o : option string) :
  only f (txt o) = true -> forall v, o = Some v -> only f v = true.
Proof. now intros H v ->. Qed.

Lemma field_of_txt v : txt (field_of v) = v.
Proof. now destruct v. Qed.

Lemma field_of_set f s :
  only f s = true ->
  forall v, field_of s = Some v -> v <> "" /\ only f v = true.
Proof. destruct s; [discriminate|]. intros H v [= <-]. now split. Qed.

Lemma run_of_spaces sp :
  sp <> "" -> only (char_match (Literal " ")) sp = true ->
  exists sp', sp = sp' ++ " ".
Proof.
  induction sp as [|a sp IH]; [easy|]. intros _ H. simpl in H.
  apply andb_true_iff in H as [Ha H]. apply Ascii.eqb_eq in Ha as ->.
  destruct sp as [|b sp]; [now exists ""|].
  destruct IH as (sp' & E); [discriminate | exact H |].
  exists (String " " sp'). simpl. now rewrite <- E.
Qed.

Lemma digits_have_no_tab v :
  only (char_match (In [Category_digit])) v = true ->
  only (char_match (Not_in [Item tab])) v = true.
Proof.
  induction v as [|a v IH]; [reflexivity|]. simpl only.
  intros H. apply andb_true_iff in H as [Ha H]. rewrite (IH H), andb_true_r.
  simpl. destruct (Ascii.eqb_spec a tab) as [-> | N];
    [discriminate Ha | reflexivity].
Qed.

Ltac put L := eapply matches_seq_intro; [apply L|].

Lemma strict_player_is_player01 line m :
  fullmatch PLAYER_RE_STRICT line = Some m ->
  one_line line ->
  fullmatch Dtb2Csv01.PLAYER_RE line <> None.
Proof.
  intros H (body & E & B).
  apply ReFacts.fullmatch_sound, player_strict_inv in H.
  destruct H as (reg & sur & nm & dob & note & sp & -> & _ & Hreg & Hsur
                 & Hnm & Hdob & Hnote & Hne & Hsp).
  destruct (run_of_spaces sp Hne Hsp) as (sp' & ->).
  assert (X : String tab (String tab
                (with_sep reg " " ++ "- " ++ txt sur ++ " " ++ txt nm ++ ", "
                 ++ txt dob ++ (sp' ++ " ") ++ ", " ++ txt note
                 ++ String newline ""))
              = (tb ++ tb ++ with_sep reg " " ++ "- " ++ txt sur ++ " "
                 ++ txt nm ++ ", " ++ (txt dob ++ sp') ++ " , " ++ txt note)
                ++ nl).
  { simpl. repeat (rewrite !append_assoc; simpl). reflexivity. }
  rewrite X in E |- *. apply More.append_cancel_r in E. subst body.
  simpl in B. repeat (progress (rewrite ?only_app in B; simpl in B)).
  rewrite !andb_true_iff in B.
  destruct B as (Br & Bs & Bn & (Bd & Bp) & Bt).
  replace ((tb ++ tb ++ with_sep reg " " ++ "- " ++ txt sur ++ " "
            ++ txt nm ++ ", " ++ (txt dob ++ sp') ++ " , " ++ txt note)
           ++ nl)
    with ("" ++ tb ++ tb ++ with_sep reg " " ++ "-" ++ " " ++ txt sur ++ " "
          ++ txt nm ++ "," ++ " " ++ txt (field_of (txt dob ++ sp')) ++ " "
          ++ "," ++ " " ++ txt note ++ nl ++ "")
    by (rewrite field_of_txt; simpl; repeat (rewrite !append_assoc; simpl);
        reflexivity).
  eapply ReFacts.fullmatch_complete. unfold Dtb2Csv01.PLAYER_RE.
  eapply matches_seq_intro; [simpl; auto|].
  put matches_lit. put matches_lit.
  put matches_opt_prefix; [intros v Ev; apply digits_have_no_tab; auto|].
  put matches_lit. put matches_lit.
  put matches_opt_any;
    [intros v Ev; split; [now apply Hsur | exact (only_txt _ _ Bs v Ev)]|].
  put matches_lit.
  put matches_opt_any;
    [intros v Ev; split; [now apply Hnm | exact (only_txt _ _ Bn v Ev)]|].
  put matches_lit. put matches_lit.
  put matches_opt_any;
    [apply field_of_set; rewrite only_app, Bd, Bp; reflexivity|].
  put matches_lit. put matches_lit. put matches_lit.
  put matches_opt_any;
    [intros v Ev; split; [now apply Hnote | exact (only_txt _ _ Bt v Ev)]|].
  put matches_lit. simpl. auto.
Qed.

(** X22. A Player line that version 0.2.0 accepts in strict mode, and that
    holds one newline only, at its end, was a Player line for version
    0.1.0: with a current team [read] of that version returns a Player,
    without one it raises [PlayerWithoutTeam]. *)
Theorem strict_player_line_was_a_player_line
    (self : DtbReader.t) (line : string) :
  player_shaped true line = true ->
  one_line line ->
  match current_team self with
  | Some t =>
      exists m,
        Dtb2Csv01.read self line = (inr (APlayer (player_of m t)), self)
  | None => Dtb2Csv01.read self line = (inl (PlayerWithoutTeam line), self)
  end.
Proof.
  intros H O. apply ReaderFacts.is_some_true in H as (m & H).
  pose proof (strict_player_is_player01 line m H O) as P.
  destruct (ReaderFacts.player_starts_with_two_tabs _ _ _ H) as (t & ->).
  unfold Dtb2Csv01.read.
  change (fullmatch Dtb2Csv01.GROUP_RE (String tab (String tab t)))
    with (fullmatch (group_re true) (String tab (String tab t))).
  change (fullmatch Dtb2Csv01.TEAM_RE (String tab (String tab t)))
    with (fullmatch (team_re true) (String tab (String tab t))).
  rewrite ReaderFacts.group_rejects_tab, ReaderFacts.team_rejects_two_tabs.
  destruct (fullmatch Dtb2Csv01.PLAYER_RE (String tab (String tab t)))
    as [m'|]; [|congruence].
  destruct (current_team self); eauto.
Qed.

Lemma strict_player_line_was_a_player_line_witness :
  Dtb2Csv01.read init (tb ++ tb ++ "1 - s n, 2.   , x" ++ nl)
  = (inl (PlayerWithoutTeam (tb ++ tb ++ "1 - s n, 2.   , x" ++ nl)), init).
Proof.
  apply (strict_player_line_was_a_player_line init
           (tb ++ tb ++ "1 - s n, 2.   , x" ++ nl)).
  - reflexivity.
  - exists (tb ++ tb ++ "1 - s n, 2.   , x"). split; reflexivity.
Defined.

End Versions.

(** ** Loose mode and the comma after the name *)

Module Loose.
Import Re DtbReader PieceFacts.
Local Open Scope re_scope.

Lemma only_weaken (f g : ascii -> bool) v :
  (forall a, f a = true -> g a = true) ->
  only f v = true -> only g v = true.
Proof.
  intros W. induction v as [|a v IH]; [reflexivity|]. simpl.
  intros H. apply andb_true_iff in H as [Ha H]. now rewrite (W a Ha), IH.
Qed.

(** When a run of [p] over [v] lets the rest of the pattern match, the
    match found is that of a run at least as long. *)
Lemma repeat_one_at_least p v :
  forall i w c,
    only (char_match p) v = true ->
    c (i + String.length v) w <> None ->
    exists v0 w0 res,
      v ++ w = v0 ++ w0 /\ String.length v <= String.length v0 /\
      only (char_match p) v0 = true /\
      repeat_one p i (v ++ w) c = Some res /\
      c (i + String.length v0) w0 = Some res.
Proof.
  induction v as [|a v IH]; intros i w c Hall Hc.
  - simpl in Hc. rewrite Nat.add_0_r in Hc.
    apply (ReFacts.repeat_one_skip p) in Hc.
    destruct (repeat_one p i w c) as [res|] eqn:E; [|easy].
    destruct (ReFacts.repeat_one_sound p w i c res E) as (u & w' & -> & A & K).
    exists u, w', res. rewrite all_match_only in A.
    simpl. repeat split; auto. lia.
  - simpl in Hall. apply andb_true_iff in Hall as [Ha Hall].
    simpl in Hc. rewrite Nat.add_succ_r in Hc.
    destruct (IH (S i) w c Hall Hc) as (v0 & w0 & res & E & L & A & R & K).
    exists (String a v0), w0, res. simpl. rewrite Ha, R, E, A.
    rewrite Nat.add_succ_r. repeat split; auto. lia.
Qed.

Lemma run_opt_named_plus_at_least n p i v w mk k res :
  run (Opt (Named n (Plus p))) i (v ++ w) mk k = Some res ->
  v <> "" -> only (char_match p) v = true ->
  k (i + String.length v) w ((n, v) :: mk) <> None ->
  exists v0 w0,
    v ++ w = v0 ++ w0 /\ String.length v <= String.length v0 /\
    k (i + String.length v0) w0 ((n, v0) :: mk) = Some res.
Proof.
  intros H Hne Hall Hk. destruct v as [|a v]; [easy|]. clear Hne.
  simpl in Hall. apply andb_true_iff in Hall as [Ha Hall].
  change (run (Opt (Named n (Plus p))) i (String a v ++ w) mk k)
    with (match (if char_match p a
                 then repeat_one p (S i) (v ++ w)
                        (fun i' w' =>
                           k i' w' ((n, take (i' - i) (String a v ++ w))
                                    :: mk))
                 else None)
          with Some r => Some r | None => k i (String a v ++ w) mk end) in H.
  rewrite Ha in H.
  set (c := fun i' w' =>
              k i' w' ((n, take (i' - i) (String a v ++ w)) :: mk)) in H.
  assert (C : c (S i + String.length v) w <> None).
  { unfold c.
    replace (S i + String.length v - i) with (String.length (String a v))
      by (change (String.length (String a v)) with (S (String.length v));
          lia).
    rewrite take_append. simpl in Hk. rewrite Nat.add_succ_r in Hk.
    exact Hk. }
  destruct (repeat_one_at_least p v (S i) w c Hall C)
    as (v0 & w0 & res' & E & L & _ & R & K).
  rewrite R in H. injection H as ->.
  exists (String a v0), w0. simpl. rewrite E.
  split; [reflexivity|]. split; [lia|].
  unfold c in K.
  replace (S i + String.length v0 - i) with (String.length (String a v0))
    in K by (change (String.length (String a v0))
               with (S (String.length v0)); lia).
  change (String a v ++ w) with (String a (v ++ w)) in K. rewrite E in K.
  change (String a (v0 ++ w0)) with (String a v0 ++ w0) in K.
  rewrite take_append in K. rewrite Nat.add_succ_r. exact K.
Qed.

Lemma no_comma_in p :
  char_match p "," = false ->
  forall a, char_match p a = true -> char_match (Not_in [Item ","]) a = true.
Proof.
  intros Hc a Ha. simpl.
  destruct (Ascii.eqb_spec a ","); [subst; congruence | reflexivity].
Qed.

Lemma matches_skip r i w mk : matches (Opt r) i "" w mk mk.
Proof. now left. Qed.

Lemma matches_opt_lit c u i w mk :
  u = "" \/ u = String c "" -> matches (Opt (lit c)) i u w mk mk.
Proof.
  intros [-> | ->]; [now left | right; apply Versions.matches_lit].
Qed.

Lemma matches_opt_named_plus n p o i w mk :
  (forall v, o = Some v -> v <> "" /\ only (char_match p) v = true) ->
  matches (Opt (Named n (Plus p))) i (txt o) w mk (push n o mk).
Proof.
  intros H. destruct o as [v|]; [|now left].
  destruct (H v eq_refl) as [Hne Hall]. right. exists mk.
  split; [|reflexivity]. split; [exact Hne|]. split; [|reflexivity].
  rewrite all_match_only. exact Hall.
Qed.

Lemma matches_one_space i w mk : matches (Plus (Literal " ")) i " " w mk mk.
Proof. simpl. repeat split. discriminate. Qed.

Ltac start H M :=
  rewrite GreedyFacts.run_seq in H;
  apply ReFacts.run_sound in H as (? & ? & ? & -> & M & H);
  cbv beta in H.

Lemma loose_date_after_comma line m d :
  fullmatch PLAYER_RE_LOOSE line = Some m ->
  group m "date_of_birth" = Some d ->
  exists rest,
    line = tb ++ tb ++ with_sep (group m "registration_number") " " ++ "- "
           ++ txt (group m "surname") ++ " " ++ txt (group m "name") ++ ","
           ++ rest.
Proof.
  intros H D. unfold fullmatch, PLAYER_RE_LOOSE in H.
  start H M0. apply bol_inv in M0 as (-> & ->).
  start H M1. apply lit_inv in M1 as (-> & ->).
  start H M2. apply lit_inv in M2 as (-> & ->).
  start H M3. apply opt_prefix_inv in M3 as (reg & -> & -> & Hreg).
  start H M4. apply lit_inv in M4 as (-> & ->).
  start H M5. apply lit_inv in M5 as (-> & ->).
  start H M6. apply opt_named_plus_inv in M6 as (sur & -> & -> & Hsur).
  start H M7. apply lit_inv in M7 as (-> & ->).
  match type of H with
  | run _ ?j _ _ _ = _ => remember j as i eqn:Ei; clear Ei
  end.
  pose proof H as H2.
  apply ReFacts.run_sound in H2 as (u & w' & m' & -> & M & K).
  destruct (String.eqb_spec w' "") as [->|]; [|discriminate].
  injection K as ->.
  field M nm Hnm. optional M c1 Hc1. optional M s1 Hs1. field M dob Hdob.
  run_of M sp Hne Hsp. optional M c2 Hc2. optional M s2 Hs2.
  field M note Hnote. piece M. apply eol_inv in M as (-> & ->).
  assert (dob = Some d) as ->.
  { destruct dob as [d'|].
    - destruct note; simpl in D; congruence.
    - destruct note, nm, sur, reg; simpl in D; discriminate. }
  destruct (Claims.captures_of_pushes reg sur nm (Some d) note)
    as (E1 & E2 & E3 & _).
  cbv zeta in E1, E2, E3. rewrite E1, E2, E3. clear D E1 E2 E3.
  destruct Hc1 as [-> | ->].
  - exfalso.
    destruct (Hdob d eq_refl) as [Hd Hdc].
    destruct (Versions.run_of_spaces sp Hne Hsp) as (sp' & ->).
    assert (Lv : String.length (txt nm)
                 < String.length (txt nm ++ s1 ++ d ++ sp')).
    { rewrite !length_append. destruct d; [easy | simpl; lia]. }
    assert (Cv : only (char_match (Not_in [Item ","]))
                      (txt nm ++ s1 ++ d ++ sp') = true).
    { rewrite !Versions.only_app in Hsp |- *.
      apply andb_true_iff in Hsp as [Hsp _].
      assert (N : only (char_match (Not_in [Item ","])) (txt nm) = true).
      { destruct nm as [v|]; [now apply Hnm | reflexivity]. }
      rewrite N, !Versions.only_app.
      rewrite (only_weaken _ _ d
                 (no_comma_in (In [Category_digit; Item "."]) eq_refl) Hdc).
      rewrite (only_weaken _ _ sp' (no_comma_in (Literal " ") eq_refl) Hsp).
      destruct Hs1 as [-> | ->]; reflexivity. }
    replace ((txt nm ++ "" ++ s1 ++ txt (Some d) ++ (sp' ++ " ") ++ c2 ++ s2
              ++ txt note ++ String newline "" ++ "") ++ "")
      with ((txt nm ++ s1 ++ d ++ sp')
            ++ ("" ++ "" ++ "" ++ " " ++ c2 ++ s2 ++ txt note ++ nl ++ "")
            ++ "") in H
      by (simpl; repeat (rewrite !append_assoc; simpl); reflexivity).
    rewrite GreedyFacts.run_seq in H.
    apply run_opt_named_plus_at_least in H as (v0 & w0 & E & L & K0);
      [ | intros Ev; rewrite Ev in Lv; simpl in Lv; lia | exact Cv | ].
    + apply ReFacts.run_sound in K0 as (u & w' & m' & _ & M & K).
      destruct (String.eqb_spec w' "") as [->|]; [|discriminate].
      injection K as ->.
      optional M c1' Hc1'. optional M s1' Hs1'. field M dob' Hdob'.
      run_of M sp2 Hne2 Hsp2. optional M c2' Hc2'. optional M s2' Hs2'.
      field M note' Hnote'. piece M. apply eol_inv in M as (_ & Em).
      assert (nm = Some v0) as ->
        by (destruct note, note', dob', nm, sur, reg; simpl in Em; congruence).
      simpl in Lv, L. lia.
    + cbv beta. eapply ReFacts.run_complete; [|simpl; discriminate].
      Versions.put matches_skip. Versions.put matches_skip.
      Versions.put matches_skip. Versions.put matches_one_space.
      Versions.put matches_opt_lit; [exact Hc2|].
      Versions.put matches_opt_lit; [exact Hs2|].
      Versions.put matches_opt_named_plus; [exact Hnote|].
      Versions.put Versions.matches_lit. simpl. auto.
  - exists (s1 ++ d ++ sp ++ c2 ++ s2 ++ txt note ++ nl).
    simpl. repeat (rewrite !append_assoc; simpl). reflexivity.
Qed.

(** X23. Loose mode does not do without the comma after the name: a
    Player that [read] returns in loose mode with a date of birth had, in
    its line, a comma right after the name (after the surname and its
    space when the name is unset).  So a Player line without any comma
    never gives a date of birth: what was meant as the date is part of the
    name. *)
Theorem loose_date_needs_the_comma
    (self : DtbReader.t) (line : string) (p : Player.t) (st' : DtbReader.t) :
  read self line false = (inr (APlayer p), st') ->
  (Player.date_of_birth p <> None ->
   exists rest,
     line = tb ++ tb ++ with_sep (Player.registration_number p) " " ++ "- "
            ++ txt (Player.surname p) ++ " " ++ txt (Player.name p) ++ ","
            ++ rest) /\
  (contains "," line = false -> Player.date_of_birth p = None).
Proof.
  intros R. apply More.read_inv in R as (m & t & H & ->).
  unfold player_of. simpl.
  assert (G : group m "date_of_birth" <> None ->
              exists rest,
                line = tb ++ tb ++ with_sep (group m "registration_number") " "
                       ++ "- " ++ txt (group m "surname") ++ " "
                       ++ txt (group m "name") ++ "," ++ rest).
  { intros D. destruct (group m "date_of_birth") as [d|] eqn:E; [|easy].
    exact (loose_date_after_comma line m d H E). }
  split; [exact G|].
  intros C. destruct (group m "date_of_birth") as [d|]; [|reflexivity].
  destruct G as (rest & E); [discriminate|]. exfalso.
  assert (T : contains "," line = true).
  { rewrite E. do 7 apply LineFacts.contains_app_r.
    change (contains "," ("," ++ rest))
      with (Ascii.eqb "," "," && true || contains "," rest).
    reflexivity. }
  congruence.
Qed.

Lemma loose_date_needs_the_comma_witness :
  Player.date_of_birth
    (Player.Build (Some "1") (Some "n 1.1") (Some "s") None (Some "x")
                  example_team) = None.
Proof.
  destruct (loose_date_needs_the_comma
              {| current_group := Some example_group;
                 current_team := Some example_team |}
              (tb ++ tb ++ "1 - s n 1.1 x" ++ nl)
              (Player.Build (Some "1") (Some "n 1.1") (Some "s") None
                            (Some "x") example_team)
              {| current_group := Some example_group;
                 current_team := Some example_team |} eq_refl) as (_ & H).
  apply H. reflexivity.
Defined.

Lemma spaces_of_length a :
  forall b,
    only is_space a = true -> only is_space b = true ->
    String.length a = String.length b -> a = b.
Proof.
  induction a as [|x a IH]; intros [|y b] Ha Hb L; try discriminate L.
  - reflexivity.
  - simpl in Ha, Hb, L.
    apply andb_true_iff in Ha as [Hx Ha]. apply andb_true_iff in Hb as [Hy Hb].
    apply Ascii.eqb_eq in Hx, Hy. subst. f_equal. apply IH; auto.
Qed.

(** X24. The Player lines are unambiguous: two sets of fields (of the
    lexical classes of the strict pattern) that are written as the same
    line are the same fields. *)
Theorem player_line_is_unambiguous
    (reg sur nm dob note reg' sur' nm' dob' note' : option string)
    (sp sp' : string) :
  (forall v, reg = Some v -> only is_digit v = true) ->
  (forall v, sur = Some v -> v <> "" /\ only not_space_or_comma v = true) ->
  (forall v, nm = Some v -> v <> "" /\ only not_comma v = true) ->
  (forall v, dob = Some v -> v <> "" /\ only is_digit_or_dot v = true) ->
  (forall v, note = Some v -> v <> "" /\ only not_newline v = true) ->
  sp <> "" -> only is_space sp = true ->
  (forall v, reg' = Some v -> only is_digit v = true) ->
  (forall v, sur' = Some v -> v <> "" /\ only not_space_or_comma v = true) ->
  (forall v, nm' = Some v -> v <> "" /\ only not_comma v = true) ->
  (forall v, dob' = Some v -> v <> "" /\ only is_digit_or_dot v = true) ->
  (forall v, note' = Some v -> v <> "" /\ only not_newline v = true) ->
  sp' <> "" -> only is_space sp' = true ->
  player_line reg sur nm dob note sp = player_line reg' sur' nm' dob' note' sp' ->
  reg = reg' /\ sur = sur' /\ nm = nm' /\ dob = dob' /\ note = note' /\
  sp = sp'.
Proof.
  intros H1 H2 H3 H4 H5 H6 H7 H1' H2' H3' H4' H5' H6' H7' E.
  pose proof (LineFacts.player_line_match true reg sur nm dob note sp
                H1 H2 H3 H4 H5 H6 H7) as M.
  pose proof (LineFacts.player_line_match true reg' sur' nm' dob' note' sp'
                H1' H2' H3' H4' H5' H6' H7') as M'.
  rewrite E, M' in M. injection M as M.
  destruct (Claims.captures_of_pushes reg sur nm dob note)
    as (E1 & E2 & E3 & E4 & E5).
  destruct (Claims.captures_of_pushes reg' sur' nm' dob' note')
    as (F1 & F2 & F3 & F4 & F5).
  cbv zeta in *. rewrite <- M in E1, E2, E3, E4, E5.
  rewrite F1 in E1. rewrite F2 in E2. rewrite F3 in E3. rewrite F4 in E4.
  rewrite F5 in E5. subst reg' sur' nm' dob' note'.
  repeat split. unfold player_line in E.
  apply (f_equal String.length) in E. rewrite !length_append in E.
  apply spaces_of_length; [exact H7 | exact H7' | lia].
Qed.

Lemma player_line_is_unambiguous_witness :
  Some "12" = Some "12" /\ @None string = None /\
  Some "van der Berg" = Some "van der Berg" /\ @None string = None /\
  Some "a, b" = Some "a, b" /\ "  " = "  ".
Proof.
  apply (player_line_is_unambiguous
           (Some "12") None (Some "van der Berg") None (Some "a, b")
           (Some "12") None (Some "van der Berg") None (Some "a, b")
           "  " "  ");
    try discriminate; try reflexivity;
    intros v [= <-]; try split; try discriminate; reflexivity.
Defined.

End Loose.

(** * Lines of any characters *)

Module UnicodeFacts.
Import Re Unicode.
Local Open Scope list_scope.
Local Open Scope re_scope.

Section Matcher.
Variable decimal : database.

Lemma firstn_length_app (u w : str) : firstn (List.length u) (u ++ w) = u.
Proof. induction u as [|a u IH]; simpl; [reflexivity | now rewrite IH]. Qed.

Lemma repeat_one_sound_str (p : Re.char_pattern) (w : str) :
  forall i k res,
    repeat_one decimal p i w k = Some res ->
    exists u w',
      w = u ++ w' /\ forallb (char_match decimal p) u = true /\
      k (i + List.length u) w' = Some res.
Proof.
  induction w as [|a t IH]; intros i k res H; simpl in H.
  - exists [], []. simpl. now rewrite Nat.add_0_r.
  - destruct (char_match decimal p a) eqn:Ha.
    + destruct (repeat_one decimal p (S i) t k) as [res'|] eqn:Hrec.
      * injection H as ->.
        destruct (IH _ _ _ Hrec) as (u & w' & -> & Hall & Hk).
        exists (a :: u), w'. simpl. rewrite Ha, Hall.
        now rewrite Nat.add_succ_r.
      * exists [], (a :: t). simpl. now rewrite Nat.add_0_r.
    + exists [], (a :: t). simpl. now rewrite Nat.add_0_r.
Qed.

Lemma run_sound_str (r : Re.pattern) :
  forall i w mk k res,
    run decimal r i w mk k = Some res ->
    exists u w' mk',
      w = u ++ w' /\ matches decimal r i u w' mk mk' /\
      k (i + List.length u) w' mk' = Some res.
Proof.
  induction r as [| |p|p|p|r IH|r1 IH1 r2 IH2|n r IH|r IH];
    intros i w mk k res H; simpl in H.
  - destruct (Nat.eqb_spec i 0) as [->|]; [|discriminate].
    exists [], w, mk. simpl. auto.
  - destruct (at_end w) eqn:E; [|discriminate].
    exists [], w, mk. simpl. rewrite Nat.add_0_r. auto.
  - destruct w as [|a t]; [discriminate|].
    destruct (char_match decimal p a) eqn:Ha; [|discriminate].
    exists [a], t, mk. simpl. rewrite Nat.add_1_r. eauto 6.
  - apply repeat_one_sound_str in H as (u & w' & -> & Hall & Hk).
    exists u, w', mk. simpl. auto.
  - destruct w as [|a t]; [discriminate|].
    destruct (char_match decimal p a) eqn:Ha; [|discriminate].
    apply repeat_one_sound_str in H as (u & w' & -> & Hall & Hk).
    exists (a :: u), w', mk. simpl. rewrite Ha, Hall.
    rewrite Nat.add_succ_r. repeat split; [discriminate | exact Hk].
  - destruct (run decimal r i w mk k) as [res'|] eqn:Hr.
    + injection H as ->.
      destruct (IH _ _ _ _ _ Hr) as (u & w' & mk' & -> & Hm & Hk).
      exists u, w', mk'. simpl. auto.
    + exists [], w, mk. simpl. rewrite Nat.add_0_r. auto.
  - destruct (IH1 _ _ _ _ _ H) as (u1 & w1 & mk1 & -> & Hm1 & H2).
    destruct (IH2 _ _ _ _ _ H2) as (u2 & w2 & mk2 & -> & Hm2 & Hk).
    exists (u1 ++ u2), w2, mk2. rewrite <- app_assoc, length_app.
    rewrite Nat.add_assoc. simpl. eauto 10.
  - destruct (IH _ _ _ _ _ H) as (u & w' & mk' & -> & Hm & Hk).
    replace (i + List.length u - i) with (List.length u) in Hk by lia.
    rewrite firstn_length_app in Hk.
    exists u, w', ((n, u) :: mk'). simpl. eauto.
  - destruct (IH _ _ _ _ _ H) as (u & w' & mk' & -> & Hm & Hk).
    exists u, w', mk'. simpl. auto.
Qed.

Lemma fullmatch_sound_str (r : Re.pattern) (line : str) (m : marks) :
  fullmatch decimal r line = Some m -> matches decimal r 0 line [] [] m.
Proof.
  unfold fullmatch. intros H.
  apply run_sound_str in H as (u & w & mk' & -> & Hm & Hk).
  destruct w; [|discriminate].
  injection Hk as ->. now rewrite app_nil_r.
Qed.

(** What each piece of the patterns can match. *)

Lemma seq_inv_str r1 r2 i u w mk mk' :
  matches decimal (r1 ;; r2) i u w mk mk' ->
  exists u1 u2 mk1,
    u = u1 ++ u2 /\ matches decimal r1 i u1 (u2 ++ w) mk mk1 /\
    matches decimal r2 (i + List.length u1) u2 w mk1 mk'.
Proof. exact (fun H => H). Qed.

Lemma bol_inv_str i u w mk mk' :
  matches decimal Re.At_beginning i u w mk mk' -> u = [] /\ mk' = mk.
Proof. simpl. tauto. Qed.

Lemma eol_inv_str i u w mk mk' :
  matches decimal Re.At_end i u w mk mk' -> u = [] /\ mk' = mk.
Proof. simpl. tauto. Qed.

Lemma lit_inv_str c i u w mk mk' :
  matches decimal (Re.lit c) i u w mk mk' -> u = [code c] /\ mk' = mk.
Proof.
  simpl. intros (a & -> & Ha & ->).
  apply N.eqb_eq in Ha as ->. auto.
Qed.

Lemma opt_lit_inv_str c i u w mk mk' :
  matches decimal (Re.Opt (Re.lit c)) i u w mk mk' ->
  (u = [] \/ u = [code c]) /\ mk' = mk.
Proof.
  intros [(-> & ->) | H]; [auto|].
  apply lit_inv_str in H as (-> & ->). auto.
Qed.

Lemma plus_inv_str p i u w mk mk' :
  matches decimal (Re.Plus p) i u w mk mk' ->
  u <> [] /\ forallb (char_match decimal p) u = true /\ mk' = mk.
Proof. simpl. tauto. Qed.

Lemma opt_named_plus_inv_str n p i u w mk mk' :
  matches decimal (Re.Opt (Re.Named n (Re.Plus p))) i u w mk mk' ->
  exists o,
    u = txt o /\ mk' = push n o mk /\
    (forall v, o = Some v ->
               v <> [] /\ forallb (char_match decimal p) v = true).
Proof.
  intros [(-> & ->) | (mk1 & H & ->)].
  - exists None. split; [reflexivity|]. split; [reflexivity|]. discriminate.
  - apply plus_inv_str in H as (Hne & Hall & ->).
    exists (Some u). split; [reflexivity|]. split; [reflexivity|].
    intros v [= <-]. auto.
Qed.

Lemma opt_prefix_inv_str n p c i u w mk mk' :
  matches decimal (Re.Opt (Re.Paren (Re.Named n (Re.Star p) ;; Re.lit c)))
          i u w mk mk' ->
  exists o,
    u = with_sep o [code c] /\ mk' = push n o mk /\
    (forall v, o = Some v -> forallb (char_match decimal p) v = true).
Proof.
  intros [(-> & ->) | H].
  - exists None. split; [reflexivity|]. split; [reflexivity|]. discriminate.
  - apply seq_inv_str in H as (u1 & u2 & mk1 & -> & (mk0 & (Hall & ->) & ->) & H2).
    apply lit_inv_str in H2 as (-> & ->).
    exists (Some u1). split; [reflexivity|]. split; [reflexivity|].
    now intros v [= <-].
Qed.

End Matcher.

Ltac split_seq H P :=
  let u1 := fresh "u" in
  apply seq_inv_str in H as (u1 & ? & ? & -> & P & H).

Ltac piece H :=
  let P := fresh "P" in
  split_seq H P;
  lazymatch type of P with
  | matches _ Re.At_beginning _ _ _ _ _ => apply bol_inv_str in P as (-> & ->)
  | matches _ (Re.lit _) _ _ _ _ _ => apply lit_inv_str in P as (-> & ->)
  end.

Ltac field H o Ho :=
  let P := fresh "P" in
  split_seq H P;
  lazymatch type of P with
  | matches _ (Re.Opt (Re.Named _ (Re.Plus _))) _ _ _ _ _ =>
      apply opt_named_plus_inv_str in P as (o & -> & -> & Ho)
  | matches _ (Re.Opt (Re.Paren _)) _ _ _ _ _ =>
      apply opt_prefix_inv_str in P as (o & -> & -> & Ho)
  end.

Ltac optional H c Hc :=
  let P := fresh "P" in
  split_seq H P;
  apply opt_lit_inv_str in P as (Hc & ->);
  match type of Hc with ?u = _ \/ _ => rename u into c end.

Ltac run_of H sp Hne Hsp :=
  let P := fresh "P" in
  split_seq H P;
  apply plus_inv_str in P as (Hne & Hsp & ->);
  match type of Hsp with forallb _ ?u = true => rename u into sp end.

Lemma forallb_same (f g : char -> bool) (v : str) :
  (forall a, f a = g a) -> forallb f v = forallb g v.
Proof.
  intros E. induction v as [|a v IH]; simpl; [reflexivity|].
  now rewrite E, IH.
Qed.

Lemma loose_separator_str (c s : str) :
  c = [] \/ c = of_string "," -> s = [] \/ s = of_string " " ->
  separator false (c ++ s).
Proof. unfold separator. intros [-> | ->] [-> | ->]; simpl; auto. Qed.

Lemma player_inv_str decimal strict line m :
  matches decimal (DtbReader.player_re strict) 0 line [] [] m ->
  exists reg sur nm dob note sep1 sp sep2,
    line = of_string (tb ++ tb)%string
           ++ with_sep reg (of_string " ") ++ of_string "- " ++ txt sur
           ++ of_string " " ++ txt nm ++ sep1 ++ txt dob ++ sp ++ sep2
           ++ txt note ++ of_string nl /\
    m = push "note" note (push "date_of_birth" dob (push "name" nm
          (push "surname" sur (push "registration_number" reg [])))) /\
    (forall v, reg = Some v -> forallb decimal v = true) /\
    (forall v, dob = Some v ->
               v <> [] /\ forallb (is_decimal_or_dot decimal) v = true) /\
    separator strict sep1 /\
    (sp <> [] /\ forallb is_space sp = true) /\
    separator strict sep2.
Proof.
  assert (D : forall v, forallb (char_match decimal (Re.In [Re.Category_digit]))
                                v = true -> forallb decimal v = true).
  { intros v <-. apply forallb_same. intros a. simpl.
    now rewrite orb_false_r. }
  assert (DD : forall v,
             forallb (char_match decimal
                        (Re.In [Re.Category_digit; Re.Item "."])) v = true ->
             forallb (is_decimal_or_dot decimal) v = true).
  { intros v <-. apply forallb_same. intros a. unfold is_decimal_or_dot.
    simpl. now rewrite orb_false_r. }
  intros H. destruct strict;
    unfold DtbReader.player_re, DtbReader.PLAYER_RE_STRICT,
      DtbReader.PLAYER_RE_LOOSE in H.
  - do 3 piece H. field H reg Hreg. do 2 piece H. field H sur Hsur.
    piece H. field H nm Hnm. do 2 piece H. field H dob Hdob.
    run_of H sp Hne Hsp. do 2 piece H. field H note Hnote. piece H.
    apply eol_inv_str in H as (-> & ->).
    exists reg, sur, nm, dob, note, (of_string ", "), sp, (of_string ", ").
    split; [simpl; repeat (rewrite <- ?app_assoc; simpl); reflexivity|].
    split; [reflexivity|].
    split; [intros v E; apply D; auto|].
    split; [intros v E; destruct (Hdob v E); auto|].
    split; [reflexivity|].
    split; [split; [assumption | exact Hsp] | reflexivity].
  - do 3 piece H. field H reg Hreg. do 2 piece H. field H sur Hsur.
    piece H. field H nm Hnm. optional H c1 Hc1. optional H s1 Hs1.
    field H dob Hdob. run_of H sp Hne Hsp.
    optional H c2 Hc2. optional H s2 Hs2. field H note Hnote. piece H.
    apply eol_inv_str in H as (-> & ->).
    exists reg, sur, nm, dob, note, (c1 ++ s1), sp, (c2 ++ s2).
    split; [simpl; repeat (rewrite <- ?app_assoc; simpl); reflexivity|].
    split; [reflexivity|].
    split; [intros v E; apply D; auto|].
    split; [intros v E; destruct (Hdob v E); auto|].
    split; [now apply loose_separator_str|].
    split; [split; [assumption | exact Hsp]
           | now apply loose_separator_str].
Qed.

(** The table of decimal digits matters on the characters of the line
    only. *)

Lemma suffix_refl w : suffix w w.
Proof. now exists []. Qed.

Lemma suffix_cons a w' w : suffix w' w -> suffix w' (a :: w).
Proof. intros (u & ->). now exists (a :: u). Qed.

Lemma suffix_trans w1 w2 w3 : suffix w1 w2 -> suffix w2 w3 -> suffix w1 w3.
Proof. intros (u & ->) (v & ->). exists (v ++ u). now rewrite app_assoc. Qed.

Lemma suffix_in a w' w : suffix w' w -> List.In a w' -> List.In a w.
Proof. intros (u & ->) H. apply in_or_app. now right. Qed.

Section Tables.
Variables decimal decimal' : database.

Lemma char_match_ext p a :
  decimal a = decimal' a -> char_match decimal p a = char_match decimal' p a.
Proof.
  intros E.
  assert (I : forall items,
             existsb (fun it => item_match decimal it a) items
             = existsb (fun it => item_match decimal' it a) items).
  { induction items as [|it items IH]; simpl; [reflexivity|].
    rewrite IH. destruct it; simpl; [reflexivity | now rewrite E]. }
  destruct p; simpl; [reflexivity | reflexivity | apply I | now rewrite I].
Qed.

Lemma repeat_one_ext p w :
  forall i k k',
    (forall a, List.In a w -> decimal a = decimal' a) ->
    (forall i' w', suffix w' w -> k i' w' = k' i' w') ->
    repeat_one decimal p i w k = repeat_one decimal' p i w k'.
Proof.
  induction w as [|a t IH]; intros i k k' A K; simpl.
  - apply K, suffix_refl.
  - rewrite (char_match_ext p a) by (apply A; now left).
    rewrite (IH (S i) k k');
      [| intros b Hb; apply A; now right
       | intros i' w' S; apply K; now apply suffix_cons].
    now rewrite (K i (a :: t) (suffix_refl _)).
Qed.

Lemma run_ext r :
  forall i w mk k k',
    (forall a, List.In a w -> decimal a = decimal' a) ->
    (forall i' w' mk', suffix w' w -> k i' w' mk' = k' i' w' mk') ->
    run decimal r i w mk k = run decimal' r i w mk k'.
Proof.
  induction r as [| |p|p|p|r IH|r1 IH1 r2 IH2|n r IH|r IH];
    intros i w mk k k' A K; simpl.
  - now rewrite (K i w mk (suffix_refl _)).
  - now rewrite (K i w mk (suffix_refl _)).
  - destruct w as [|a t]; [reflexivity|].
    rewrite (char_match_ext p a) by (apply A; now left).
    rewrite (K (S i) t mk); [reflexivity|]. apply suffix_cons, suffix_refl.
  - apply repeat_one_ext; [exact A|]. intros i' w' S. now apply K.
  - destruct w as [|a t]; [reflexivity|].
    rewrite (char_match_ext p a) by (apply A; now left).
    rewrite (repeat_one_ext p t (S i) (fun i' w' => k i' w' mk)
               (fun i' w' => k' i' w' mk));
      [reflexivity | intros b Hb; apply A; now right|].
    intros i' w' S. apply K. now apply suffix_cons.
  - rewrite (IH i w mk k k' A K). now rewrite (K i w mk (suffix_refl _)).
  - apply IH1; [exact A|]. intros i' w' mk' S. apply IH2.
    + intros a Ha. apply A. exact (suffix_in a w' w S Ha).
    + intros i'' w'' mk'' S'. apply K. exact (suffix_trans _ _ _ S' S).
  - apply IH; [exact A|]. intros i' w' mk' S. now apply K.
  - now apply IH.
Qed.

Lemma fullmatch_ext r line :
  (forall a, List.In a line -> decimal a = decimal' a) ->
  fullmatch decimal r line = fullmatch decimal' r line.
Proof. intros A. unfold fullmatch. now apply run_ext. Qed.

Lemma read_ext self line strict :
  (forall a, List.In a line -> decimal a = decimal' a) ->
  read decimal self line strict = read decimal' self line strict.
Proof.
  intros A. unfold read. now rewrite !(fullmatch_ext _ line A).
Qed.

End Tables.

Lemma captures_of_pushes_str reg sur nm dob note :
  let m := push "note" note (push "date_of_birth" dob (push "name" nm
             (push "surname" sur (push "registration_number" reg [])))) in
  group m "registration_number" = reg /\
  group m "surname" = sur /\
  group m "name" = nm /\
  group m "date_of_birth" = dob /\
  group m "note" = note.
Proof.
  destruct reg, sur, nm, dob, note; repeat split; reflexivity.
Qed.

Lemma two_blocks_ascii : ascii_digits_only two_blocks.
Proof.
  intros a H. unfold two_blocks, is_ascii in *.
  apply N.ltb_lt in H.
  destruct (N.leb_spec 0x660 a) as [L|L]; [lia|].
  simpl. apply orb_false_r.
Qed.

(** C8, as the code has it.  For a line of any characters that the Player
    pattern of either mode matches, under every table of decimal digits:
    the [registration_number] of the Player built from the match is unset
    or made of decimal digits of the table, and the [date_of_birth] is unset
    or a non-empty text of such digits and dots; these digits need not be
    0-9, but under a table that holds, below 128, the digits 0-9 only, as
    every version of the database does, each character below 128 of the
    [registration_number] is one of 0-9, and each character below 128 of
    the [date_of_birth] is one of 0-9 or the dot.  The line is the two
    tabs, then the fields, each followed by the separator the pattern
    consumes after it, so that no field holds a separator: the space after
    [registration_number], "- ", the space after [surname], the separator
    after [name], the run of spaces and the separator after
    [date_of_birth], the newline after [note]. *)
Theorem player_fields_shape
    (decimal : database) (strict : bool) (line : str) (m : marks)
    (t : Team.t) :
  fullmatch decimal (DtbReader.player_re strict) line = Some m ->
  (forall v, Player.registration_number (player_of m t) = Some v ->
             forallb decimal v = true) /\
  (forall v, Player.date_of_birth (player_of m t) = Some v ->
             v <> [] /\ forallb (is_decimal_or_dot decimal) v = true) /\
  (ascii_digits_only decimal ->
   (forall v a, Player.registration_number (player_of m t) = Some v ->
                List.In a v -> is_ascii a = true ->
                is_ascii_digit a = true) /\
   (forall v a, Player.date_of_birth (player_of m t) = Some v ->
                List.In a v -> is_ascii a = true ->
                is_ascii_digit a = true \/ a = code ".")) /\
  exists sep1 sp sep2,
    line = of_string (tb ++ tb)%string
           ++ with_sep (Player.registration_number (player_of m t))
                       (of_string " ")
           ++ of_string "- " ++ txt (Player.surname (player_of m t))
           ++ of_string " " ++ txt (Player.name (player_of m t))
           ++ sep1 ++ txt (Player.date_of_birth (player_of m t))
           ++ sp ++ sep2 ++ txt (Player.note (player_of m t))
           ++ of_string nl /\
    separator strict sep1 /\
    sp <> [] /\ forallb is_space sp = true /\
    separator strict sep2.
Proof.
  intros H. apply fullmatch_sound_str, player_inv_str in H.
  destruct H as (reg & sur & nm & dob & note & sep1 & sp & sep2
                 & -> & -> & Hreg & Hdob & S1 & (Hne & Hsp) & S2).
  destruct (captures_of_pushes_str reg sur nm dob note)
    as (E1 & E2 & E3 & E4 & E5).
  unfold player_of. simpl Player.registration_number.
  simpl Player.date_of_birth. simpl Player.surname. simpl Player.name.
  simpl Player.note. rewrite E1, E2, E3, E4, E5.
  split; [exact Hreg|]. split; [exact Hdob|].
  split; [|exists sep1, sp, sep2; auto].
  intros D. split.
  - intros v a E Ha Hi. rewrite <- (D a Hi).
    pose proof (Hreg v E) as F. rewrite forallb_forall in F. now apply F.
  - intros v a E Ha Hi. destruct (Hdob v E) as [_ F].
    rewrite forallb_forall in F. specialize (F a Ha).
    unfold is_decimal_or_dot in F. apply orb_true_iff in F as [F | F].
    + left. now rewrite <- (D a Hi).
    + right. now apply N.eqb_eq in F.
Qed.

Lemma player_fields_shape_witness :
  forallb two_blocks (of_string "00001234") = true /\
  forallb (is_decimal_or_dot two_blocks) (of_string "01.01.1900") = true /\
  (forall a, List.In a (of_string "00001234") -> is_ascii a = true ->
             is_ascii_digit a = true).
Proof.
  destruct (player_fields_shape two_blocks true
              (of_string
                 (tb ++ tb
                     ++ "00001234 - player_surname player_name, 01.01.1900 , player_note"
                     ++ nl)%string)
              [("note", of_string "player_note");
               ("date_of_birth", of_string "01.01.1900");
               ("name", of_string "player_name");
               ("surname", of_string "player_surname");
               ("registration_number", of_string "00001234")]
              example_team eq_refl) as (H1 & H2 & H3 & _).
  split; [apply H1; reflexivity|].
  split; [apply H2; reflexivity|].
  intros a. apply (H3 two_blocks_ascii). reflexivity.
Defined.

(** C8, as stated, fails.  The Player line "\t\t١٢ - s n, 2. , x\n" is
    read, in both modes, as a Player whose [registration_number] is "١٢",
    the Arabic-Indic digits one and two (U+0661, U+0662), which are not
    digits 0-9: under the table that holds these two blocks of digits, and
    under every table that holds these two digits and, below 128, the
    digits 0-9 only. *)
Lemma registration_number_in_other_digits :
  fst (read two_blocks example_state arabic_indic_line true)
  = inr (APlayer
           (Player.Build (Some [0x661; 0x662]%N) (Some (of_string "n"))
                         (Some (of_string "s")) (Some (of_string "2."))
                         (Some (of_string "x")) example_team)) /\
  fst (read two_blocks example_state arabic_indic_line false)
  = fst (read two_blocks example_state arabic_indic_line true) /\
  forallb is_ascii_digit [0x661; 0x662]%N = false /\
  (forall (decimal : database) (strict : bool),
     ascii_digits_only decimal ->
     decimal 0x661%N = true -> decimal 0x662%N = true ->
     read decimal example_state arabic_indic_line strict
     = read two_blocks example_state arabic_indic_line strict).
Proof.
  split; [reflexivity|]. split; [reflexivity|]. split; [reflexivity|].
  intros decimal strict D D1 D2. apply read_ext.
  intros a Ha.
  assert (K : a = 0x661%N \/ a = 0x662%N \/ is_ascii a = true).
  { unfold arabic_indic_line in Ha. simpl in Ha.
    repeat (destruct Ha as [<- | Ha]; [auto|]). destruct Ha. }
  destruct K as [-> | [-> | K]]; [now rewrite D1 | now rewrite D2 |].
  now rewrite (D a K), (two_blocks_ascii a K).
Qed.

(** ** On lines of characters below 256 the two readers agree *)

Lemma code_eqb (a c : ascii) : N.eqb (code a) (code c) = Ascii.eqb a c.
Proof.
  destruct (Ascii.eqb_spec a c) as [->|Hne]; [apply N.eqb_refl|].
  apply N.eqb_neq. intros E. apply Hne.
  rewrite <- (ascii_N_embedding a), <- (ascii_N_embedding c).
  unfold code in E. now rewrite E.
Qed.

Lemma of_string_app (u v : string) :
  of_string (u ++ v)%string = of_string u ++ of_string v.
Proof.
  induction u as [|a u IH]; [reflexivity|].
  unfold of_string in *. simpl. now rewrite IH.
Qed.

Lemma of_string_take n : forall w : string,
  of_string (take n w) = firstn n (of_string w).
Proof.
  unfold take.
  induction n as [|n IH]; intros [|a w]; try reflexivity.
  unfold of_string in *. simpl. now rewrite <- IH.
Qed.

Lemma at_end_latin1 (w : string) :
  at_end (of_string w)
  = (String.eqb w "" || String.eqb w (String newline ""))%bool.
Proof.
  destruct w as [|a [|b w]]; try reflexivity.
  - change (at_end (of_string (String a "")))
      with (N.eqb (code a) (code newline)).
    rewrite code_eqb. simpl. now destruct (Ascii.eqb a newline).
  - simpl. now destruct (Ascii.eqb a newline).
Qed.

Lemma group_latin1 mk n :
  group (of_marks mk) n = of_field (Re.group mk n).
Proof.
  induction mk as [|[n' v] mk IH]; [reflexivity|]. simpl.
  destruct (String.eqb n' n); [reflexivity | exact IH].
Qed.

Section Latin1.
Variable decimal : database.
Hypothesis decimal_latin1 : latin1_digits decimal.

Lemma char_match_latin1 p (a : ascii) :
  char_match decimal p (code a) = Re.char_match p a.
Proof.
  assert (I : forall items,
             existsb (fun it => item_match decimal it (code a)) items
             = existsb (fun it => Re.item_match it a) items).
  { induction items as [|it items IH]; [reflexivity|].
    cbn [existsb]. rewrite IH.
    destruct it; cbn [item_match Re.item_match];
      [now rewrite code_eqb | now rewrite decimal_latin1]. }
  destruct p; cbn [char_match Re.char_match];
    [apply code_eqb | now rewrite code_eqb | apply I | now rewrite I].
Qed.

Lemma repeat_one_latin1 p (w : string) :
  forall i k K,
    (forall i' w', K i' (of_string w') = option_map of_marks (k i' w')) ->
    repeat_one decimal p i (of_string w) K
    = option_map of_marks (Re.repeat_one p i w k).
Proof.
  induction w as [|a t IH]; intros i k K HK.
  - apply (HK i ""%string).
  - change (of_string (String a t)) with (code a :: of_string t).
    simpl. rewrite char_match_latin1.
    destruct (Re.char_match p a); [|apply (HK i (String a t))].
    rewrite (IH (S i) k K HK).
    destruct (Re.repeat_one p (S i) t k); [reflexivity|].
    apply (HK i (String a t)).
Qed.

Lemma run_latin1 r :
  forall i (w : string) mk k K,
    (forall i' w' mk',
       K i' (of_string w') (of_marks mk') = option_map of_marks (k i' w' mk')) ->
    run decimal r i (of_string w) (of_marks mk) K
    = option_map of_marks (Re.run r i w mk k).
Proof.
  induction r as [| |p|p|p|r IH|r1 IH1 r2 IH2|n r IH|r IH];
    intros i w mk k K HK; simpl.
  - destruct (Nat.eqb i 0); [apply HK | reflexivity].
  - rewrite at_end_latin1.
    destruct (String.eqb w "" || String.eqb w (String newline ""))%bool;
      [apply HK | reflexivity].
  - destruct w as [|a t]; [reflexivity|].
    change (of_string (String a t)) with (code a :: of_string t).
    cbv beta iota. rewrite char_match_latin1.
    destruct (Re.char_match p a); [apply HK | reflexivity].
  - apply repeat_one_latin1. intros i' w'. apply HK.
  - destruct w as [|a t]; [reflexivity|].
    change (of_string (String a t)) with (code a :: of_string t).
    cbv beta iota. rewrite char_match_latin1.
    destruct (Re.char_match p a); [|reflexivity].
    apply repeat_one_latin1. intros i' w'. apply HK.
  - rewrite (IH i w mk k K HK).
    destruct (Re.run r i w mk k); [reflexivity | apply HK].
  - apply IH1. intros i' w' mk'. now apply IH2.
  - apply IH. intros i' w' mk'.
    rewrite <- of_string_take. apply (HK i' w' ((n, take (i' - i) w) :: mk')).
  - now apply IH.
Qed.

Lemma fullmatch_latin1 r (line : string) :
  fullmatch decimal r (of_string line)
  = option_map of_marks (Re.fullmatch r line).
Proof.
  unfold fullmatch, Re.fullmatch.
  apply (run_latin1 r 0 line []). intros _ w' mk'.
  now destruct w'.
Qed.

(** On a line of characters below 256, [read] on lines of any characters
    does what [DtbReader.read] does: same entity or same error, same state
    afterwards. *)
Lemma read_latin1 (self : DtbReader.t) (line : string) (strict : bool) :
  read decimal (of_state self) (of_string line) strict
  = of_result (DtbReader.read self line strict).
Proof.
  unfold read, DtbReader.read. rewrite !fullmatch_latin1.
  destruct (Re.fullmatch (DtbReader.group_re strict) line) as [m|];
    cbn [option_map].
  { unfold of_result, group_of, DtbReader.group_of, of_state, of_group.
    cbn [fst snd Group.name Group.note DtbReader.current_group
         DtbReader.current_team option_map of_entity].
    unfold of_group. cbn [Group.name Group.note].
    now rewrite !group_latin1. }
  destruct (Re.fullmatch (DtbReader.team_re strict) line) as [m|];
    cbn [option_map].
  { unfold of_state at 1. cbn [current_group].
    destruct (DtbReader.current_group self) as [g|] eqn:G; cbn [option_map].
    - unfold of_result, team_of, DtbReader.team_of, of_state.
      cbn [fst snd DtbReader.current_group DtbReader.current_team option_map
           of_entity].
      unfold of_team. cbn [Team.name Team.note Team.group].
      now rewrite !group_latin1, G.
    - unfold of_result, TeamWithoutGroup, DtbReader.TeamWithoutGroup.
      cbn [fst snd DtbReader.message].
      now rewrite !of_string_app. }
  destruct (Re.fullmatch (DtbReader.player_re strict) line) as [m|];
    cbn [option_map].
  { unfold of_state at 1. cbn [current_team].
    destruct (DtbReader.current_team self) as [t|] eqn:T; cbn [option_map].
    - unfold of_result, player_of, DtbReader.player_of.
      cbn [fst snd of_entity]. unfold of_player.
      cbn [Player.registration_number Player.name Player.surname
           Player.date_of_birth Player.note Player.team].
      now rewrite !group_latin1.
    - unfold of_result, PlayerWithoutTeam, DtbReader.PlayerWithoutTeam.
      cbn [fst snd DtbReader.message].
      now rewrite !of_string_app. }
  unfold of_result, UnknownLineType, DtbReader.UnknownLineType.
  cbn [fst snd DtbReader.message].
  now rewrite !of_string_app.
Qed.

End Latin1.

End UnicodeFacts.
